(** * weather_analysis.py: synthesis, CSV persistence, plots and HDFS sync

    A shallow embedding of [src/weather_analysis.py] and of the library
    behaviour it relies on (datetime.date arithmetic, round, pandas column
    assignment and to_csv, numpy's equal-width histogram, os.system),
    followed by the properties the specification states about it.

    Conventions.
    - A [datetime.date] is the record of its year, month and day; date
      arithmetic goes through the proleptic Gregorian ordinal exactly as
      CPython's datetime module does ([_ymd2ord], [_ord2ymd]).
    - A finite double is identified with its exact rational value (type [Q]).
      Arithmetic on doubles, as numpy does it for the histogram, returns the
      exact result rounded to the nearest double, ties to even ([b64]).
      [round(x, 1)] is correctly rounded in CPython: it yields the double
      nearest to the decimal obtained by rounding the exact value of [x]
      half-to-even at one fractional digit, and keeps the sign of [x]. Such a
      result is represented by its sign and its number of tenths ([float1]).
    - Python objects that are shared and mutated (DataFrames) live in a heap
      indexed by references; functions are computations in a state-and-
      exception monad over the whole world (random source, clock, heap, file
      system, pyplot figures, standard output, external storage). *)

From Stdlib Require Import ZArith QArith Qabs Qpower Lia Lqa List Bool String Ascii.
From Stdlib Require Import DecimalString DecimalN Permutation Sorted.
From stdpp Require Import gmap strings list.
Import ListNotations.

Local Open Scope string_scope.
Local Open Scope list_scope.
Local Open Scope Z_scope.

(** ** Exceptions and the result of a call *)

Inductive exn :=
| OverflowError          (* date value out of range *)
| OutOfBoundsDatetime    (* pandas: date outside the nanosecond Timestamp range *)
| IsADirectoryError      (* open(path, "w") on a directory *)
| FileExistsError        (* Path.mkdir(exist_ok=True) on an existing file *)
| ValueError             (* numpy: too many bins for the data range *)
| DanglingReference.     (* model only: a reference that was never allocated *)

(** ** datetime.date *)

Record date := mk_date { year : Z; month : Z; day : Z }.

Definition MINYEAR : Z := 1.
Definition MAXYEAR : Z := 9999.
Definition _MAXORDINAL : Z := 3652059.

Definition _DAYS_IN_MONTH : list Z :=
  [-1; 31; 28; 31; 30; 31; 30; 31; 31; 30; 31; 30; 31].
Definition _DAYS_BEFORE_MONTH : list Z :=
  [-1; 0; 31; 59; 90; 120; 151; 181; 212; 243; 273; 304; 334].

(** [l[i]] for a table of integers. *)
Definition index (l : list Z) (i : Z) : Z := nth (Z.to_nat i) l 0.
(** A Python bool used as an integer. *)
Definition b2z (b : bool) : Z := if b then 1 else 0.

Definition _is_leap (y : Z) : bool :=
  (y mod 4 =? 0) && (negb (y mod 100 =? 0) || (y mod 400 =? 0)).

Definition _days_before_year (y0 : Z) : Z :=
  let y := y0 - 1 in y * 365 + y / 4 - y / 100 + y / 400.

Definition _days_in_month (y m : Z) : Z :=
  if (m =? 2) && _is_leap y then 29 else index _DAYS_IN_MONTH m.

Definition _days_before_month (y m : Z) : Z :=
  index _DAYS_BEFORE_MONTH m + b2z ((2 <? m) && _is_leap y).

Definition _ymd2ord (y m d : Z) : Z :=
  _days_before_year y + _days_before_month y m + d.

Definition _DI400Y : Z := Eval cbv in _days_before_year 401.
Definition _DI100Y : Z := Eval cbv in _days_before_year 101.
Definition _DI4Y : Z := Eval cbv in _days_before_year 5.

(** The month estimate of [_ord2ymd] and its correction: from the zero-based
    day of the year to the month and the number of days preceding it. *)
Definition month_of_yday (leapyear : bool) (n : Z) : Z * Z :=
  let month := Z.shiftr (n + 50) 5 in
  let preceding :=
    index _DAYS_BEFORE_MONTH month + b2z ((2 <? month) && leapyear) in
  if n <? preceding then
    let month' := month - 1 in
    (month',
     preceding - (index _DAYS_IN_MONTH month' + b2z ((month' =? 2) && leapyear)))
  else (month, preceding).

Definition _ord2ymd (n0 : Z) : Z * Z * Z :=
  let n := n0 - 1 in
  let n400 := n / _DI400Y in let n := n mod _DI400Y in
  let year := n400 * 400 + 1 in
  let n100 := n / _DI100Y in let n := n mod _DI100Y in
  let n4 := n / _DI4Y in let n := n mod _DI4Y in
  let n1 := n / 365 in let n := n mod 365 in
  let year := year + (n100 * 100 + n4 * 4 + n1) in
  if (n1 =? 4) || (n100 =? 4) then (year - 1, 12, 31)
  else
    let leapyear := (n1 =? 3) && (negb (n4 =? 24) || (n100 =? 3)) in
    let '(month, preceding) := month_of_yday leapyear n in
    (year, month, n - preceding + 1).

Definition toordinal (d : date) : Z := _ymd2ord (year d) (month d) (day d).

Definition fromordinal (n : Z) : date :=
  let '(y, m, d) := _ord2ymd n in mk_date y m d.

(** The invariant of every [datetime.date] object. *)
Definition valid_date (d : date) : Prop :=
  MINYEAR <= year d <= MAXYEAR /\ 1 <= month d <= 12 /\
  1 <= day d <= _days_in_month (year d) (month d).

(** [d - datetime.timedelta(days=k)]: the ordinal moves by [k] days and the
    result must stay within [date.min .. date.max]. *)
Definition date_sub_days (d : date) (k : Z) : exn + date :=
  let o := toordinal d - k in
  if (0 <? o) && (o <=? _MAXORDINAL) then inr (fromordinal o)
  else inl OverflowError.

(** Decimal digits. *)
Definition digit (n : Z) : ascii := ascii_of_nat (48 + Z.to_nat (n mod 10)).

(** ["%02d" % n] and ["%04d" % n] for [0 <= n] within the width. *)
Definition pad2 (n : Z) : string :=
  String (digit (n / 10)) (String (digit n) EmptyString).
Definition pad4 (n : Z) : string :=
  String (digit (n / 1000)) (String (digit (n / 100))
    (String (digit (n / 10)) (String (digit n) EmptyString))).

(** [date.isoformat()], also [str(date)]: ["%04d-%02d-%02d"]. *)
Definition isoformat (d : date) : string :=
  (pad4 (year d) ++ "-" ++ pad2 (month d) ++ "-" ++ pad2 (day d))%string.

(** ** Floats rounded to one decimal *)

(** Nearest integer, ties to even. *)
Definition round_half_even (x : Q) : Z :=
  let n := Qnum x in
  let d := Zpos (Qden x) in
  let q := n / d in
  let r := n mod d in
  if 2 * r <? d then q
  else if d <? 2 * r then q + 1
  else if Z.even q then q else q + 1.

(** A double that is the result of [round(_, 1)]: sign bit and tenths
    ([-0.0] is [mk_float1 true 0]). *)
Record float1 := mk_float1 { f_neg : bool; f_tenths : N }.

(** [round(x, 1)]. *)
Definition round1 (x : Q) : float1 :=
  {| f_neg := (Qnum x <? 0);
     f_tenths := Z.abs_N (round_half_even (x * (10 # 1))) |}.

(** The value in tenths, and as a rational. *)
Definition f_value (t : float1) : Z :=
  if f_neg t then - Z.of_N (f_tenths t) else Z.of_N (f_tenths t).
Definition f_Q (t : float1) : Q := f_value t # 10.

(** ** Double precision *)

(** The binary exponent of a positive rational [q]: the [e] with
    [2^e <= q < 2^(e+1)]. *)
Definition binary_exponent (q : Q) : Z :=
  let e := Z.log2 (Qnum q) - Z.log2 (Zpos (Qden q)) in
  if Qle_bool (2 ^ e) q then e else e - 1.

(** The double nearest to a positive rational: its significand of 53 bits
    is the scaled value rounded half to even. The exponent is not limited:
    overflow and gradual underflow, beyond 1.8e308 and below 2.2e-308, are
    out of reach of the values the program computes with. *)
Definition b64_pos (q : Q) : Q :=
  let u := binary_exponent q - 52 in
  (inject_Z (round_half_even (q * 2 ^ (- u))) * 2 ^ u)%Q.

(** Rounding to the nearest double, as every IEEE 754 operation does with
    its exact result; the result is given in lowest terms. The sign of a
    zero is not kept: comparisons do not tell the two zeros apart. *)
Definition b64 (q : Q) : Q :=
  Qred match Qnum q with
       | Z0 => 0
       | Zpos _ => b64_pos q
       | Zneg _ => - b64_pos (- q)
       end.

(** The double a temperature is held as: the one nearest to its decimal
    value. *)
Definition f_double (t : float1) : Q := b64 (f_value t # 10).

(** [repr(t)], which pandas writes to CSV: an optional minus sign, the integer
    part, a point and one digit. This is the positional notation [repr] uses
    for magnitudes below 1e16; from there on [repr] writes an exponent, which
    this definition does not follow, so the layout of the written file is
    stated for temperatures within [moderate] below. *)
Definition float_repr (t : float1) : string :=
  ((if f_neg t then "-" else EmptyString) ++
   NilZero.string_of_uint (N.to_uint (f_tenths t / 10)) ++ "." ++
   String (digit (Z.of_N (f_tenths t))) EmptyString)%string.

(** ** The source of randomness *)

(** [random.uniform(a, b)] on a generator in state [s] returns a double [N]
    with [a <= N <= b] (for [a <= b]) and the next state. *)
Class RandomSource (S : Type) := {
  uniform : Q -> Q -> S -> Q * S;
  uniform_range : forall a b s, (a <= b)%Q ->
    (a <= fst (uniform a b s))%Q /\ (fst (uniform a b s) <= b)%Q
}.

(** State of the generator after [n] calls of [random.uniform(a, b)], and the
    value returned by the next call. *)
Fixpoint rng_after {S} `{RandomSource S} (a b : Q) (s : S) (n : nat) : S :=
  match n with
  | O => s
  | Datatypes.S n' => rng_after a b (snd (uniform a b s)) n'
  end.
Definition draw {S} `{RandomSource S} (a b : Q) (s : S) (n : nat) : Q :=
  fst (uniform a b (rng_after a b s n)).

(** ** DataFrames, figures, files *)

(** A cell of the "date" column: a [datetime.date] object (dtype object), or
    a pandas Timestamp at midnight of that day (dtype datetime64[ns]). *)
Inductive datecell :=
| DateObj (d : date)
| Timestamp (d : date).

Definition cell_date (c : datecell) : date :=
  match c with DateObj d | Timestamp d => d end.

(** One reading as [generate_weather_data] appends it to [data]. *)
Definition reading : Type := date * string * float1.

(** A row of a frame with columns ["date", "city", "temperature"]. *)
Record Row := mk_row {
  r_date : datecell;
  r_city : string;
  r_temperature : float1
}.

Definition row_of_reading (r : reading) : Row :=
  let '(d, c, t) := r in mk_row (DateObj d) c t.

Definition row_key (r : Row) : string * date := (r_city r, cell_date (r_date r)).

(** What pyplot draws. *)
Inductive Artist :=
| Line2D (xs : list datecell) (ys : list float1) (label : string)
| BarContainer (edges : list Q) (counts : list nat) (edgecolor : string).

Record Figure := mk_figure {
  fig_size : Q * Q;
  fig_artists : list Artist;
  fig_title : string;
  fig_xlabel : string;
  fig_ylabel : string;
  fig_legend : bool;
  fig_grid : bool;
  fig_tight : bool
}.

Inductive content :=
| Text (s : string)
| Image (f : Figure)
| Blob (b : string).         (* bytes fetched by the storage client *)

Inductive node :=
| Dir
| File (c : content).

(** ** pandas and numpy operations used by the program *)

Definition newline : ascii := "010"%char.
Definition nl : string := String newline EmptyString.
Definition comma : ascii := ","%char.
Definition dquote : ascii := "034"%char.

Fixpoint contains (c : ascii) (s : string) : bool :=
  match s with
  | EmptyString => false
  | String a s' => Ascii.eqb a c || contains c s'
  end.

(** csv.QUOTE_MINIMAL: a field is quoted when it holds the delimiter, the
    quote character or a line break; inner quotes are doubled. *)
Definition needs_quote (s : string) : bool :=
  contains comma s || contains dquote s ||
  contains newline s || contains "013"%char s.

Fixpoint double_quotes (s : string) : string :=
  match s with
  | EmptyString => EmptyString
  | String a s' =>
      if Ascii.eqb a dquote then String a (String a (double_quotes s'))
      else String a (double_quotes s')
  end.

Definition csv_field (s : string) : string :=
  if needs_quote s
  then (String dquote (double_quotes s) ++ String dquote EmptyString)%string
  else s.

(** A date cell as to_csv writes it: [str(date)] for an object column, and the
    date alone for a datetime64 column whose values are all at midnight. *)
Definition date_str (c : datecell) : string := isoformat (cell_date c).

Definition csv_row (r : Row) : string :=
  (date_str (r_date r) ++ "," ++ csv_field (r_city r) ++ "," ++
   float_repr (r_temperature r))%string.

Definition csv_header : string := "date,city,temperature".

(** Lines written one after the other, each followed by the line
    terminator (that of a POSIX system). *)
Fixpoint join_lines (ls : list string) : string :=
  match ls with
  | [] => EmptyString
  | l :: ls' => (l ++ nl ++ join_lines ls')%string
  end.

(** The text [df.to_csv(path, index=False)] writes: the header, then one
    line per row in the order of the frame. *)
Definition csv_text (frame : list Row) : string :=
  join_lines (csv_header :: map csv_row frame).

(** pd.to_datetime on the date column: every cell becomes the Timestamp at
    midnight of its day, which must lie within the nanosecond range
    1677-09-22 .. 2262-04-11; the result is a new column. *)
Definition ts_min_ordinal : Z := Eval cbv in _ymd2ord 1677 9 22.
Definition ts_max_ordinal : Z := Eval cbv in _ymd2ord 2262 4 11.

Definition to_timestamp (c : datecell) : exn + datecell :=
  let o := toordinal (cell_date c) in
  if (ts_min_ordinal <=? o) && (o <=? ts_max_ordinal)
  then inr (Timestamp (cell_date c))
  else inl OutOfBoundsDatetime.

Fixpoint to_datetime (col : list datecell) : exn + list datecell :=
  match col with
  | [] => inr []
  | c :: col' =>
      match to_timestamp c with
      | inl e => inl e
      | inr t =>
          match to_datetime col' with
          | inl e => inl e
          | inr ts => inr (t :: ts)
          end
      end
  end.

(** [df["date"] = col] on the rows of a frame. *)
Fixpoint assign_date (frame : list Row) (col : list datecell) : list Row :=
  match frame, col with
  | r :: frame', c :: col' =>
      mk_row c (r_city r) (r_temperature r) :: assign_date frame' col'
  | _, _ => []
  end.

(** Ordering of rows by ["city", "date"]. *)
Definition row_leb (a b : Row) : bool :=
  match String.compare (r_city a) (r_city b) with
  | Lt => true
  | Gt => false
  | Eq => toordinal (cell_date (r_date a)) <=? toordinal (cell_date (r_date b))
  end.

Fixpoint insert_sorted (r : Row) (l : list Row) : list Row :=
  match l with
  | [] => [r]
  | x :: l' => if row_leb r x then r :: l else x :: insert_sorted r l'
  end.

(** [df.sort_values(by=["city", "date"])]: a stable sort into a new frame. *)
Definition sorted_by_city_date (frame : list Row) : list Row :=
  fold_right insert_sorted [] frame.

(** [Series.unique()]: the distinct values in order of first appearance. *)
Fixpoint unique (l : list string) : list string :=
  match l with
  | [] => []
  | x :: l' => x :: List.filter (fun y => negb (String.eqb x y)) (unique l')
  end.

(** [df[df["city"] == city]]. *)
Definition select_city (city : string) (frame : list Row) : list Row :=
  List.filter (fun r => String.eqb (r_city r) city) frame.

Definition range (n : Z) : list Z := map Z.of_nat (seq 0 (Z.to_nat n)).

Definition Qlt_bool (x y : Q) : bool := negb (Qle_bool y x).

(** [a.min()] and [a.max()] of the data. *)
Definition np_minimum (x y : Q) : Q := if Qle_bool x y then x else y.
Definition np_maximum (x y : Q) : Q := if Qle_bool x y then y else x.

Definition observed_min (a : list Q) : Q :=
  match a with
  | [] => 0
  | x :: l => fold_right np_minimum x l
  end.
Definition observed_max (a : list Q) : Q :=
  match a with
  | [] => 0
  | x :: l => fold_right np_maximum x l
  end.

(** numpy's [_get_outer_edges], with the range pyplot hands over (the
    least and the greatest value): for no data it is (0, 1), and a range of
    no width is widened by 0.5 on each side. *)
Definition outer_edges (a : list Q) : Q * Q :=
  match a with
  | [] => (0, 1)%Q
  | _ :: _ =>
      let first_edge := observed_min a in
      let last_edge := observed_max a in
      if Qeq_bool first_edge last_edge
      then (b64 (first_edge - (1 # 2)), b64 (last_edge + (1 # 2)))
      else (first_edge, last_edge)
  end.

(** [np.linspace(start, stop, num)] for [num >= 2]: the multiples of the
    step are added to the start, and the last point is overwritten with
    [stop]. *)
Definition np_linspace (start stop : Q) (num : Z) : list Q :=
  let div := inject_Z (num - 1) in
  let delta := b64 (stop - start) in
  let step := b64 (delta / div) in
  let y := if Qeq_bool step 0
           then map (fun i => b64 (b64 (inject_Z i / div) * delta)) (range (num - 1))
           else map (fun i => b64 (inject_Z i * step)) (range (num - 1)) in
  map (fun p => b64 (p + start)) y ++ [stop].

(** No edge is followed by a smaller or equal one. *)
Fixpoint increasing (l : list Q) : bool :=
  match l with
  | [] => true
  | x :: l' =>
      match l' with
      | [] => true
      | y :: _ => Qlt_bool x y && increasing l'
      end
  end.

(** [astype(np.intp)]: truncation towards zero. *)
Definition astype_intp (q : Q) : Z := Z.quot (Qnum q) (Zpos (Qden q)).

(** [bin_edges[i]], for an index within the array. *)
Definition edge (bin_edges : list Q) (i : Z) : Q := nth (Z.to_nat i) bin_edges 0%Q.

(** The bin numpy counts [x] in: a first guess from the position of [x] in
    the range, moved down or up by one where the edges say otherwise. *)
Definition bin_index (bin_edges : list Q) (first_edge last_edge : Q) (n : Z)
    (x : Q) : Z :=
  let norm_denom := b64 (last_edge - first_edge) in
  let f_index := b64 (b64 (b64 (x - first_edge) / norm_denom) * inject_Z n) in
  let i := astype_intp f_index in
  let i := if i =? n then i - 1 else i in
  let i := if Qlt_bool x (edge bin_edges i) then i - 1 else i in
  if Qle_bool (edge bin_edges (i + 1)) x && negb (i =? n - 1) then i + 1 else i.

(** The values numpy keeps: those within the range. *)
Definition keep (first_edge last_edge x : Q) : bool :=
  Qle_bool first_edge x && Qle_bool x last_edge.

(** numpy.histogram with [bins] equal-width bins, on doubles: the counts
    ([np.bincount] of the bin indices) and the edges. numpy refuses edges
    that do not increase (releases before 2.0 do not check this). *)
Definition np_histogram (a : list Q) (bins : Z) : exn + (list nat * list Q) :=
  let '(first_edge, last_edge) := outer_edges a in
  let bin_edges := np_linspace first_edge last_edge (bins + 1) in
  if increasing bin_edges then
    let kept := List.filter (keep first_edge last_edge) a in
    inr (map (fun b =>
                length (List.filter
                          (fun x => bin_index bin_edges first_edge last_edge bins x =? b)
                          kept))
             (range bins),
         bin_edges)
  else inl ValueError.

(** ** The world and the monad of Python computations *)

Definition loc := nat.

(** The external storage client as the shell runs it: from the command line,
    the state of the remote store and the local files to the wait status, the
    new remote state and the new local files. *)
Class Shell (E : Type) := {
  os_system_run : string -> E -> gmap string node -> Z * E * gmap string node
}.

Section Program.

Context {S E : Type} `{RandomSource S} `{Shell E}.

Record World := mk_world {
  w_rng : S;                         (* state of the random module *)
  w_ext : E;                         (* state of the remote store *)
  w_today : date;                    (* the system clock's local date *)
  w_heap : gmap loc (list Row);      (* DataFrame objects *)
  w_fs : gmap string node;           (* local files *)
  w_figs : list Figure;              (* pyplot's open figures, current first *)
  w_stdout : list string             (* lines printed, oldest first *)
}.

Definition set_rng (s : S) (w : World) : World :=
  mk_world s (w_ext w) (w_today w) (w_heap w) (w_fs w) (w_figs w) (w_stdout w).
Definition set_ext (e : E) (w : World) : World :=
  mk_world (w_rng w) e (w_today w) (w_heap w) (w_fs w) (w_figs w) (w_stdout w).
Definition set_heap (h : gmap loc (list Row)) (w : World) : World :=
  mk_world (w_rng w) (w_ext w) (w_today w) h (w_fs w) (w_figs w) (w_stdout w).
Definition set_fs (f : gmap string node) (w : World) : World :=
  mk_world (w_rng w) (w_ext w) (w_today w) (w_heap w) f (w_figs w) (w_stdout w).
Definition set_figs (f : list Figure) (w : World) : World :=
  mk_world (w_rng w) (w_ext w) (w_today w) (w_heap w) (w_fs w) f (w_stdout w).
Definition set_stdout (o : list string) (w : World) : World :=
  mk_world (w_rng w) (w_ext w) (w_today w) (w_heap w) (w_fs w) (w_figs w) o.

(** A computation returns a value or raises, and leaves a world behind in
    both cases. *)
Definition M (A : Type) : Type := World -> (exn + A) * World.

#[global] Instance M_ret : MRet M := fun A x w => (inr x, w).
#[global] Instance M_bind : MBind M := fun A B f m w =>
  match m w with
  | (inl e, w') => (inl e, w')
  | (inr x, w') => f x w'
  end.

Definition raise {A} (e : exn) : M A := fun w => (inl e, w).
Definition lift {A} (r : exn + A) : M A := fun w => (r, w).

(** [for x in l: st = body(x, st)]. *)
Fixpoint for_each {A St} (l : list A) (body : A -> St -> M St) (st : St) : M St :=
  match l with
  | [] => mret st
  | x :: l' => st' ← body x st; for_each l' body st'
  end.

(** datetime.date.today() *)
Definition date_today : M date := fun w => (inr (w_today w), w).

(** random.uniform(a, b) *)
Definition random_uniform (a b : Q) : M Q := fun w =>
  let '(x, s) := uniform a b (w_rng w) in (inr x, set_rng s w).

(** print(line) *)
Definition print (line : string) : M unit := fun w =>
  (inr tt, set_stdout (w_stdout w ++ [line]) w).

(** A new DataFrame object holding [frame]. *)
Definition new_frame (frame : list Row) : M loc := fun w =>
  let l := fresh (dom (w_heap w)) in
  (inr l, set_heap (<[l := frame]> (w_heap w)) w).

Definition get_frame (df : loc) : M (list Row) := fun w =>
  match w_heap w !! df with
  | Some frame => (inr frame, w)
  | None => (inl DanglingReference, w)
  end.

(** In-place update of the object [df] refers to. *)
Definition put_frame (df : loc) (frame : list Row) : M unit := fun w =>
  (inr tt, set_heap (<[df := frame]> (w_heap w)) w).

(** Creating or truncating the file at [path] and writing [c]. *)
Definition write_file (path : string) (c : content) : M unit := fun w =>
  match w_fs w !! path with
  | Some Dir => (inl IsADirectoryError, w)
  | _ => (inr tt, set_fs (<[path := File c]> (w_fs w)) w)
  end.

(** Path(path).mkdir(exist_ok=True) *)
Definition mkdir_exist_ok (path : string) : M unit := fun w =>
  match w_fs w !! path with
  | Some (File _) => (inl FileExistsError, w)
  | Some Dir => (inr tt, w)
  | None => (inr tt, set_fs (<[path := Dir]> (w_fs w)) w)
  end.

(** os.system(cmd): runs the command and returns its wait status. *)
Definition os_system (cmd : string) : M Z := fun w =>
  let '(status, e, fs) := os_system_run cmd (w_ext w) (w_fs w) in
  (inr status, set_fs fs (set_ext e w)).

(** pyplot: the current figure is the head of the open figures; a call that
    needs one when none is open creates a default figure. *)
Definition empty_figure (size : Q * Q) : Figure :=
  mk_figure size [] EmptyString EmptyString EmptyString false false false.

Definition default_figure : Figure := empty_figure (64 # 10, 48 # 10)%Q.

Definition plt_figure (size : Q * Q) : M unit := fun w =>
  (inr tt, set_figs (empty_figure size :: w_figs w) w).

Definition on_gcf (f : Figure -> Figure) : M unit := fun w =>
  match w_figs w with
  | [] => (inr tt, set_figs [f default_figure] w)
  | g :: gs => (inr tt, set_figs (f g :: gs) w)
  end.

Definition add_artist (a : Artist) (g : Figure) : Figure :=
  mk_figure (fig_size g) (fig_artists g ++ [a]) (fig_title g) (fig_xlabel g)
    (fig_ylabel g) (fig_legend g) (fig_grid g) (fig_tight g).
Definition set_title (s : string) (g : Figure) : Figure :=
  mk_figure (fig_size g) (fig_artists g) s (fig_xlabel g)
    (fig_ylabel g) (fig_legend g) (fig_grid g) (fig_tight g).
Definition set_xlabel (s : string) (g : Figure) : Figure :=
  mk_figure (fig_size g) (fig_artists g) (fig_title g) s
    (fig_ylabel g) (fig_legend g) (fig_grid g) (fig_tight g).
Definition set_ylabel (s : string) (g : Figure) : Figure :=
  mk_figure (fig_size g) (fig_artists g) (fig_title g) (fig_xlabel g)
    s (fig_legend g) (fig_grid g) (fig_tight g).
Definition set_legend (g : Figure) : Figure :=
  mk_figure (fig_size g) (fig_artists g) (fig_title g) (fig_xlabel g)
    (fig_ylabel g) true (fig_grid g) (fig_tight g).
Definition set_grid (b : bool) (g : Figure) : Figure :=
  mk_figure (fig_size g) (fig_artists g) (fig_title g) (fig_xlabel g)
    (fig_ylabel g) (fig_legend g) b (fig_tight g).
Definition set_tight (g : Figure) : Figure :=
  mk_figure (fig_size g) (fig_artists g) (fig_title g) (fig_xlabel g)
    (fig_ylabel g) (fig_legend g) (fig_grid g) true.

Definition plt_plot (xs : list datecell) (ys : list float1) (label : string) : M unit :=
  on_gcf (add_artist (Line2D xs ys label)).

Definition plt_hist (x : list float1) (bins : Z) (edgecolor : string) : M unit :=
  h ← lift (np_histogram (map f_double x) bins);
  on_gcf (add_artist (BarContainer (snd h) (fst h) edgecolor)).

Definition plt_savefig (path : string) : M unit := fun w =>
  match w_figs w with
  | [] => write_file path (Image default_figure) w
  | g :: _ => write_file path (Image g) w
  end.

Definition plt_close : M unit := fun w =>
  (inr tt, set_figs (tail (w_figs w)) w).

(** df.to_csv(path, index=False) *)
Definition to_csv (df : loc) (path : string) : M unit :=
  frame ← get_frame df;
  write_file path (Text (csv_text frame)).

(** ** The program *)

Definition cities : list string :=
  ["London"; "New York"; "Tokyo"; "Berlin"; "Moscow"; "Sydney"].

(** The body of the inner loop of [generate_weather_data]: one reading is
    appended to [data]. *)
Definition append_reading (today : date) (window : Z) (city : string) (i : Z)
    (data : list reading) : M (list reading) :=
  date_i ← lift (date_sub_days today (window - i));
  temp ← random_uniform (-5 # 1) (35 # 1);
  mret (data ++ [(date_i, city, round1 temp)]).

(** The body of [generate_weather_data] with its two literals, the city list
    and the number of days, as parameters. *)
Definition generate (cities : list string) (window : Z) : M loc :=
  today ← date_today;
  data ← for_each cities (fun city data =>
      for_each (range window) (append_reading today window city) data) [];
  df ← new_frame (map row_of_reading data);
  mret df.

Definition generate_weather_data : M loc := generate cities 30.

Definition plot_temperature_changes (df : loc) : M unit :=
  frame ← get_frame df;
  col ← lift (to_datetime (map r_date frame));
  put_frame df (assign_date frame col);;
  frame ← get_frame df;
  df ← new_frame (sorted_by_city_date frame);
  frame ← get_frame df;
  let cities := unique (map r_city frame) in
  plt_figure (10 # 1, 6 # 1)%Q;;
  for_each cities (fun city _ =>
      city_data ← new_frame (select_city city frame);
      rows ← get_frame city_data;
      plt_plot (map r_date rows) (map r_temperature rows) city) tt;;
  on_gcf (set_title "Изменение температуры по датам (последние 30 дней)");;
  on_gcf (set_xlabel "Дата");;
  on_gcf (set_ylabel "Температура (°C)");;
  on_gcf set_legend;;
  on_gcf (set_grid true);;
  on_gcf set_tight;;
  plt_savefig "temperature_changes.png";;
  plt_close;;
  print "[INFO] График изменений температуры сохранён в 'temperature_changes.png'.".

Definition plot_temperature_distribution (df : loc) : M unit :=
  plt_figure (8 # 1, 5 # 1)%Q;;
  frame ← get_frame df;
  plt_hist (map r_temperature frame) 20 "black";;
  on_gcf (set_title "Распределение температуры (за 30 дней, все города)");;
  on_gcf (set_xlabel "Температура (°C)");;
  on_gcf (set_ylabel "Частота");;
  on_gcf (set_grid true);;
  on_gcf set_tight;;
  plt_savefig "temperature_distribution.png";;
  plt_close;;
  print "[INFO] Гистограмма распределения температур сохранена в 'temperature_distribution.png'.".

(** Both functions return None: the status of [os.system] is dropped. *)
Definition save_results_to_hdfs (local_path hdfs_path : string) : M unit :=
  let cmd := ("hadoop fs -put -f " ++ local_path ++ " " ++ hdfs_path)%string in
  print ("[INFO] Выполняется: " ++ cmd)%string;;
  _ ← os_system cmd;
  mret tt.

Definition get_results_from_hdfs (hdfs_path local_path : string) : M unit :=
  let cmd := ("hadoop fs -get -f " ++ hdfs_path ++ " " ++ local_path)%string in
  print ("[INFO] Выполняется: " ++ cmd)%string;;
  _ ← os_system cmd;
  mret tt.

Definition csv_file : string := "weather_data.csv".
Definition hdfs_csv_path : string := "/user/your_hdfs_user/weather_data.csv".
Definition hdfs_temp_changes : string := "/user/your_hdfs_user/temperature_changes.png".
Definition hdfs_temp_distribution : string :=
  "/user/your_hdfs_user/temperature_distribution.png".

(** Step 1 of [main]: collecting the data and saving it as CSV. *)
Definition main_collect : M loc :=
  df_weather ← generate_weather_data;
  print "[INFO] Данные по погоде (имитация) собраны.";;
  to_csv df_weather csv_file;;
  print ("[INFO] Исходные данные сохранены в '" ++ csv_file ++ "'.")%string;;
  mret df_weather.

Definition main : M unit :=
  df_weather ← main_collect;
  plot_temperature_changes df_weather;;
  plot_temperature_distribution df_weather;;
  save_results_to_hdfs csv_file hdfs_csv_path;;
  save_results_to_hdfs "temperature_changes.png" hdfs_temp_changes;;
  save_results_to_hdfs "temperature_distribution.png" hdfs_temp_distribution;;
  mkdir_exist_ok "results_from_hdfs";;
  get_results_from_hdfs hdfs_csv_path "results_from_hdfs/weather_data.csv";;
  get_results_from_hdfs hdfs_temp_changes "results_from_hdfs/temperature_changes.png";;
  get_results_from_hdfs hdfs_temp_distribution
    "results_from_hdfs/temperature_distribution.png";;
  print "[INFO] Процесс завершён.".

End Program.

Arguments World : clear implicits.
Arguments M : clear implicits.

(** ** What the generator is expected to produce *)

Section Expected.

Context {S : Type} `{RandomSource S}.

(** The days [today - window .. today - 1], oldest first. *)
Definition window_dates (today : date) (window : Z) : list date :=
  map (fun i => fromordinal (toordinal today - (window - i))) (range window).

(** The readings of one city, whose temperatures are the draws number
    [off], [off + 1], ... of the generator started in state [s]. *)
Definition city_readings (today : date) (window : Z) (s : S) (off : nat)
    (city : string) : list reading :=
  map (fun i : nat =>
         (fromordinal (toordinal today - (window - Z.of_nat i)), city,
          round1 (draw (-5 # 1) (35 # 1) s (off + i))))
      (seq 0 (Z.to_nat window)).

Fixpoint readings_from (today : date) (window : Z) (s : S) (off : nat)
    (cs : list string) : list reading :=
  match cs with
  | [] => []
  | c :: cs' =>
      city_readings today window s off c ++
      readings_from today window s (off + Z.to_nat window) cs'
  end.

End Expected.

(** The (date, city, temperature) tuple of a row. *)
Definition tuple_of_row (r : Row) : reading :=
  (cell_date (r_date r), r_city r, r_temperature r).

(** ** Shapes of the CSV fields *)

Definition is_digit (a : ascii) : bool :=
  let n := nat_of_ascii a in (48 <=? n)%nat && (n <=? 57)%nat.

(** YYYY-MM-DD: four digits, a hyphen, two digits, a hyphen, two digits. *)
Definition is_iso_date (s : string) : bool :=
  match s with
  | String y1 (String y2 (String y3 (String y4 (String h1
      (String m1 (String m2 (String h2 (String d1 (String d2 EmptyString))))))))) =>
      forallb is_digit [y1; y2; y3; y4; m1; m2; d1; d2] &&
      Ascii.eqb h1 "-" && Ascii.eqb h2 "-"
  | _ => false
  end.

Fixpoint all_digits (s : string) : bool :=
  match s with
  | EmptyString => true
  | String a s' => is_digit a && all_digits s'
  end.

(** An unsigned decimal with exactly one digit after the point. *)
Fixpoint is_decimal1 (s : string) : bool :=
  match s with
  | String a (String p (String d EmptyString)) =>
      is_digit a && Ascii.eqb p "." && is_digit d
  | String a s' => is_digit a && is_decimal1 s'
  | EmptyString => false
  end.

(** A decimal with exactly one fractional digit, with an optional sign. *)
Definition has_one_fraction_digit (s : string) : bool :=
  match s with
  | String "-" s' => is_decimal1 s'
  | _ => is_decimal1 s
  end.

(** Python's [str.split(sep)] for a one-character separator. *)
Fixpoint split_on (sep : ascii) (s : string) : list string :=
  match s with
  | EmptyString => [EmptyString]
  | String a s' =>
      if Ascii.eqb a sep then EmptyString :: split_on sep s'
      else
        match split_on sep s' with
        | [] => [String a EmptyString]
        | w :: ws => String a w :: ws
        end
  end.

(** ** Reading a CSV file back *)

(** The repository only writes the CSV file. The specification speaks of
    parsing a file produced by persist back into (date, city, temperature)
    tuples, with the header [date,city,temperature], dates in the form
    YYYY-MM-DD and temperatures as decimals with one fractional digit; the
    parser below follows these words, taking the fields as they stand between
    the commas of a line. *)

(** The value of a decimal digit. *)
Definition digit_val (a : ascii) : Z := Z.of_nat (nat_of_ascii a) - 48.

(** Modelled from the spec: the CSV parser, which the repository does not
    have; here a date field, YYYY-MM-DD. *)
Definition parse_date (s : string) : option date :=
  match s with
  | String y1 (String y2 (String y3 (String y4 (String h1
      (String m1 (String m2 (String h2 (String d1 (String d2 EmptyString))))))))) =>
      if is_iso_date s then
        Some (mk_date
                (1000 * digit_val y1 + 100 * digit_val y2 +
                 10 * digit_val y3 + digit_val y4)
                (10 * digit_val m1 + digit_val m2)
                (10 * digit_val d1 + digit_val d2))
      else None
  | _ => None
  end.

(** Modelled from the spec: the unsigned part of a temperature field,
    digits, a point and one digit. *)
Definition parse_unsigned1 (neg : bool) (s : string) : option float1 :=
  match split_on "." s with
  | [ip; String d EmptyString] =>
      if is_digit d then
        match NilZero.uint_of_string ip with
        | Some u =>
            Some (mk_float1 neg (10 * N.of_uint u + Z.to_N (digit_val d))%N)
        | None => None
        end
      else None
  | _ => None
  end.

(** Modelled from the spec: a temperature field with its optional sign. *)
Definition parse_float1 (s : string) : option float1 :=
  match s with
  | String "-" s' => parse_unsigned1 true s'
  | _ => parse_unsigned1 false s
  end.

(** Modelled from the spec: one data line. *)
Definition parse_row (line : string) : option reading :=
  match split_on comma line with
  | [d; c; t] =>
      match parse_date d, parse_float1 t with
      | Some d', Some t' => Some (d', c, t')
      | _, _ => None
      end
  | _ => None
  end.

(** Modelled from the spec: the data lines; the piece after the last line
    terminator is empty. *)
Fixpoint parse_rows (ls : list string) : option (list reading) :=
  match ls with
  | [] => Some []
  | l :: ls' =>
      match ls' with
      | [] => if String.eqb l EmptyString then Some [] else None
      | _ :: _ =>
          match parse_row l, parse_rows ls' with
          | Some r, Some rs => Some (r :: rs)
          | _, _ => None
          end
      end
  end.

(** Modelled from the spec: the whole file, a header line and data lines. *)
Definition parse_csv (text : string) : option (list reading) :=
  match split_on newline text with
  | header :: rest =>
      if String.eqb header csv_header then parse_rows rest else None
  | [] => None
  end.

(** ** A concrete world, for running the program *)

(** A linear congruential generator; a draw is [a + (b - a) * u] with [u] a
    multiple of 2^-53 in [0, 1). *)
Definition lcg_next (s : Z) : Z :=
  (6364136223846793005 * s + 1442695040888963407) mod 2 ^ 64.

Definition lcg_unit (s : Z) : Q := ((s / 2 ^ 11) mod 2 ^ 53) # (2 ^ 53).

Definition lcg_uniform (a b : Q) (s : Z) : Q * Z :=
  let s' := lcg_next s in
  ((a + (b - a) * lcg_unit s')%Q, s').

#[global] Instance lcg_source : RandomSource Z.
Proof.
  refine {| uniform := lcg_uniform |}.
  intros a b s Hab. unfold lcg_uniform. cbn [fst].
  assert (H0 : (0 <= lcg_unit (lcg_next s))%Q /\ (lcg_unit (lcg_next s) <= 1)%Q).
  { unfold lcg_unit, Qle. cbn [Qnum Qden].
    pose proof (Z.mod_pos_bound (lcg_next s / 2 ^ 11) (2 ^ 53) eq_refl).
    split; lia. }
  destruct H0 as [H0 H1]. split; nra.
Defined.

(** A stand-in for the storage client: the remote store maps paths to file
    contents; [put] of a missing local file and [get] of a missing remote
    file exit with status 1 (wait status 256), and a command line that is
    not understood cannot be run (status 127, wait status 32512). *)
Definition fake_hadoop (cmd : string) (remote : gmap string content)
    (fs : gmap string node) : Z * gmap string content * gmap string node :=
  match split_on " "%char cmd with
  | ["hadoop"; "fs"; "-put"; "-f"; l; r] =>
      match fs !! l with
      | Some (File c) => (0, <[r := c]> remote, fs)
      | _ => (256, remote, fs)
      end
  | ["hadoop"; "fs"; "-get"; "-f"; r; l] =>
      match remote !! r with
      | Some c => (0, remote, <[l := File c]> fs)
      | None => (256, remote, fs)
      end
  | _ => (32512, remote, fs)
  end.

#[global] Instance fake_shell : Shell (gmap string content) :=
  {| os_system_run := fake_hadoop |}.

(** A first run on 2026-11-03: nothing on the heap, no local or remote
    file. *)
Definition world0 : World Z (gmap string content) :=
  mk_world 2024 ∅ (mk_date 2026 11 3) ∅ ∅ [] [].

(** A small frame and a frame of equal temperatures, each behind reference 0
    of an otherwise empty world. *)
Definition sample_frame : list Row :=
  [ mk_row (DateObj (mk_date 2026 11 2)) "London" (mk_float1 false 215);
    mk_row (DateObj (mk_date 2026 11 1)) "London" (mk_float1 true 13);
    mk_row (DateObj (mk_date 2026 11 2)) "Berlin" (mk_float1 false 350) ].

Definition constant_frame : list Row :=
  [ mk_row (DateObj (mk_date 2026 11 1)) "London" (mk_float1 false 215);
    mk_row (DateObj (mk_date 2026 11 2)) "London" (mk_float1 false 215);
    mk_row (DateObj (mk_date 2026 11 2)) "Berlin" (mk_float1 false 215) ].

Definition world_with (frame : list Row) : World Z (gmap string content) :=
  mk_world 2024 ∅ (mk_date 2026 11 3) {[ 0%nat := frame ]} ∅ [] [].

(** ** Observing the outcome of a call *)

(** The frame behind the reference a call returned, if it returned one. *)
Definition returned_frame {S E} (out : (exn + loc) * World S E) : option (list Row) :=
  match fst out with
  | inr df => w_heap (snd out) !! df
  | inl _ => None
  end.

(** The dates of the rows of that frame, in row order. *)
Definition frame_dates {S E} (out : (exn + loc) * World S E) : list date :=
  match returned_frame out with
  | Some frame => map (fun r => cell_date (r_date r)) frame
  | None => []
  end.

Definition date_eqb (a b : date) : bool :=
  (year a =? year b) && (month a =? month b) && (day a =? day b).

(** A row after [pd.to_datetime] has converted its date. *)
Definition as_timestamp (r : Row) : Row :=
  mk_row (Timestamp (cell_date (r_date r))) (r_city r) (r_temperature r).

(** A row that to_csv writes without quoting, holding a date object or
    Timestamp of a valid day. *)
Definition plain_row (r : Row) : Prop :=
  valid_date (cell_date (r_date r)) /\ needs_quote (r_city r) = false.

(** Temperatures below 1e11 in magnitude. For them the double nearest to
    k/10 is told apart from its neighbours by the decimal k/10 itself, so
    that [float1] stands for the program's doubles and [repr] writes them in
    positional notation with one digit after the point (from 1e16 on [repr]
    changes to exponent notation, which [float_repr] does not follow); and
    two of them that differ are far enough apart for twenty bins between
    them to have edges that are different doubles. *)
Definition moderate (t : float1) : Prop := (f_tenths t < 1000000000000)%N.

(** Bin [b] of [n] bins, as numpy documents it: closed on the left and open
    on the right, except the last bin, which is closed on both sides. *)
Definition in_bin (bin_edges : list Q) (n b : Z) (x : Q) : bool :=
  Qle_bool (edge bin_edges b) x &&
  (if b =? n - 1 then Qle_bool x (edge bin_edges n)
   else Qlt_bool x (edge bin_edges (b + 1))).

(** The points [np.linspace] computes for 21 edges before it overwrites the
    last one. *)
Definition linspace_step (start stop : Q) (num : Z) : Q :=
  b64 (b64 (stop - start) / inject_Z (num - 1)).
Definition computed_edge (start stop : Q) (i : Z) : Q :=
  b64 (b64 (inject_Z i * linspace_step start stop 21) + start).

(** What a data line of a CSV text says of a row: three fields between
    commas; the first has the shape YYYY-MM-DD and its digits give the
    calendar day of the row, the second is the city as it stands, the third
    is a decimal with exactly one digit after the point whose sign and digits
    give the temperature of the row. The digits are read with [parse_date]
    and [parse_float1], which do not depend on how to_csv writes them. *)
Definition line_holds (line : string) (r : Row) : Prop :=
  exists fd ft,
    split_on comma line = [fd; r_city r; ft] /\
    is_iso_date fd = true /\
    parse_date fd = Some (cell_date (r_date r)) /\
    has_one_fraction_digit ft = true /\
    parse_float1 ft = Some (r_temperature r).

(** The layout of a CSV text holding [frame]: the header line, then one line
    per row, in the order of the frame. *)
Definition csv_layout (frame : list Row) (text : string) : Prop :=
  exists lines,
    split_on newline text = "date,city,temperature" :: lines ++ [EmptyString] /\
    Forall2 line_holds lines frame.

(** A data line that names a city and a day: its second field is the city
    and the digits of its first field give the day. *)
Definition line_names (line : string) (key : string * date) : Prop :=
  exists fd ft,
    split_on comma line = [fd; fst key; ft] /\
    is_iso_date fd = true /\
    parse_date fd = Some (snd key).

(** Every day the loop over [range window] subtracts stays a date. *)
Definition window_in_range (today : date) (window : Z) : Prop :=
  forall i, 0 <= i < window ->
    0 < toordinal today - (window - i) <= _MAXORDINAL.

(** ** Checks used in the proofs *)

(** The month computation, checked on every day of a year. *)
Definition yday_ok (leap : bool) (n : Z) : bool :=
  let '(m, p) := month_of_yday leap n in
  (1 <=? m) && (m <=? 12) &&
  (p =? index _DAYS_BEFORE_MONTH m + b2z ((2 <? m) && leap)) &&
  (p <=? n) &&
  (n <? p + (if (m =? 2) && leap then 29 else index _DAYS_IN_MONTH m)).

(** Every year of the calendar ends by date.max. *)
Definition year_ok (y : Z) : bool :=
  (0 <=? _days_before_year y) &&
  (_days_before_year y + 365 + b2z (_is_leap y) <=? _MAXORDINAL).

(** Objects already on the heap are left as they are. *)
Definition heap_kept {S E} (w w' : World S E) : Prop :=
  forall l fr, w_heap w !! l = Some fr -> w_heap w' !! l = Some fr.

Definition keeps_heap {S E A} (m : M S E A) : Prop :=
  forall w, heap_kept w (snd (m w)).

(** ** The line chart, as the proofs follow it *)

(** The line drawn for one city of a frame. *)
Definition city_line (frame : list Row) (city : string) : Artist :=
  Line2D (map r_date (select_city city frame))
         (map r_temperature (select_city city frame)) city.

(** The heap once the loop over the cities has made one frame per city. *)
Fixpoint heap_after_lines (frame : list Row) (cs : list string)
    (h : gmap loc (list Row)) : gmap loc (list Row) :=
  match cs with
  | [] => h
  | c :: cs' =>
      heap_after_lines frame cs' (<[fresh (dom h) := select_city c frame]> h)
  end.

(** A date that pd.to_datetime can convert. *)
Definition in_timestamp_range (d : date) : Prop :=
  ts_min_ordinal <= toordinal d <= ts_max_ordinal.

(** ** Command lines and storage clients, as the proofs use them *)

(** Two storage clients that do the same to the remote store and to the
    local files, whatever status each reports. *)
Definition same_effects {E} (sh1 sh2 : Shell E) : Prop :=
  forall cmd e fs,
    snd (fst (@os_system_run E sh1 cmd e fs)) =
      snd (fst (@os_system_run E sh2 cmd e fs)) /\
    snd (@os_system_run E sh1 cmd e fs) = snd (@os_system_run E sh2 cmd e fs).

(** The stand-in client with its status replaced by 0. *)
Definition quiet_shell : Shell (gmap string content) :=
  {| os_system_run := fun cmd remote fs =>
       let '(_, remote', fs') := fake_hadoop cmd remote fs in (0, remote', fs') |}.



(** The command line of a transfer, and the function of the program that
    runs it: put is [save_results_to_hdfs], get is [get_results_from_hdfs]. *)
Definition remote_cmd (put : bool) (a b : string) : string :=
  ("hadoop fs " ++ (if put then "-put" else "-get") ++ " -f " ++ a ++ " " ++ b)%string.

Definition remote_call {S E} `{Shell E} (put : bool) (a b : string) : M S E unit :=
  if put then save_results_to_hdfs a b else get_results_from_hdfs a b.

(** * Properties *)

(** ** The calendar *)

(** Looking up the month tables at a known month. *)
Ltac eval_tables :=
  repeat match goal with
  | |- context [index ?l ?k] =>
      let v := eval vm_compute in (index l k) in change (index l k) with v
  | H : context [index ?l ?k] |- _ =>
      let v := eval vm_compute in (index l k) in change (index l k) with v in H
  end.

Lemma yday_ok_all leap n :
  0 <= n < 365 + b2z leap -> yday_ok leap n = true.
Proof.
  intros Hn.
  assert (F : forall k, (k < 365 + (if leap then 1 else 0))%nat ->
              yday_ok leap (Z.of_nat k) = true).
  { intros k Hk.
    assert (G : forallb (yday_ok leap) (map Z.of_nat
                  (seq 0 (365 + (if leap then 1 else 0)))) = true)
      by (destruct leap; vm_compute; reflexivity).
    rewrite forallb_forall in G. apply G.
    apply in_map, in_seq. lia. }
  rewrite <- (Z2Nat.id n) by lia. apply F.
  destruct leap; cbn [b2z] in Hn; lia.
Qed.

Lemma ord2ymd_spec n :
  1 <= n <= _MAXORDINAL ->
  let '(y, m, d) := _ord2ymd n in
  MINYEAR <= y <= MAXYEAR /\ 1 <= m <= 12 /\
  1 <= d <= _days_in_month y m /\ _ymd2ord y m d = n.
Proof.
  intros Hn. unfold _ord2ymd.
  set (a := n - 1).
  set (n400 := a / _DI400Y). set (r400 := a mod _DI400Y).
  set (n100 := r400 / _DI100Y). set (r100 := r400 mod _DI100Y).
  set (n4 := r100 / _DI4Y). set (r4 := r100 mod _DI4Y).
  set (n1 := r4 / 365). set (r1 := r4 mod 365).
  assert (H400 : a = _DI400Y * n400 + r400 /\ 0 <= r400 < _DI400Y)
    by (split; [apply Z.div_mod; discriminate | apply Z.mod_pos_bound; reflexivity]).
  assert (H100 : r400 = _DI100Y * n100 + r100 /\ 0 <= r100 < _DI100Y)
    by (split; [apply Z.div_mod; discriminate | apply Z.mod_pos_bound; reflexivity]).
  assert (H4 : r100 = _DI4Y * n4 + r4 /\ 0 <= r4 < _DI4Y)
    by (split; [apply Z.div_mod; discriminate | apply Z.mod_pos_bound; reflexivity]).
  assert (H1 : r4 = 365 * n1 + r1 /\ 0 <= r1 < 365)
    by (split; [apply Z.div_mod; discriminate | apply Z.mod_pos_bound; reflexivity]).
  unfold _DI400Y, _DI100Y, _DI4Y, _MAXORDINAL in *.
  clearbody n400 r400 n100 r100 n4 r4 n1 r1.
  assert (Hq : 0 <= n400 <= 24 /\ 0 <= n100 <= 4 /\ 0 <= n4 <= 24 /\ 0 <= n1 <= 4)
    by lia.
  destruct ((n1 =? 4) || (n100 =? 4)) eqn:Hend.
  - (* the last day of a leap year *)
    assert (Hr : r1 = 0 /\ (n100 = 4 \/ (n1 = 4 /\ n100 <= 3))) by lia.
    destruct Hr as [-> Hc].
    set (y := n400 * 400 + 1 + (n100 * 100 + n4 * 4 + n1) - 1).
    assert (Hy : y = 400 * n400 + 100 * n100 + 4 * n4 + n1) by (unfold y; lia).
    clearbody y.
    assert (Hl : _is_leap y = true).
    { unfold _is_leap. apply andb_true_iff. split.
      - apply Z.eqb_eq. Z.div_mod_to_equations. lia.
      - apply orb_true_iff. destruct Hc as [Hc | Hc].
        + right. apply Z.eqb_eq. Z.div_mod_to_equations. lia.
        + left. apply negb_true_iff, Z.eqb_neq. Z.div_mod_to_equations. lia. }
    unfold _days_in_month, _ymd2ord, _days_before_month, _days_before_year,
      MINYEAR, MAXYEAR.
    rewrite Hl.
    change (index _DAYS_IN_MONTH 12) with 31.
    change (index _DAYS_BEFORE_MONTH 12) with 334.
    change (12 =? 2) with false. change (2 <? 12) with true.
    cbn [andb b2z].
    repeat split; try lia.
    Z.div_mod_to_equations. lia.
  - apply orb_false_iff in Hend. destruct Hend as [Hn1 Hn100].
    apply Z.eqb_neq in Hn1, Hn100.
    set (y := n400 * 400 + 1 + (n100 * 100 + n4 * 4 + n1)).
    assert (Hy : y = 400 * n400 + 100 * n100 + 4 * n4 + n1 + 1) by (unfold y; lia).
    clearbody y.
    set (leap := (n1 =? 3) && (negb (n4 =? 24) || (n100 =? 3))).
    assert (Hl : _is_leap y = leap).
    { unfold _is_leap, leap.
      destruct (Z.eqb_spec n1 3) as [E1|E1]; cbn [andb].
      - assert (y mod 4 = 0) as -> by (Z.div_mod_to_equations; lia).
        cbn [Z.eqb andb].
        destruct (Z.eqb_spec n4 24) as [E4|E4]; cbn [negb orb].
        + assert (y mod 100 = 0) as -> by (Z.div_mod_to_equations; lia).
          cbn [Z.eqb negb orb].
          destruct (Z.eqb_spec n100 3); apply Z.eqb_eq || apply Z.eqb_neq;
            Z.div_mod_to_equations; lia.
        + assert (y mod 100 <> 0) by (Z.div_mod_to_equations; lia).
          destruct (Z.eqb_spec (y mod 100) 0); [lia | reflexivity].
      - assert (y mod 4 <> 0) by (Z.div_mod_to_equations; lia).
        destruct (Z.eqb_spec (y mod 4) 0); [lia | reflexivity]. }
    assert (Hr : 0 <= r1 < 365 + b2z leap) by (destruct leap; simpl; lia).
    pose proof (yday_ok_all leap r1 Hr) as Hok. unfold yday_ok in Hok.
    destruct (month_of_yday leap r1) as [m p].
    repeat (apply andb_true_iff in Hok; destruct Hok as [Hok ?]).
    unfold _days_in_month, _ymd2ord, _days_before_month, _days_before_year,
      MINYEAR, MAXYEAR.
    rewrite Hl.
    repeat split; try lia.
    Z.div_mod_to_equations. lia.
Qed.

Lemma fromordinal_valid n :
  1 <= n <= _MAXORDINAL -> valid_date (fromordinal n).
Proof.
  intros Hn. pose proof (ord2ymd_spec n Hn) as Hs. unfold fromordinal.
  destruct (_ord2ymd n) as [[y m] d]. unfold valid_date. cbn [year month day].
  tauto.
Qed.

Lemma toordinal_fromordinal n :
  1 <= n <= _MAXORDINAL -> toordinal (fromordinal n) = n.
Proof.
  intros Hn. pose proof (ord2ymd_spec n Hn) as Hs.
  unfold fromordinal, toordinal.
  destruct (_ord2ymd n) as [[y m] d]. cbn [year month day]. tauto.
Qed.

Lemma fromordinal_inj a b :
  1 <= a <= _MAXORDINAL -> 1 <= b <= _MAXORDINAL ->
  fromordinal a = fromordinal b -> a = b.
Proof.
  intros Ha Hb Hab.
  rewrite <- (toordinal_fromordinal a Ha), <- (toordinal_fromordinal b Hb).
  now rewrite Hab.
Qed.

Lemma year_ok_all y : MINYEAR <= y <= MAXYEAR -> year_ok y = true.
Proof.
  intros Hy.
  assert (G : forallb year_ok (map Z.of_nat (seq 1 (Z.to_nat MAXYEAR))) = true)
    by (vm_compute; reflexivity).
  rewrite forallb_forall in G. apply G.
  unfold MINYEAR, MAXYEAR in *.
  rewrite <- (Z2Nat.id y) by lia. apply in_map, in_seq. lia.
Qed.

(** The ordinal of a date object lies between those of date.min and
    date.max. *)
Lemma toordinal_range d :
  valid_date d -> 1 <= toordinal d <= _MAXORDINAL.
Proof.
  destruct d as [y m d]. unfold valid_date, toordinal. cbn [year month day].
  intros (Hy & Hm & Hd).
  pose proof (year_ok_all y Hy) as Hok. unfold year_ok in Hok.
  apply andb_true_iff in Hok. destruct Hok as [H0 H1].
  apply Z.leb_le in H0, H1.
  unfold _ymd2ord, _days_before_month, _days_in_month in *.
  assert (Hc : m = 1 \/ m = 2 \/ m = 3 \/ m = 4 \/ m = 5 \/ m = 6 \/ m = 7 \/
               m = 8 \/ m = 9 \/ m = 10 \/ m = 11 \/ m = 12) by lia.
  destruct (_is_leap y);
    repeat (destruct Hc as [-> | Hc]); try subst m;
    eval_tables; cbn [Z.eqb Z.ltb Z.compare Pos.eqb Pos.compare Pos.compare_cont
                      andb b2z] in *; lia.
Qed.

(** ** Digits and decimal strings *)

Lemma nat_of_digit n : nat_of_ascii (digit n) = (48 + Z.to_nat (n mod 10))%nat.
Proof.
  unfold digit. apply nat_ascii_embedding.
  pose proof (Z.mod_pos_bound n 10 eq_refl). lia.
Qed.

Lemma is_digit_digit n : is_digit (digit n) = true.
Proof.
  unfold is_digit. rewrite nat_of_digit.
  pose proof (Z.mod_pos_bound n 10 eq_refl).
  apply andb_true_iff. split; apply Nat.leb_le; lia.
Qed.

Lemma digit_val_digit n : digit_val (digit n) = n mod 10.
Proof.
  unfold digit_val. rewrite nat_of_digit.
  pose proof (Z.mod_pos_bound n 10 eq_refl). lia.
Qed.

Lemma is_iso_date_isoformat d : is_iso_date (isoformat d) = true.
Proof.
  unfold isoformat, pad4, pad2. cbv [String.append is_iso_date forallb].
  rewrite !is_digit_digit. reflexivity.
Qed.

(** ** Running the generator *)

Section Generator.

Context {S E : Type} `{RandomSource S} `{Shell E}.

Local Abbreviation lo := (-5 # 1)%Q.
Local Abbreviation hi := (35 # 1)%Q.

Lemma rng_after_succ (a b : Q) (s : S) n :
  rng_after a b s (n + 1) = snd (uniform a b (rng_after a b s n)).
Proof.
  revert s. induction n as [|n IH]; intros s; [reflexivity|].
  cbn [Nat.add rng_after]. apply IH.
Qed.

Lemma window_in_range_nonpos today window :
  window <= 0 -> window_in_range today window.
Proof. intros Hw i Hi. lia. Qed.

Lemma window_in_range_pos today window :
  valid_date today -> window < toordinal today ->
  window_in_range today window.
Proof.
  intros Hv Hw i Hi. pose proof (toordinal_range today Hv). lia.
Qed.

(** The loop over the days of one city. *)
Lemma days_loop_run today window city (s0 : S) off m : forall j data (w : World S E),
  ((0 < m)%nat -> Z.of_nat (j + m) <= window) ->
  window_in_range today window ->
  w_rng w = rng_after lo hi s0 (off + j) ->
  for_each (map Z.of_nat (seq j m)) (append_reading today window city) data w
  = (inr (data ++
          map (fun i : nat =>
                 (fromordinal (toordinal today - (window - Z.of_nat i)), city,
                  round1 (draw lo hi s0 (off + i)))) (seq j m)),
     set_rng (rng_after lo hi s0 (off + j + m)) w).
Proof.
  induction m as [|m IH]; intros j data w Hjm Hr Hw.
  - cbn [seq map for_each]. rewrite app_nil_r, Nat.add_0_r, <- Hw.
    destruct w; reflexivity.
  - cbn [seq map for_each].
    unfold mbind at 1, M_bind at 1. unfold append_reading at 1.
    unfold mbind at 1, M_bind at 1.
    unfold lift at 1, date_sub_days.
    pose proof (Hr (Z.of_nat j) ltac:(lia)) as Hj.
    destruct (Z.ltb_spec 0 (toordinal today - (window - Z.of_nat j))); [|lia].
    destruct (Z.leb_spec (toordinal today - (window - Z.of_nat j)) _MAXORDINAL);
      [|lia].
    cbn [andb].
    unfold mbind at 1, M_bind at 1, random_uniform at 1. rewrite Hw.
    destruct (uniform lo hi (rng_after lo hi s0 (off + j))) as [x s1] eqn:Hu.
    unfold mret at 1, M_ret at 1.
    rewrite (IH (Datatypes.S j)); [| lia | assumption | ].
    + f_equal.
      * rewrite <- app_assoc. cbn [app]. do 4 f_equal.
        unfold draw. now rewrite Hu.
      * replace (off + Datatypes.S j + m)%nat with (off + j + Datatypes.S m)%nat by lia.
        reflexivity.
    + cbn [set_rng w_rng].
      replace (off + Datatypes.S j)%nat with (off + j + 1)%nat by lia.
      rewrite rng_after_succ, Hu. reflexivity.
Qed.

(** The loop over the cities. *)
Lemma cities_loop_run today window (s0 : S) cs : forall off data (w : World S E),
  window_in_range today window ->
  w_rng w = rng_after lo hi s0 off ->
  for_each cs
    (fun city data =>
       for_each (range window) (append_reading today window city) data) data w
  = (inr (data ++ readings_from today window s0 off cs),
     set_rng (rng_after lo hi s0 (off + length cs * Z.to_nat window)) w).
Proof.
  induction cs as [|c cs IH]; intros off data w Hr Hw.
  - cbn [for_each readings_from length Nat.mul]. rewrite app_nil_r, Nat.add_0_r, <- Hw.
    destruct w; reflexivity.
  - cbn [for_each readings_from].
    unfold mbind at 1, M_bind at 1. unfold range.
    rewrite (days_loop_run today window c s0 off (Z.to_nat window) 0 data w);
      [| lia | assumption | now rewrite Nat.add_0_r].
    rewrite (IH (off + Z.to_nat window)%nat);
      [| assumption | cbn [set_rng w_rng]; f_equal; lia].
    f_equal.
    + now rewrite <- app_assoc.
    + cbn [length]. unfold set_rng; cbn.
      f_equal. f_equal. lia.
Qed.

(** The whole of [generate]: the rows are the expected readings, held by a
    fresh DataFrame object, and the generator has advanced by one draw per
    reading. *)
Lemma generate_run cs window (w : World S E) :
  window_in_range (w_today w) window ->
  generate cs window w =
  (inr (fresh (dom (w_heap w))),
   set_heap (<[fresh (dom (w_heap w)) :=
                 map row_of_reading
                   (readings_from (w_today w) window (w_rng w) 0 cs)]> (w_heap w))
     (set_rng (rng_after lo hi (w_rng w) (length cs * Z.to_nat window)) w)).
Proof.
  intros Hr. unfold generate.
  unfold mbind at 1, M_bind at 1, date_today at 1.
  unfold mbind at 1, M_bind at 1.
  rewrite (cities_loop_run (w_today w) window (w_rng w) cs 0 [] w Hr eq_refl).
  cbn [app Nat.add].
  reflexivity.
Qed.

Lemma generate_frame cs window (w : World S E) :
  window_in_range (w_today w) window ->
  returned_frame (generate cs window w) =
  Some (map row_of_reading (readings_from (w_today w) window (w_rng w) 0 cs)).
Proof.
  intros Hr. rewrite generate_run by assumption.
  unfold returned_frame. cbn [fst snd set_heap w_heap].
  apply lookup_insert_eq.
Qed.

End Generator.

(** ** Rounding to one decimal *)

Lemma round_half_even_cases (x : Q) :
  let d := Zpos (Qden x) in
  let q := Qnum x / d in
  let r := Qnum x mod d in
  Qnum x = d * q + r /\ 0 <= r < d /\
  ((round_half_even x = q /\ 2 * r <= d) \/
   (round_half_even x = q + 1 /\ d <= 2 * r)).
Proof.
  intros d q r.
  assert (Hd : 0 < d) by (unfold d; lia).
  split; [apply Z.div_mod; lia|].
  split; [apply Z.mod_pos_bound; lia|].
  unfold round_half_even. fold d q r.
  destruct (Z.ltb_spec (2 * r) d); [left; lia|].
  destruct (Z.ltb_spec d (2 * r)); [right; lia|].
  destruct (Z.even q); [left | right]; lia.
Qed.

(** The rounded value, in tenths, is the nearest integer to [10 x]. *)
Lemma f_value_round1 (x : Q) :
  f_value (round1 x) = round_half_even (x * (10 # 1)).
Proof.
  unfold f_value, round1. cbn [f_neg f_tenths].
  destruct (round_half_even_cases (x * (10 # 1))) as (Hdm & Hr & Hk).
  cbn [Qnum Qden Qmult] in *. rewrite Pos.mul_1_r in *.
  set (d := Zpos (Qden x)) in *. set (n := Qnum x) in *.
  assert (Hd : 0 < d) by (unfold d; lia).
  rewrite N2Z.inj_abs_N.
  destruct (Z.ltb_spec n 0) as [Hn | Hn].
  - assert (n * 10 / d < 0) by (apply Z.div_lt_upper_bound; lia).
    destruct Hk as [[-> _] | [-> _]]; lia.
  - assert (0 <= n * 10 / d) by (apply Z.div_pos; lia).
    destruct Hk as [[-> _] | [-> _]]; lia.
Qed.

(** A value within [-5, 35] rounds to a value within [-5.0, 35.0]. *)
Lemma round1_range (x : Q) :
  (-5 # 1 <= x)%Q -> (x <= 35 # 1)%Q ->
  -50 <= f_value (round1 x) <= 350.
Proof.
  unfold Qle. cbn [Qnum Qden]. intros Hlo Hhi.
  rewrite f_value_round1.
  destruct (round_half_even_cases (x * (10 # 1))) as (Hdm & Hr & Hk).
  cbn [Qnum Qden Qmult] in *. rewrite Pos.mul_1_r in *.
  set (d := Zpos (Qden x)) in *. set (n := Qnum x) in *.
  assert (Hd : 0 < d) by (unfold d; lia).
  assert (Hq1 : -50 <= n * 10 / d) by (apply Z.div_le_lower_bound; lia).
  assert (Hq2 : n * 10 / d <= 350) by (apply Z.div_le_upper_bound; lia).
  destruct Hk as [[-> _] | [-> Hh]]; [lia|].
  destruct (Z.eq_dec (n * 10 / d) 350) as [Eq | Ne]; [|lia].
  rewrite Eq in Hdm. lia.
Qed.

(** Rounding moves a value by at most 0.05. *)
Lemma round1_close (x : Q) : (Qabs (f_Q (round1 x) - x) <= 1 # 20)%Q.
Proof.
  unfold f_Q. rewrite f_value_round1.
  destruct (round_half_even_cases (x * (10 # 1))) as (Hdm & Hr & Hk).
  cbn [Qnum Qden Qmult] in *. rewrite Pos.mul_1_r in *.
  set (k := round_half_even (x * (10 # 1))) in *. clearbody k.
  destruct x as [n d]. cbn [Qnum Qden] in *.
  set (q := n * 10 / Zpos d) in *. set (r := (n * 10) mod Zpos d) in *.
  clearbody q r.
  apply Qabs_Qle_condition.
  unfold Qle, Qminus, Qplus, Qopp. cbn [Qnum Qden].
  split; destruct Hk as [[-> Hh] | [-> Hh]]; nia.
Qed.

(** ** The readings the generator produces *)

Lemma NoDup_list_prod {A B} (l : list A) (l' : list B) :
  List.NoDup l -> List.NoDup l' -> List.NoDup (list_prod l l').
Proof.
  intros Hl Hl'. induction Hl as [|a l Ha Hl IH]; cbn [list_prod].
  - constructor.
  - apply List.NoDup_app.
    + apply NoDup_map_NoDup_ForallPairs; [|assumption].
      intros x y _ _ Hxy. congruence.
    + assumption.
    + intros [x y] Hin Hin'. apply in_map_iff in Hin.
      destruct Hin as (y' & Heq & _). inversion Heq; subst.
      apply in_prod_iff in Hin'. tauto.
Qed.

Lemma filter_map_const {A B} (p : B -> bool) (g : A -> B) (b : bool) l :
  (forall x, p (g x) = b) ->
  List.filter p (map g l) = if b then map g l else [].
Proof.
  intros Hp. induction l as [|x l IH]; cbn [map List.filter].
  - now destruct b.
  - rewrite IH, Hp. now destruct b.
Qed.

Lemma length_range n : length (range n) = Z.to_nat n.
Proof. unfold range. now rewrite length_map, length_seq. Qed.

Lemma in_range n i : In i (range n) <-> 0 <= i < n.
Proof.
  unfold range. rewrite in_map_iff. split.
  - intros (k & <- & Hk). apply in_seq in Hk. lia.
  - intros Hi. exists (Z.to_nat i). split; [lia|]. apply in_seq. lia.
Qed.

Lemma NoDup_range n : List.NoDup (range n).
Proof.
  unfold range. apply NoDup_map_NoDup_ForallPairs; [|apply seq_NoDup].
  intros x y _ _. lia.
Qed.

Lemma length_window_dates today window :
  length (window_dates today window) = Z.to_nat window.
Proof. unfold window_dates. now rewrite length_map, length_range. Qed.

(** The window consists of the consecutive days [today - window], ...,
    [today - 1]. *)
Lemma window_dates_ordinals today window :
  window_in_range today window ->
  map toordinal (window_dates today window) =
  map (fun i => toordinal today - window + i) (range window).
Proof.
  intros Hr. unfold window_dates. rewrite map_map. apply map_ext_in.
  intros i Hi. apply in_range in Hi.
  rewrite toordinal_fromordinal; [lia|]. specialize (Hr i Hi). lia.
Qed.

Lemma in_window_dates today window d :
  window_in_range today window ->
  In d (window_dates today window) <->
  exists k, 1 <= k <= window /\ d = fromordinal (toordinal today - k).
Proof.
  intros Hr. unfold window_dates. rewrite in_map_iff. split.
  - intros (i & <- & Hi). apply in_range in Hi. exists (window - i). split; [lia|reflexivity].
  - intros (k & Hk & ->). exists (window - k). split; [f_equal; lia|].
    apply in_range. lia.
Qed.

Lemma NoDup_window_dates today window :
  window_in_range today window -> List.NoDup (window_dates today window).
Proof.
  intros Hr. apply (NoDup_map_inv toordinal).
  rewrite window_dates_ordinals by assumption.
  apply NoDup_map_NoDup_ForallPairs; [|apply NoDup_range].
  intros x y _ _. lia.
Qed.

Section Readings.

Context {S : Type} `{RandomSource S}.

Lemma length_city_readings today window (s : S) off c :
  length (city_readings today window s off c) = Z.to_nat window.
Proof. unfold city_readings. now rewrite length_map, length_seq. Qed.

Lemma length_readings_from today window (s : S) cs : forall off,
  length (readings_from today window s off cs) = (length cs * Z.to_nat window)%nat.
Proof.
  induction cs as [|c cs IH]; intros off; [reflexivity|].
  cbn [readings_from length]. rewrite length_app, length_city_readings, IH. lia.
Qed.

Lemma readings_keys today window (s : S) cs : forall off,
  map row_key (map row_of_reading (readings_from today window s off cs)) =
  list_prod cs (window_dates today window).
Proof.
  induction cs as [|c cs IH]; intros off; [reflexivity|].
  cbn [readings_from list_prod]. rewrite !map_app, IH. f_equal.
  unfold city_readings, window_dates, range. rewrite !map_map. reflexivity.
Qed.

(** Every temperature is a draw from [-5, 35], rounded to one decimal. *)
Lemma readings_temperatures today window (s : S) cs : forall off,
  Forall (fun r : reading =>
            exists k, snd r = round1 (draw (-5 # 1) (35 # 1) s k))
         (readings_from today window s off cs).
Proof.
  induction cs as [|c cs IH]; intros off; cbn [readings_from]; [constructor|].
  apply Forall_app. split; [|apply IH].
  unfold city_readings. apply List.Forall_forall. intros r Hr.
  apply in_map_iff in Hr. destruct Hr as (i & <- & _). now exists (off + i)%nat.
Qed.

Lemma draw_range (a b : Q) (s : S) k :
  (a <= b)%Q -> (a <= draw a b s k)%Q /\ (draw a b s k <= b)%Q.
Proof. intros Hab. unfold draw. now apply uniform_range. Qed.

(** The rows of one city are the window, oldest day first. *)
Lemma select_city_readings today window (s : S) c cs : forall off,
  List.NoDup cs -> In c cs ->
  map (fun r : Row => cell_date (r_date r))
    (select_city c (map row_of_reading (readings_from today window s off cs))) =
  window_dates today window.
Proof.
  assert (Hsame : forall off c',
    List.filter (fun r => String.eqb (r_city r) c)
      (map row_of_reading (city_readings today window s off c')) =
    if String.eqb c' c then map row_of_reading (city_readings today window s off c')
    else []).
  { intros off c'. unfold city_readings. rewrite map_map.
    apply filter_map_const. reflexivity. }
  assert (Hnone : forall cs off, ~ In c cs ->
    select_city c (map row_of_reading (readings_from today window s off cs)) = []).
  { clear cs. induction cs as [|c' cs IH]; intros off Hni; [reflexivity|].
    cbn [readings_from]. unfold select_city in *.
    rewrite map_app, List.filter_app, Hsame, IH by (cbn in Hni; tauto).
    destruct (String.eqb_spec c' c) as [->|]; [|reflexivity].
    cbn in Hni. tauto. }
  induction cs as [|c' cs IH]; intros off Hnd Hin; [destruct Hin|].
  inversion Hnd as [|? ? Hni Hnd']; subst.
  cbn [readings_from]. unfold select_city in *.
  rewrite map_app, List.filter_app, Hsame.
  destruct (String.eqb_spec c' c) as [->|Hne].
  - rewrite Hnone by assumption. rewrite app_nil_r.
    unfold city_readings, window_dates, range. rewrite !map_map. reflexivity.
  - cbn [app]. apply IH; [assumption|]. destruct Hin; [contradiction|assumption].
Qed.

End Readings.

Lemma date_eqb_eq a b : date_eqb a b = true <-> a = b.
Proof.
  destruct a, b. unfold date_eqb. cbn [year month day].
  rewrite !andb_true_iff, !Z.eqb_eq. split; [intros [[-> ->] ->] | intros [= -> -> ->]];
    auto.
Qed.

Lemma In_date_existsb d l : In d l <-> existsb (date_eqb d) l = true.
Proof.
  rewrite existsb_exists. split.
  - intros Hd. exists d. split; [assumption | now apply date_eqb_eq].
  - intros (x & Hx & Heq). apply date_eqb_eq in Heq. now subst.
Qed.

(** ** The synthesizer *)

Section Synthesis.

Context {S E : Type} `{RandomSource S} `{Shell E}.

Lemma readings_from_no_day today window (s : S) cs : forall off,
  window <= 0 -> readings_from today window s off cs = [].
Proof.
  intros off Hw. revert off. induction cs as [|c cs IH]; intros off; [reflexivity|].
  cbn [readings_from]. rewrite IH. unfold city_readings.
  replace (Z.to_nat window) with 0%nat by lia. reflexivity.
Qed.

(** With a city to generate and a window reaching to date.min or before,
    the very first subtraction overflows. *)
Lemma generate_overflow c cs window (w : World S E) :
  valid_date (w_today w) -> toordinal (w_today w) <= window ->
  generate (c :: cs) window w = (inl OverflowError, w).
Proof.
  intros Hv Hw. pose proof (toordinal_range _ Hv) as Ht.
  unfold generate. unfold mbind at 1, M_bind at 1, date_today at 1.
  unfold mbind at 1, M_bind at 1. cbn [for_each].
  unfold mbind at 1, M_bind at 1.
  unfold range. destruct (Z.to_nat window) as [|n] eqn:Hn; [lia|].
  cbn [seq map for_each]. unfold mbind at 1, M_bind at 1.
  unfold append_reading at 1. unfold mbind at 1, M_bind at 1.
  unfold lift at 1, date_sub_days.
  destruct (Z.ltb_spec 0 (toordinal (w_today w) - (window - Z.of_nat 0))); [lia|].
  reflexivity.
Qed.

(** C1. For every list of distinct cities and every window of N > 0 days
    (reaching no further back than date.min), generate returns a frame of
    exactly |C| * N rows whose (city, date) keys are the pairs of a city and a
    day of the window, each once; with the program's six cities and 30 days
    the frame has exactly 180 rows and no two rows share a key. *)
Theorem generate_one_reading_per_city_and_day (w : World S E) :
  valid_date (w_today w) ->
  (forall cs window,
     0 < window < toordinal (w_today w) -> List.NoDup cs ->
     exists frame,
       returned_frame (generate cs window w) = Some frame /\
       length frame = (length cs * Z.to_nat window)%nat /\
       map row_key frame = list_prod cs (window_dates (w_today w) window) /\
       List.NoDup (map row_key frame)) /\
  (30 < toordinal (w_today w) ->
   exists frame,
     returned_frame (generate_weather_data w) = Some frame /\
     length frame = 180%nat /\
     List.NoDup (map row_key frame)).
Proof.
  intros Hv.
  assert (Hgen : forall cs window,
     0 < window < toordinal (w_today w) -> List.NoDup cs ->
     exists frame,
       returned_frame (generate cs window w) = Some frame /\
       length frame = (length cs * Z.to_nat window)%nat /\
       map row_key frame = list_prod cs (window_dates (w_today w) window) /\
       List.NoDup (map row_key frame)).
  { intros cs window Hw Hnd.
    assert (Hr : window_in_range (w_today w) window)
      by (apply window_in_range_pos; [assumption | lia]).
    eexists. split; [apply generate_frame; assumption|].
    rewrite length_map, length_readings_from, readings_keys.
    repeat split.
    apply NoDup_list_prod; [assumption | now apply NoDup_window_dates]. }
  split; [exact Hgen|].
  intros H30. unfold generate_weather_data.
  destruct (Hgen cities 30) as (frame & Hf & Hlen & _ & Hnd).
  - lia.
  - unfold cities. repeat constructor; cbn [In]; intuition discriminate.
  - exists frame. repeat split; assumption.
Qed.

(** C2, amended. For a window of N days the dates generate produces are
    exactly the days of the half-open window [today - N, today): the day
    today - N is among them, today itself is not, and the rows of each city
    are the N consecutive days today - N, ..., today - 1, without gap or
    repetition. *)
Theorem generate_window_ends_before_today cs window (w : World S E) :
  valid_date (w_today w) ->
  0 < window < toordinal (w_today w) ->
  cs <> [] ->
  exists frame,
    returned_frame (generate cs window w) = Some frame /\
    (forall d, In d (frame_dates (generate cs window w)) <->
       exists k, 1 <= k <= window /\ d = fromordinal (toordinal (w_today w) - k)) /\
    In (fromordinal (toordinal (w_today w) - window))
       (frame_dates (generate cs window w)) /\
    ~ In (w_today w) (frame_dates (generate cs window w)) /\
    (List.NoDup cs -> forall c, In c cs ->
       map (fun r => toordinal (cell_date (r_date r))) (select_city c frame) =
       map (fun i => toordinal (w_today w) - window + i) (range window)).
Proof.
  intros Hv Hw Hcs.
  assert (Hr : window_in_range (w_today w) window)
    by (apply window_in_range_pos; [assumption | lia]).
  pose proof (toordinal_range _ Hv) as Ht.
  assert (Hdates : forall d, In d (frame_dates (generate cs window w)) <->
       exists k, 1 <= k <= window /\ d = fromordinal (toordinal (w_today w) - k)).
  { intros d. unfold frame_dates. rewrite generate_frame by assumption.
    rewrite <- (in_window_dates _ _ _ Hr).
    replace (map (fun r : Row => cell_date (r_date r))
               (map row_of_reading (readings_from (w_today w) window (w_rng w) 0 cs)))
      with (map snd (list_prod cs (window_dates (w_today w) window))).
    2:{ rewrite <- (readings_keys (w_today w) window (w_rng w) cs 0), map_map.
        reflexivity. }
    rewrite in_map_iff. split.
    - intros ([c d'] & <- & Hin). apply in_prod_iff in Hin. tauto.
    - intros Hin. destruct cs as [|c cs']; [contradiction|].
      exists (c, d). split; [reflexivity|]. apply in_prod_iff. cbn [In]. tauto. }
  eexists. split; [apply generate_frame; assumption|].
  split; [exact Hdates|]. split; [|split].
  - apply Hdates. exists window. split; [lia | reflexivity].
  - intros Hin. apply Hdates in Hin. destruct Hin as (k & Hk & Heq).
    apply (f_equal toordinal) in Heq.
    rewrite toordinal_fromordinal in Heq; lia.
  - intros Hnd c Hc.
    rewrite <- window_dates_ordinals by assumption.
    rewrite <- (select_city_readings (w_today w) window (w_rng w) c cs 0 Hnd Hc).
    now rewrite map_map.
Qed.

(** C3. Every row generate produces holds a temperature within
    [-5.0, 35.0] that is a draw of the random source rounded to one decimal:
    the nearest multiple of 0.1, at most 0.05 away from the draw. *)
Theorem generate_temperatures_rounded_in_range cs window (w : World S E) :
  valid_date (w_today w) ->
  window < toordinal (w_today w) ->
  exists frame,
    returned_frame (generate cs window w) = Some frame /\
    Forall (fun r : Row =>
              -50 <= f_value (r_temperature r) <= 350 /\
              exists x : Q,
                (-5 # 1 <= x)%Q /\ (x <= 35 # 1)%Q /\
                r_temperature r = round1 x /\
                f_value (r_temperature r) = round_half_even (x * (10 # 1)) /\
                (Qabs (f_Q (r_temperature r) - x) <= 1 # 20)%Q) frame.
Proof.
  intros Hv Hw.
  assert (Hr : window_in_range (w_today w) window).
  { destruct (Z.le_gt_cases window 0).
    - now apply window_in_range_nonpos.
    - now apply window_in_range_pos. }
  eexists. split; [apply generate_frame; assumption|].
  apply List.Forall_map.
  eapply List.Forall_impl; [|apply readings_temperatures].
  intros [[d c] t] (k & Hk). cbn [snd] in Hk. cbn [row_of_reading r_temperature].
  subst t.
  destruct (draw_range (-5 # 1) (35 # 1) (w_rng w) k) as [Hlo Hhi]; [easy|].
  split; [now apply round1_range|].
  exists (draw (-5 # 1) (35 # 1) (w_rng w) k).
  repeat split; try assumption.
  - apply f_value_round1.
  - apply round1_close.
Qed.

End Synthesis.

(** ** Remote synchronisation *)

Section RemoteSync.

Context {S E : Type} `{RandomSource S} `{Shell E}.

(** C4, amended. Neither put (save_results_to_hdfs) nor get
    (get_results_from_hdfs) inspects the exit status of the storage client:
    each prints the command line [hadoop fs -put -f local remote] (or
    [-get -f remote local]), runs it once through the shell and returns None
    whatever the status, also when the client fails or cannot be started. *)
Theorem remote_sync_drops_the_exit_status (a b : string) (w : World S E) :
  let put_cmd := ("hadoop fs -put -f " ++ a ++ " " ++ b)%string in
  let get_cmd := ("hadoop fs -get -f " ++ a ++ " " ++ b)%string in
  let ran cmd :=
    os_system_run cmd (w_ext w) (w_fs w) in
  (fst (save_results_to_hdfs a b w) = inr tt /\
   w_stdout (snd (save_results_to_hdfs a b w)) =
     w_stdout w ++ [("[INFO] Выполняется: " ++ put_cmd)%string] /\
   w_ext (snd (save_results_to_hdfs a b w)) = snd (fst (ran put_cmd)) /\
   w_fs (snd (save_results_to_hdfs a b w)) = snd (ran put_cmd)) /\
  (fst (get_results_from_hdfs a b w) = inr tt /\
   w_stdout (snd (get_results_from_hdfs a b w)) =
     w_stdout w ++ [("[INFO] Выполняется: " ++ get_cmd)%string] /\
   w_ext (snd (get_results_from_hdfs a b w)) = snd (fst (ran get_cmd)) /\
   w_fs (snd (get_results_from_hdfs a b w)) = snd (ran get_cmd)).
Proof.
  intros put_cmd get_cmd ran.
  unfold save_results_to_hdfs, get_results_from_hdfs.
  fold put_cmd get_cmd.
  unfold mbind, M_bind, print, os_system, mret, M_ret.
  cbn [set_stdout w_ext w_fs w_stdout].
  unfold ran.
  destruct (os_system_run put_cmd (w_ext w) (w_fs w)) as [[st1 e1] fs1].
  destruct (os_system_run get_cmd (w_ext w) (w_fs w)) as [[st2 e2] fs2].
  cbn. repeat split.
Qed.

End RemoteSync.

(** ** The renderers and the caller's frame *)

Section Renderers.

Context {S E : Type} `{RandomSource S} `{Shell E}.

Local Abbreviation keeps m := (@keeps_heap S E _ m).

Lemma heap_kept_refl (w : World S E) : heap_kept w w.
Proof. intros l fr Hl. exact Hl. Qed.

Lemma heap_kept_trans (w1 w2 w3 : World S E) :
  heap_kept w1 w2 -> heap_kept w2 w3 -> heap_kept w1 w3.
Proof. intros H12 H23 l fr Hl. apply H23, H12, Hl. Qed.

Lemma keeps_ret {A} (x : A) : keeps (mret x).
Proof. intros w. apply heap_kept_refl. Qed.

Lemma keeps_bind {A B} (m : M S E A) (f : A -> M S E B) :
  keeps m -> (forall x, keeps (f x)) -> keeps (m ≫= f).
Proof.
  intros Hm Hf w. unfold mbind, M_bind. specialize (Hm w).
  destruct (m w) as [[e|x] w1]; cbn [snd] in *; [assumption|].
  eapply heap_kept_trans; [exact Hm | apply Hf].
Qed.

Lemma keeps_same_heap {A} (m : M S E A) :
  (forall w, w_heap (snd (m w)) = w_heap w) -> keeps m.
Proof. intros Hm w l fr Hl. now rewrite Hm. Qed.

Lemma keeps_lift {A} (r : exn + A) : keeps (lift r).
Proof. now apply keeps_same_heap. Qed.

Lemma keeps_print line : keeps (print line).
Proof. now apply keeps_same_heap. Qed.

Lemma keeps_get_frame df : keeps (get_frame df).
Proof.
  apply keeps_same_heap. intros w. unfold get_frame.
  now destruct (w_heap w !! df).
Qed.

Lemma keeps_new_frame frame : keeps (new_frame frame).
Proof.
  intros w l fr Hl. unfold new_frame. cbn [snd set_heap w_heap].
  rewrite lookup_insert_ne; [assumption|].
  intros <-. apply (is_fresh (dom (w_heap w))).
  apply elem_of_dom. now exists fr.
Qed.

Lemma keeps_write_file path c : keeps (write_file path c).
Proof.
  apply keeps_same_heap. intros w. unfold write_file.
  destruct (w_fs w !! path) as [[|?]|]; reflexivity.
Qed.

Lemma keeps_on_gcf f : keeps (on_gcf f).
Proof.
  apply keeps_same_heap. intros w. unfold on_gcf.
  now destruct (w_figs w).
Qed.

Lemma keeps_plt_figure size : keeps (plt_figure size).
Proof. now apply keeps_same_heap. Qed.

Lemma keeps_plt_close : keeps plt_close.
Proof. now apply keeps_same_heap. Qed.

Lemma keeps_plt_savefig path : keeps (plt_savefig path).
Proof.
  intros w. unfold plt_savefig. destruct (w_figs w); apply keeps_write_file.
Qed.

Lemma keeps_plt_plot xs ys label : keeps (plt_plot xs ys label).
Proof. apply keeps_on_gcf. Qed.

Lemma keeps_plt_hist x bins edgecolor : keeps (plt_hist x bins edgecolor).
Proof.
  unfold plt_hist. apply keeps_bind; [apply keeps_lift|].
  intros h. apply keeps_on_gcf.
Qed.

Lemma keeps_for_each {A St} (l : list A) (body : A -> St -> M S E St) :
  (forall x st, keeps (body x st)) ->
  forall st, keeps (for_each l body st).
Proof.
  intros Hb. induction l as [|x l IH]; intros st; cbn [for_each].
  - apply keeps_ret.
  - apply keeps_bind; [apply Hb | exact IH].
Qed.

Create HintDb keeps.

#[local] Hint Resolve keeps_ret keeps_lift keeps_print keeps_get_frame
  keeps_new_frame keeps_write_file keeps_on_gcf keeps_plt_figure
  keeps_plt_close keeps_plt_savefig keeps_plt_plot keeps_plt_hist : keeps.

Ltac solve_keeps :=
  repeat first
    [ apply keeps_bind; [|intros]
    | apply keeps_for_each; intros
    | solve [auto with keeps] ].

Lemma keeps_plot_temperature_distribution df :
  keeps (plot_temperature_distribution df).
Proof. unfold plot_temperature_distribution. solve_keeps. Qed.

Lemma to_datetime_inr col ts :
  to_datetime col = inr ts -> ts = map (fun c => Timestamp (cell_date c)) col.
Proof.
  revert ts. induction col as [|c col IH]; intros ts Hts; cbn [to_datetime] in Hts.
  - now inversion Hts.
  - unfold to_timestamp in Hts.
    destruct ((ts_min_ordinal <=? toordinal (cell_date c)) &&
              (toordinal (cell_date c) <=? ts_max_ordinal)); [|discriminate].
    destruct (to_datetime col) as [e|ts']; [discriminate|].
    inversion Hts. cbn [map]. now rewrite (IH ts' eq_refl).
Qed.

Lemma to_datetime_in_range col :
  Forall (fun c => in_timestamp_range (cell_date c)) col ->
  to_datetime col = inr (map (fun c => Timestamp (cell_date c)) col).
Proof.
  induction 1 as [|c col Hc Hcol IH]; [reflexivity|].
  cbn [to_datetime map]. unfold to_timestamp. destruct Hc as [Hlo Hhi].
  apply Z.leb_le in Hlo, Hhi. rewrite Hlo, Hhi, IH. reflexivity.
Qed.

Lemma assign_date_timestamps frame :
  assign_date frame (map (fun c => Timestamp (cell_date c)) (map r_date frame)) =
  map as_timestamp frame.
Proof.
  induction frame as [|r frame IH]; [reflexivity|].
  cbn [map assign_date]. now rewrite IH.
Qed.

(** C6, amended. The histogram renderer leaves the caller's frame as it
    was. The line-chart renderer does not: whenever the date column converts
    (as it does when every date is within the Timestamp range, and as it has
    whenever the call returns normally), the converted column is assigned to
    the caller's frame and stays there, also when the call fails later on.
    The rows keep their number, order, cities, temperatures and calendar
    days but hold Timestamps instead of date objects; the sort goes to a new
    frame and is not seen by the caller. When the column does not convert
    the call raises and nothing is changed. *)
Theorem renderers_effect_on_the_frame df frame (w : World S E) :
  w_heap w !! df = Some frame ->
  w_heap (snd (plot_temperature_distribution df w)) !! df = Some frame /\
  (forall col, to_datetime (map r_date frame) = inr col ->
     w_heap (snd (plot_temperature_changes df w)) !! df =
       Some (assign_date frame col) /\
     assign_date frame col = map as_timestamp frame) /\
  (Forall (fun r => in_timestamp_range (cell_date (r_date r))) frame ->
     exists col, to_datetime (map r_date frame) = inr col) /\
  (forall u, fst (plot_temperature_changes df w) = inr u ->
     exists col, to_datetime (map r_date frame) = inr col) /\
  (forall e, to_datetime (map r_date frame) = inl e ->
     plot_temperature_changes df w = (inl e, w)) /\
  length (map as_timestamp frame) = length frame /\
  map r_city (map as_timestamp frame) = map r_city frame /\
  map r_temperature (map as_timestamp frame) = map r_temperature frame /\
  map (fun r => cell_date (r_date r)) (map as_timestamp frame) =
    map (fun r => cell_date (r_date r)) frame /\
  map r_date (map as_timestamp frame) =
    map (fun r => Timestamp (cell_date (r_date r))) frame.
Proof.
  intros Hdf. split.
  { now apply keeps_plot_temperature_distribution. }
  assert (Hstart : forall out,
    out = plot_temperature_changes df w ->
    match to_datetime (map r_date frame) with
    | inl e => out = (inl e, w)
    | inr col =>
        w_heap (snd out) !! df = Some (assign_date frame col)
    end).
  { intros out Hout. unfold plot_temperature_changes in Hout.
    unfold mbind at 1, M_bind at 1, get_frame at 1 in Hout. rewrite Hdf in Hout.
    unfold mbind at 1, M_bind at 1, lift at 1 in Hout.
    destruct (to_datetime (map r_date frame)) as [e|col]; [exact Hout|].
    unfold mbind at 1, M_bind at 1, put_frame at 1 in Hout. rewrite Hout.
    match goal with
    | |- w_heap (snd (?m ?w1)) !! _ = _ =>
        assert (K : keeps m) by solve_keeps; apply (K w1)
    end.
    cbn [set_heap w_heap]. apply lookup_insert_eq. }
  specialize (Hstart _ eq_refl).
  split; [|split; [|split; [|split]]].
  - intros col Hconv. rewrite Hconv in Hstart.
    split; [exact Hstart|].
    apply to_datetime_inr in Hconv. subst col. apply assign_date_timestamps.
  - intros Hrange. eexists. apply to_datetime_in_range.
    now apply List.Forall_map.
  - intros u Hu.
    destruct (to_datetime (map r_date frame)) as [e|col]; [|now exists col].
    rewrite Hstart in Hu. discriminate.
  - intros e Hconv. now rewrite Hconv in Hstart.
  - rewrite length_map, !map_map. repeat split.
Qed.

End Renderers.

(** ** Double precision *)

(** *** Rounding half to even *)

Lemma round_half_even_spec (x : Q) :
  (inject_Z (round_half_even x) - (1 # 2) <= x)%Q /\
  (x <= inject_Z (round_half_even x) + (1 # 2))%Q /\
  (x == inject_Z (round_half_even x) + (1 # 2) ->
   Z.even (round_half_even x) = true)%Q /\
  (x == inject_Z (round_half_even x) - (1 # 2) ->
   Z.even (round_half_even x) = true)%Q.
Proof.
  destruct x as [n d]. unfold round_half_even. cbn [Qnum Qden].
  pose proof (Z.div_mod n (Zpos d) ltac:(lia)) as Hdm.
  pose proof (Z.mod_pos_bound n (Zpos d) ltac:(lia)) as Hr.
  set (q := n / Zpos d) in *. set (r := n mod Zpos d) in *.
  clearbody q r.
  unfold Qminus. unfold Qle, Qeq, Qplus, Qopp, inject_Z. cbn [Qnum Qden].
  rewrite ?Pos2Z.inj_mul.
  destruct (Z.ltb_spec (2 * r) (Zpos d)) as [H1|H1];
    [|destruct (Z.ltb_spec (Zpos d) (2 * r)) as [H2|H2];
      [|destruct (Z.even q) eqn:He]].
  - repeat split; try lia.
  - repeat split; try lia.
  - repeat split; try lia. intros _. exact He.
  - repeat split; try lia. intros _.
    rewrite Z.add_1_r, Z.even_succ, <- Z.negb_even, He. reflexivity.
Qed.

Lemma round_half_even_mono (x y : Q) :
  (x <= y)%Q -> round_half_even x <= round_half_even y.
Proof.
  intros Hxy.
  destruct (round_half_even_spec x) as (Hx1 & Hx2 & Hx3 & Hx4).
  destruct (round_half_even_spec y) as (Hy1 & Hy2 & Hy3 & Hy4).
  set (a := round_half_even x) in *. set (b := round_half_even y) in *.
  clearbody a b.
  destruct (Z.le_gt_cases a b) as [|Hgt]; [assumption|exfalso].
  assert (Hab : (inject_Z b + 1 <= inject_Z a)%Q).
  { unfold Qle, Qplus, inject_Z. cbn. lia. }
  assert (Hxe : (x == inject_Z a - (1 # 2))%Q) by lra.
  assert (Hye : (y == inject_Z b + (1 # 2))%Q) by lra.
  assert (Heq : a = b + 1).
  { assert (Hq : (inject_Z a <= inject_Z b + 1)%Q) by lra.
    unfold Qle, Qplus, inject_Z in Hq. cbn in Hq. lia. }
  specialize (Hx4 Hxe). specialize (Hy3 Hye). subst a.
  rewrite Z.add_1_r, Z.even_succ, <- Z.negb_even, Hy3 in Hx4. discriminate.
Qed.

Lemma round_half_even_Z (x : Q) (z : Z) :
  (x == inject_Z z)%Q -> round_half_even x = z.
Proof.
  intros Hx. destruct (round_half_even_spec x) as (H1 & H2 & _).
  set (a := round_half_even x) in *. clearbody a.
  assert (Ha : (inject_Z a - (1 # 2) <= inject_Z z)%Q) by lra.
  assert (Hb : (inject_Z z <= inject_Z a + (1 # 2))%Q) by lra.
  unfold Qminus in Ha. unfold Qle, Qplus, Qopp, inject_Z in Ha, Hb. cbn in Ha, Hb. lia.
Qed.

(** *** Powers of two *)

Lemma pow2_pos e : (0 < 2 ^ e)%Q.
Proof. now apply Qpower_0_lt. Qed.

Lemma pow2_add a b : (2 ^ (a + b) == 2 ^ a * 2 ^ b)%Q.
Proof. apply Qpower_plus. discriminate. Qed.

Lemma pow2_split a b c : a = b + c -> (2 ^ a == 2 ^ b * 2 ^ c)%Q.
Proof. intros ->. apply pow2_add. Qed.

Lemma pow2_le a b : a <= b -> (2 ^ a <= 2 ^ b)%Q.
Proof. intros Hab. apply Qpower_le_compat_l; [assumption | discriminate]. Qed.

Lemma pow2_lt a b : a < b -> (2 ^ a < 2 ^ b)%Q.
Proof. intros Hab. apply Qpower_lt_compat_l; [assumption | reflexivity]. Qed.

Lemma pow2_lt_inv a b : (2 ^ a < 2 ^ b)%Q -> a < b.
Proof. intros Hab. eapply Qpower_lt_compat_l_inv; [eassumption | reflexivity]. Qed.

Lemma pow2_Z n : 0 <= n -> (inject_Z (2 ^ n) == 2 ^ n)%Q.
Proof. intros Hn. now rewrite Zpower_Qpower. Qed.

Lemma binary_exponent_spec q :
  (0 < q)%Q ->
  (2 ^ binary_exponent q <= q)%Q /\ (q < 2 ^ (binary_exponent q + 1))%Q.
Proof.
  intros Hq. destruct q as [n d].
  assert (Hn : 0 < n) by (unfold Qlt in Hq; cbn in Hq; lia).
  unfold binary_exponent. cbn [Qnum Qden].
  destruct (Z.log2_spec n Hn) as [Ha1 Ha2].
  destruct (Z.log2_spec (Zpos d) ltac:(lia)) as [Hb1 Hb2].
  pose proof (Z.log2_nonneg n) as Ha0.
  pose proof (Z.log2_nonneg (Zpos d)) as Hb0.
  set (a := Z.log2 n) in *. set (b := Z.log2 (Zpos d)) in *. clearbody a b.
  assert (Hup : (n # d < 2 ^ (a - b + 1))%Q).
  { apply (Qmult_lt_r _ _ (2 ^ b) (pow2_pos b)).
    rewrite <- pow2_add. replace (a - b + 1 + b) with (Z.succ a) by lia.
    rewrite <- !pow2_Z by lia.
    unfold Qlt, Qmult, inject_Z. cbn [Qnum Qden].
    rewrite Pos2Z.inj_mul. nia. }
  assert (Hdown : (2 ^ (a - b - 1) <= n # d)%Q).
  { apply (Qmult_le_r _ _ (2 ^ Z.succ b) (pow2_pos _)).
    rewrite <- pow2_add. replace (a - b - 1 + Z.succ b) with a by lia.
    rewrite <- !pow2_Z by lia.
    unfold Qle, Qmult, inject_Z. cbn [Qnum Qden].
    rewrite Pos2Z.inj_mul. nia. }
  destruct (Qle_bool (2 ^ (a - b)) (n # d)) eqn:Hle.
  - apply Qle_bool_iff in Hle. split; assumption.
  - split; [exact Hdown|]. replace (a - b - 1 + 1) with (a - b) by lia.
    apply Qnot_le_lt. intros Hc. apply Qle_bool_iff in Hc. congruence.
Qed.

Lemma binary_exponent_unique q e :
  (2 ^ e <= q)%Q -> (q < 2 ^ (e + 1))%Q -> binary_exponent q = e.
Proof.
  intros Hlo Hhi.
  assert (Hq : (0 < q)%Q) by (eapply Qlt_le_trans; [apply pow2_pos | exact Hlo]).
  destruct (binary_exponent_spec q Hq) as [Hlo' Hhi'].
  assert (H1 : binary_exponent q < e + 1).
  { apply pow2_lt_inv. eapply Qle_lt_trans; eassumption. }
  assert (H2 : e < binary_exponent q + 1).
  { apply pow2_lt_inv. eapply Qle_lt_trans; eassumption. }
  lia.
Qed.

Lemma binary_exponent_mono a b :
  (0 < a)%Q -> (a <= b)%Q -> binary_exponent a <= binary_exponent b.
Proof.
  intros Ha Hab.
  assert (Hb : (0 < b)%Q) by (eapply Qlt_le_trans; eassumption).
  destruct (binary_exponent_spec a Ha) as [Hlo _].
  destruct (binary_exponent_spec b Hb) as [_ Hhi].
  assert (binary_exponent a < binary_exponent b + 1); [|lia].
  apply pow2_lt_inv. eapply Qle_lt_trans; [exact Hlo|].
  eapply Qle_lt_trans; eassumption.
Qed.

(** *** Rounding a positive rational *)

Lemma scaled_range q :
  (0 < q)%Q ->
  (2 ^ 52 <= q * 2 ^ (- (binary_exponent q - 52)))%Q /\
  (q * 2 ^ (- (binary_exponent q - 52)) < 2 ^ 53)%Q.
Proof.
  intros Hq. destruct (binary_exponent_spec q Hq) as [Hlo Hhi].
  set (e := binary_exponent q) in *. clearbody e.
  pose proof (pow2_pos (- (e - 52))) as Hp.
  split.
  - rewrite (pow2_split 52 e (- (e - 52))) by lia.
    now apply Qmult_le_r.
  - rewrite (pow2_split 53 (e + 1) (- (e - 52))) by lia.
    now apply Qmult_lt_r.
Qed.

Lemma mantissa_range q :
  (0 < q)%Q ->
  2 ^ 52 <= round_half_even (q * 2 ^ (- (binary_exponent q - 52))) <= 2 ^ 53.
Proof.
  intros Hq. destruct (scaled_range q Hq) as [Hlo Hhi].
  split.
  - rewrite <- (round_half_even_Z (inject_Z (2 ^ 52)) (2 ^ 52) ltac:(reflexivity)).
    apply round_half_even_mono. now rewrite pow2_Z by lia.
  - rewrite <- (round_half_even_Z (inject_Z (2 ^ 53)) (2 ^ 53) ltac:(reflexivity)).
    apply round_half_even_mono. rewrite pow2_Z by lia. now apply Qlt_le_weak.
Qed.

Lemma b64_pos_bounds q :
  (0 < q)%Q ->
  (2 ^ binary_exponent q <= b64_pos q)%Q /\
  (b64_pos q <= 2 ^ (binary_exponent q + 1))%Q.
Proof.
  intros Hq. destruct (mantissa_range q Hq) as [Hlo Hhi].
  unfold b64_pos.
  set (e := binary_exponent q) in *.
  set (m := round_half_even (q * 2 ^ (- (e - 52)))) in *. clearbody m e.
  pose proof (pow2_pos (e - 52)) as Hp.
  split.
  - rewrite (pow2_split e 52 (e - 52)) by lia.
    apply Qmult_le_r; [assumption|]. rewrite <- pow2_Z by lia.
    now rewrite <- Zle_Qle.
  - rewrite (pow2_split (e + 1) 53 (e - 52)) by lia.
    apply Qmult_le_r; [assumption|]. rewrite <- pow2_Z by lia.
    now rewrite <- Zle_Qle.
Qed.

Lemma pow2_half e : (2 ^ e * (1 # 2) == 2 ^ (e - 1))%Q.
Proof.
  rewrite (pow2_split e (e - 1) 1) by lia.
  change (2 ^ 1)%Q with 2%Q. ring.
Qed.

Lemma pow2_cancel e : (2 ^ (- e) * 2 ^ e == 1)%Q.
Proof. now rewrite <- (pow2_split 0 (- e) e) by lia. Qed.

Lemma b64_pos_close q :
  (0 < q)%Q ->
  (q - 2 ^ (binary_exponent q - 53) <= b64_pos q)%Q /\
  (b64_pos q <= q + 2 ^ (binary_exponent q - 53))%Q.
Proof.
  intros Hq. unfold b64_pos.
  set (e := binary_exponent q). clearbody e.
  destruct (round_half_even_spec (q * 2 ^ (- (e - 52)))) as (H1 & H2 & _).
  set (m := round_half_even (q * 2 ^ (- (e - 52)))) in *. clearbody m.
  pose proof (pow2_pos (e - 52)) as Hp.
  pose proof (pow2_cancel (e - 52)) as Hc.
  pose proof (pow2_half (e - 52)) as Hh.
  replace (e - 52 - 1) with (e - 53) in Hh by lia.
  apply (Qmult_le_r _ _ _ Hp) in H1, H2.
  set (P := (2 ^ (e - 52))%Q) in *. set (N := (2 ^ (- (e - 52)))%Q) in *.
  set (R := (2 ^ (e - 53))%Q) in *. clearbody P N R.
  assert (Hq' : (q * N * P == q)%Q) by (rewrite <- Qmult_assoc, Hc; ring).
  split; nra.
Qed.

Lemma b64_pos_mono a b :
  (0 < a)%Q -> (a <= b)%Q -> (b64_pos a <= b64_pos b)%Q.
Proof.
  intros Ha Hab.
  assert (Hb : (0 < b)%Q) by (eapply Qlt_le_trans; eassumption).
  pose proof (binary_exponent_mono a b Ha Hab) as He.
  destruct (Z.eq_dec (binary_exponent a) (binary_exponent b)) as [Heq | Hne].
  - unfold b64_pos. rewrite Heq.
    apply Qmult_le_r; [apply pow2_pos|]. rewrite <- Zle_Qle.
    apply round_half_even_mono. apply Qmult_le_r; [apply pow2_pos | exact Hab].
  - destruct (b64_pos_bounds a Ha) as [_ Hup].
    destruct (b64_pos_bounds b Hb) as [Hlo _].
    eapply Qle_trans; [exact Hup|]. eapply Qle_trans; [|exact Hlo].
    apply pow2_le. lia.
Qed.

Lemma b64_pos_fixed q k v :
  0 < k <= 2 ^ 53 -> (q == inject_Z k * 2 ^ v)%Q -> (b64_pos q == q)%Q.
Proof.
  intros Hk Hq.
  assert (Hpos : (0 < q)%Q).
  { rewrite Hq. apply Qmult_lt_0_compat; [|apply pow2_pos].
    change 0%Q with (inject_Z 0). rewrite <- Zlt_Qlt. lia. }
  destruct (binary_exponent_spec q Hpos) as [Hlo Hhi].
  unfold b64_pos. set (e := binary_exponent q) in *. clearbody e.
  assert (Hle : (q <= 2 ^ (53 + v))%Q).
  { rewrite Hq, (pow2_split (53 + v) 53 v) by lia.
    apply Qmult_le_r; [apply pow2_pos|].
    rewrite <- pow2_Z by lia. rewrite <- Zle_Qle. lia. }
  assert (He : e <= 53 + v).
  { assert (e < 53 + v + 1); [|lia]. apply pow2_lt_inv.
    eapply Qle_lt_trans; [exact Hlo|]. eapply Qle_lt_trans; [exact Hle|].
    apply pow2_lt. lia. }
  destruct (Z.eq_dec e (53 + v)) as [-> | Hne].
  - assert (Heq : (q == 2 ^ (53 + v))%Q) by (apply Qle_antisym; assumption).
    rewrite (round_half_even_Z _ (2 ^ 52)).
    + rewrite pow2_Z by lia. rewrite Heq.
      now rewrite <- (pow2_split (53 + v) 52 (53 + v - 52)) by lia.
    + rewrite pow2_Z by lia. rewrite Heq.
      now rewrite <- (pow2_split 52 (53 + v) (- (53 + v - 52))) by lia.
  - assert (Hd : 0 <= v - (e - 52)) by lia.
    rewrite (round_half_even_Z _ (k * 2 ^ (v - (e - 52)))).
    + rewrite inject_Z_mult, pow2_Z by lia. rewrite Hq, <- Qmult_assoc.
      now rewrite <- (pow2_split v (v - (e - 52)) (e - 52)) by lia.
    + rewrite inject_Z_mult, pow2_Z by lia. rewrite Hq, <- Qmult_assoc.
      now rewrite <- (pow2_split (v - (e - 52)) v (- (e - 52))) by lia.
Qed.

(** *** Rounding to the nearest double *)

Lemma b64_of_pos q : (0 < q)%Q -> (b64 q == b64_pos q)%Q.
Proof.
  intros Hq. unfold b64. rewrite Qred_correct.
  destruct q as [[|n|n] d]; unfold Qlt in Hq; cbn in Hq; try lia. reflexivity.
Qed.

Lemma b64_of_neg q : (q < 0)%Q -> (b64 q == - b64_pos (- q))%Q.
Proof.
  intros Hq. unfold b64. rewrite Qred_correct.
  destruct q as [[|n|n] d]; unfold Qlt in Hq; cbn in Hq; try lia. reflexivity.
Qed.

Lemma b64_of_zero q : (q == 0)%Q -> (b64 q == 0)%Q.
Proof.
  intros Hq. unfold b64. rewrite Qred_correct.
  destruct q as [[|n|n] d]; unfold Qeq in Hq; cbn in Hq; try lia. reflexivity.
Qed.

Lemma b64_pos_positive q : (0 < q)%Q -> (0 < b64_pos q)%Q.
Proof.
  intros Hq. destruct (b64_pos_bounds q Hq) as [Hlo _].
  eapply Qlt_le_trans; [apply pow2_pos | exact Hlo].
Qed.

Lemma Qsign_cases q : (q < 0)%Q \/ (q == 0)%Q \/ (0 < q)%Q.
Proof.
  destruct (Q_dec q 0) as [[Hlt | Hgt] | Heq]; tauto.
Qed.

(** Rounding keeps the order. *)
Lemma b64_mono a b : (a <= b)%Q -> (b64 a <= b64 b)%Q.
Proof.
  intros Hab.
  destruct (Qsign_cases a) as [Ha | [Ha | Ha]];
    destruct (Qsign_cases b) as [Hb | [Hb | Hb]];
    try (exfalso; lra).
  - rewrite (b64_of_neg a Ha), (b64_of_neg b Hb).
    apply Qopp_le_compat. apply b64_pos_mono; lra.
  - rewrite (b64_of_neg a Ha), (b64_of_zero b Hb).
    pose proof (b64_pos_positive (- a) ltac:(lra)). lra.
  - rewrite (b64_of_neg a Ha), (b64_of_pos b Hb).
    pose proof (b64_pos_positive (- a) ltac:(lra)).
    pose proof (b64_pos_positive b Hb). lra.
  - rewrite (b64_of_zero a Ha), (b64_of_zero b Hb). lra.
  - rewrite (b64_of_zero a Ha), (b64_of_pos b Hb).
    pose proof (b64_pos_positive b Hb). lra.
  - rewrite (b64_of_pos a Ha), (b64_of_pos b Hb). now apply b64_pos_mono.
Qed.

#[global] Instance b64_proper : Proper (Qeq ==> Qeq) b64.
Proof.
  intros a b Hab. apply Qle_antisym; apply b64_mono; rewrite Hab; apply Qle_refl.
Qed.

(** A number with a significand of at most 53 bits is a double. *)
Lemma b64_fixed q k v :
  Z.abs k <= 2 ^ 53 -> (q == inject_Z k * 2 ^ v)%Q -> (b64 q == q)%Q.
Proof.
  intros Hk Hq. pose proof (pow2_pos v) as Hp.
  destruct (Z.lt_trichotomy k 0) as [Hneg | [-> | Hpos]].
  - assert (Hq0 : (q < 0)%Q).
    { rewrite Hq. assert (inject_Z k < 0)%Q
        by (change 0%Q with (inject_Z 0); rewrite <- Zlt_Qlt; lia). nra. }
    rewrite (b64_of_neg q Hq0).
    rewrite (b64_pos_fixed (- q) (- k) v); [ring | lia |].
    rewrite Hq, inject_Z_opp. ring.
  - assert (Hq0 : (q == 0)%Q) by (rewrite Hq; ring).
    rewrite (b64_of_zero q Hq0). now rewrite Hq0.
  - assert (Hq0 : (0 < q)%Q).
    { rewrite Hq. assert (0 < inject_Z k)%Q
        by (change 0%Q with (inject_Z 0); rewrite <- Zlt_Qlt; lia). nra. }
    rewrite (b64_of_pos q Hq0). apply (b64_pos_fixed q k v); [lia | exact Hq].
Qed.

Lemma b64_idem q : (b64 (b64 q) == b64 q)%Q.
Proof.
  destruct (Qsign_cases q) as [Hq | [Hq | Hq]].
  - pose proof (mantissa_range (- q) ltac:(lra)) as Hm.
    apply (b64_fixed _
             (- round_half_even (- q * 2 ^ (- (binary_exponent (- q) - 52))))
             (binary_exponent (- q) - 52)); [lia|].
    rewrite (b64_of_neg q Hq). unfold b64_pos. rewrite inject_Z_opp. ring.
  - rewrite (b64_of_zero q Hq). now apply b64_of_zero.
  - pose proof (mantissa_range q Hq) as Hm.
    apply (b64_fixed _
             (round_half_even (q * 2 ^ (- (binary_exponent q - 52))))
             (binary_exponent q - 52)); [lia|].
    now rewrite (b64_of_pos q Hq).
Qed.

(** The relative error of rounding is at most 2^-53. *)
Lemma b64_close q : (Qabs (b64 q - q) <= Qabs q * (1 # 9007199254740992))%Q.
Proof.
  assert (Hpos : forall x, (0 < x)%Q ->
    (x - x * (1 # 9007199254740992) <= b64_pos x)%Q /\ (b64_pos x <= x + x * (1 # 9007199254740992))%Q).
  { intros x Hx. destruct (b64_pos_close x Hx) as [H1 H2].
    destruct (binary_exponent_spec x Hx) as [Hlo _].
    assert (Hr : (2 ^ (binary_exponent x - 53) == 2 ^ binary_exponent x * (1 # 9007199254740992))%Q).
    { rewrite (pow2_split (binary_exponent x - 53) (binary_exponent x) (- 53)) by lia.
      reflexivity. }
    rewrite Hr in H1, H2.
    set (P := (2 ^ binary_exponent x)%Q) in *. clearbody P. split; lra. }
  destruct (Qsign_cases q) as [Hq | [Hq | Hq]].
  - rewrite (b64_of_neg q Hq). destruct (Hpos (- q)%Q ltac:(lra)) as [H1 H2].
    rewrite (Qabs_neg q) by lra. apply Qabs_Qle_condition. split; lra.
  - rewrite (b64_of_zero q Hq), Hq. discriminate.
  - rewrite (b64_of_pos q Hq). destruct (Hpos q Hq) as [H1 H2].
    rewrite (Qabs_pos q) by lra. apply Qabs_Qle_condition. split; lra.
Qed.


(** *** Consequences of the rounding lemmas *)

Lemma b64_0 : (b64 0 == 0)%Q.
Proof. reflexivity. Qed.

Lemma b64_nonneg x : (0 <= x)%Q -> (0 <= b64 x)%Q.
Proof. intros Hx. rewrite <- b64_0. now apply b64_mono. Qed.

Lemma b64_positive x : (0 < x)%Q -> (0 < b64 x)%Q.
Proof. intros Hx. rewrite (b64_of_pos x Hx). now apply b64_pos_positive. Qed.

Lemma b64_near x m :
  (- m <= x)%Q -> (x <= m)%Q ->
  (x - m * (1 # 9007199254740992) <= b64 x)%Q /\
  (b64 x <= x + m * (1 # 9007199254740992))%Q.
Proof.
  intros H1 H2. pose proof (b64_close x) as Hc.
  apply Qabs_Qle_condition in Hc. destruct Hc as [Hc1 Hc2].
  assert (Ha : (Qabs x <= m)%Q) by (apply Qabs_Qle_condition; split; assumption).
  split; lra.
Qed.

Lemma b64_near_nonneg x :
  (0 <= x)%Q ->
  (x - x * (1 # 9007199254740992) <= b64 x)%Q /\
  (b64 x <= x + x * (1 # 9007199254740992))%Q.
Proof. intros Hx. apply b64_near; lra. Qed.

(** Two numbers far enough apart round to different doubles. *)
Lemma b64_strict a b m :
  (- m <= a)%Q -> (b <= m)%Q ->
  (a + m * (1 # 4503599627370496) < b)%Q -> (b64 a < b64 b)%Q.
Proof.
  intros Ha Hb Hab.
  assert (Hm : (0 <= m)%Q).
  { destruct (Qlt_le_dec m 0) as [Hneg|]; [|assumption]. exfalso. lra. }
  destruct (b64_near a m Ha ltac:(lra)) as [_ H1].
  destruct (b64_near b m ltac:(lra) Hb) as [H2 _].
  lra.
Qed.

(** *** The edges of the bins *)

Lemma Qlt_bool_iff x y : Qlt_bool x y = true <-> (x < y)%Q.
Proof.
  unfold Qlt_bool. rewrite negb_true_iff. split.
  - intros Hb. apply Qnot_le_lt. intros Hle. apply Qle_bool_iff in Hle. congruence.
  - intros Hlt. destruct (Qle_bool y x) eqn:Hb; [|reflexivity].
    apply Qle_bool_iff in Hb. exfalso. lra.
Qed.

Lemma Qeq_bool_false x y : ~ (x == y)%Q -> Qeq_bool x y = false.
Proof.
  intros Hne. destruct (Qeq_bool x y) eqn:Hb; [|reflexivity].
  apply Qeq_bool_iff in Hb. contradiction.
Qed.

Lemma Qmult_le_l_weak z x y : (0 <= z)%Q -> (x <= y)%Q -> (z * x <= z * y)%Q.
Proof.
  intros Hz Hxy. rewrite (Qmult_comm z x), (Qmult_comm z y).
  now apply Qmult_le_compat_r.
Qed.

Section Edges.

Variables first_edge last_edge : Q.
Hypothesis first_double : (b64 first_edge == first_edge)%Q.
Hypothesis last_double : (b64 last_edge == last_edge)%Q.
Hypothesis first_bound : (- (137438953472 # 1) <= first_edge)%Q.
Hypothesis last_bound : (last_edge <= 137438953472 # 1)%Q.
Hypothesis wide : (9 # 100 <= last_edge - first_edge)%Q.

Local Abbreviation step := (linspace_step first_edge last_edge 21).
Local Abbreviation computed := (computed_edge first_edge last_edge).
Local Abbreviation width := ((last_edge - first_edge) * (1 # 20))%Q.

Lemma step_near :
  (width - width * (3 # 9007199254740992) <= step)%Q /\
  (step <= width + width * (3 # 9007199254740992))%Q.
Proof.
  unfold linspace_step. change (21 - 1) with 20.
  destruct (b64_near_nonneg (last_edge - first_edge) ltac:(lra)) as [H1 H2].
  set (delta := b64 (last_edge - first_edge)) in *. clearbody delta.
  assert (Hd : (delta / inject_Z 20 == delta * (1 # 20))%Q) by (field; discriminate).
  destruct (b64_near_nonneg (delta / inject_Z 20) ltac:(rewrite Hd; lra)) as [H3 H4].
  set (s := b64 (delta / inject_Z 20)) in *. clearbody s.
  rewrite Hd in H3, H4. split; lra.
Qed.

Lemma step_positive : (0 < step)%Q.
Proof. destruct step_near as [H1 _]. lra. Qed.

(** The multiples of the step, before and after rounding. *)
Lemma multiple_near i :
  0 <= i <= 20 ->
  let e := (inject_Z i * width)%Q in
  let p := b64 (inject_Z i * step) in
  (0 <= e)%Q /\ (e <= 20 * width)%Q /\
  (e - e * (5 # 9007199254740992) <= p)%Q /\
  (p <= e + e * (5 # 9007199254740992))%Q.
Proof.
  intros Hi e p. destruct step_near as [Hs1 Hs2].
  assert (H0 : (0 <= inject_Z i)%Q)
    by (change 0%Q with (inject_Z 0); rewrite <- Zle_Qle; lia).
  assert (H20 : (inject_Z i <= 20)%Q)
    by (change 20%Q with (inject_Z 20); rewrite <- Zle_Qle; lia).
  assert (He0 : (0 <= e)%Q) by (unfold e; nra).
  assert (He1 : (e <= 20 * width)%Q) by (unfold e; nra).
  assert (Ht1 : (e - e * (3 # 9007199254740992) <= inject_Z i * step)%Q).
  { unfold e. apply Qle_trans with
      (inject_Z i * (width - width * (3 # 9007199254740992)))%Q; [lra|].
    apply Qmult_le_l_weak; assumption. }
  assert (Ht2 : (inject_Z i * step <= e + e * (3 # 9007199254740992))%Q).
  { unfold e. apply Qle_trans with
      (inject_Z i * (width + width * (3 # 9007199254740992)))%Q; [|lra].
    apply Qmult_le_l_weak; assumption. }
  destruct (b64_near_nonneg (inject_Z i * step) ltac:(lra)) as [H3 H4].
  fold p in H3, H4.
  set (t := (inject_Z i * step)%Q) in *. clearbody t p e.
  repeat split; lra.
Qed.

Lemma exact_next i :
  (inject_Z (i + 1) * width == inject_Z i * width + width)%Q.
Proof. rewrite inject_Z_plus. ring. Qed.

Lemma computed_first : (computed 0 == first_edge)%Q.
Proof.
  unfold computed_edge.
  assert (H0 : (inject_Z 0 * step == 0)%Q) by ring.
  rewrite H0, b64_0. rewrite Qplus_0_l. exact first_double.
Qed.

(** Each computed edge is within rounding error of its equal-width
    position. *)
Lemma computed_near i :
  0 <= i <= 19 ->
  (Qabs (computed i - (first_edge + inject_Z i * width)) <=
   (Qabs first_edge + Qabs last_edge) * (1 # 1125899906842624))%Q.
Proof.
  intros Hi. unfold computed_edge.
  destruct (multiple_near i ltac:(lia)) as (He0 & _ & Hp1 & Hp2).
  cbn zeta in *.
  assert (H19 : (inject_Z i * width <= 19 * width)%Q).
  { assert (inject_Z i <= 19)%Q
      by (change 19%Q with (inject_Z 19); rewrite <- Zle_Qle; lia).
    apply Qmult_le_compat_r; [assumption | lra]. }
  set (e := (inject_Z i * width)%Q) in *.
  set (p := b64 (inject_Z i * step)) in *. clearbody e p.
  pose proof (Qle_Qabs first_edge) as Ha1.
  pose proof (Qle_Qabs (- first_edge)) as Ha2. rewrite Qabs_opp in Ha2.
  pose proof (Qle_Qabs last_edge) as Hb1.
  pose proof (Qle_Qabs (- last_edge)) as Hb2. rewrite Qabs_opp in Hb2.
  set (A := Qabs first_edge) in *. set (B := Qabs last_edge) in *. clearbody A B.
  destruct (b64_near (p + first_edge) (A + B) ltac:(lra) ltac:(lra)) as [H1 H2].
  apply Qabs_Qle_condition. split; lra.
Qed.

Lemma computed_step i : 0 <= i <= 18 -> (computed i < computed (i + 1))%Q.
Proof.
  intros Hi. unfold computed_edge.
  destruct (multiple_near i ltac:(lia)) as (Ha0 & Ha1 & Ha2 & Ha3).
  destruct (multiple_near (i + 1) ltac:(lia)) as (Hb0 & Hb1 & Hb2 & Hb3).
  cbn zeta in *. rewrite exact_next in Hb0, Hb1, Hb2, Hb3.
  assert (H19 : (inject_Z i * width <= 18 * width)%Q).
  { assert (inject_Z i <= 18)%Q
      by (change 18%Q with (inject_Z 18); rewrite <- Zle_Qle; lia).
    apply Qmult_le_compat_r; [assumption | lra]. }
  set (e := (inject_Z i * width)%Q) in *.
  set (pa := b64 (inject_Z i * step)) in *.
  set (pb := b64 (inject_Z (i + 1) * step)) in *. clearbody e pa pb.
  apply (b64_strict _ _ (137438953472 # 1)); lra.
Qed.

Lemma computed_last : (computed 19 < last_edge)%Q.
Proof.
  unfold computed_edge.
  apply Qlt_le_trans with (b64 last_edge);
    [|rewrite last_double; apply Qle_refl].
  destruct (multiple_near 19 ltac:(lia)) as (Ha0 & Ha1 & Ha2 & Ha3).
  cbn zeta in *.
  assert (H19 : (inject_Z 19 * width == 19 * width)%Q) by reflexivity.
  set (e := (inject_Z 19 * width)%Q) in *.
  set (pa := b64 (inject_Z 19 * step)) in *. clearbody e pa.
  apply (b64_strict _ _ (137438953472 # 1)); lra.
Qed.

Lemma linspace_computed :
  np_linspace first_edge last_edge 21 = map computed (range 20) ++ [last_edge].
Proof.
  unfold np_linspace. change (21 - 1) with 20.
  change (b64 (b64 (last_edge - first_edge) / inject_Z 20))
    with (linspace_step first_edge last_edge 21).
  rewrite Qeq_bool_false.
  - now rewrite map_map.
  - pose proof step_positive. intros Heq. lra.
Qed.

Lemma linspace_increasing :
  increasing (np_linspace first_edge last_edge 21) = true.
Proof.
  rewrite linspace_computed.
  change (range 20) with
    [0; 1; 2; 3; 4; 5; 6; 7; 8; 9; 10; 11; 12; 13; 14; 15; 16; 17; 18; 19].
  cbn [map app increasing].
  rewrite !andb_true_iff.
  repeat split; try reflexivity; apply Qlt_bool_iff;
    first [ exact computed_last
          | match goal with
            | |- (computed_edge _ _ ?i < computed_edge _ _ ?j)%Q =>
                exact (computed_step i ltac:(lia))
            end ].
Qed.

End Edges.


(** *** The first guess of the bin *)

Lemma astype_intp_bounds f n :
  (0 <= f)%Q -> (f <= inject_Z n)%Q -> 0 <= astype_intp f <= n.
Proof.
  destruct f as [a b]. unfold Qle, inject_Z, astype_intp. cbn [Qnum Qden].
  intros H0 Hn. rewrite Z.mul_1_r in H0, Hn.
  split; [apply Z.quot_pos; lia|].
  rewrite Z.quot_div_nonneg by lia. apply Z.div_le_upper_bound; lia.
Qed.


Lemma astype_intp_floor f :
  (0 <= f)%Q ->
  (inject_Z (astype_intp f) <= f)%Q /\ (f < inject_Z (astype_intp f) + 1)%Q.
Proof.
  destruct f as [a b]. unfold Qle, Qlt, Qplus, inject_Z, astype_intp.
  cbn [Qnum Qden]. intros H0. rewrite Z.mul_1_r in H0.
  rewrite Z.quot_div_nonneg by lia.
  pose proof (Z.mul_div_le a (Zpos b) ltac:(lia)).
  pose proof (Z.mul_succ_div_gt a (Zpos b) ltac:(lia)).
  split; nia.
Qed.

Lemma nth_range n k : (k < n)%nat -> nth k (range (Z.of_nat n)) 0 = Z.of_nat k.
Proof.
  intros Hk. unfold range. rewrite Nat2Z.id.
  change 0 with (Z.of_nat 0). rewrite map_nth. now rewrite seq_nth.
Qed.

Section Enclosure.

Variables first_edge last_edge : Q.
Hypothesis first_double : (b64 first_edge == first_edge)%Q.
Hypothesis last_double : (b64 last_edge == last_edge)%Q.
Hypothesis first_bound : (- (137438953472 # 1) <= first_edge)%Q.
Hypothesis last_bound : (last_edge <= 137438953472 # 1)%Q.
Hypothesis wide : (9 # 100 <= last_edge - first_edge)%Q.

Local Abbreviation width := ((last_edge - first_edge) * (1 # 20))%Q.
Local Abbreviation bin_edges := (np_linspace first_edge last_edge 21).
Local Abbreviation exact i := (first_edge + inject_Z i * width)%Q.

Lemma edge_computed i :
  0 <= i <= 19 -> edge bin_edges i = computed_edge first_edge last_edge i.
Proof.
  intros Hi. rewrite linspace_computed by assumption. unfold edge.
  assert (Hk : (Z.to_nat i < 20)%nat) by lia.
  rewrite app_nth1 by (rewrite length_map; unfold range; now rewrite length_map, length_seq).
  rewrite (nth_indep _ 0%Q (computed_edge first_edge last_edge 0))
    by (rewrite length_map; unfold range; now rewrite length_map, length_seq).
  rewrite map_nth. change 20 with (Z.of_nat 20).
  rewrite nth_range by assumption. f_equal. lia.
Qed.

Lemma edge_last : edge bin_edges 20 = last_edge.
Proof. rewrite linspace_computed by assumption. reflexivity. Qed.

Lemma edge_first : (edge bin_edges 0 == first_edge)%Q.
Proof. rewrite edge_computed by lia. now apply computed_first. Qed.

Lemma edge_step i : 0 <= i <= 19 -> (edge bin_edges i < edge bin_edges (i + 1))%Q.
Proof.
  intros Hi. rewrite (edge_computed i) by lia.
  destruct (Z.eq_dec i 19) as [-> | Hne].
  - change (19 + 1) with 20. rewrite edge_last. now apply computed_last.
  - rewrite edge_computed by lia. apply computed_step; try assumption. lia.
Qed.

Lemma edge_near i :
  0 <= i <= 20 ->
  (exact i - (1 # 4096) <= edge bin_edges i)%Q /\
  (edge bin_edges i <= exact i + (1 # 4096))%Q.
Proof.
  intros Hi. destruct (Z.eq_dec i 20) as [-> | Hne].
  - rewrite edge_last. change (inject_Z 20) with 20%Q. split; lra.
  - rewrite edge_computed by lia.
    pose proof (computed_near first_edge last_edge wide i ltac:(lia)) as Hn.
    apply Qabs_Qle_condition in Hn. destruct Hn as [H1 H2].
    assert (HA : (Qabs first_edge <= 137438953472 # 1)%Q)
      by (apply Qabs_Qle_condition; split; lra).
    assert (HB : (Qabs last_edge <= 137438953472 # 1)%Q)
      by (apply Qabs_Qle_condition; split; lra).
    set (A := Qabs first_edge) in *. set (B := Qabs last_edge) in *.
    set (c := computed_edge first_edge last_edge i) in *.
    set (e := (inject_Z i * width)%Q) in *. clearbody A B c e.
    split; lra.
Qed.

(** The first guess of the bin, from the position of [x] in the range. *)
Lemma guess_near x :
  (first_edge <= x)%Q -> (x <= last_edge)%Q ->
  let i := astype_intp
             (b64 (b64 (b64 (x - first_edge) / b64 (last_edge - first_edge)) *
                   inject_Z 20)) in
  0 <= i <= 20 /\
  (exact i - (last_edge - first_edge) * (6 # 9007199254740992) <= x)%Q /\
  (x < exact i + width + (last_edge - first_edge) * (6 # 9007199254740992))%Q.
Proof.
  intros Hlo Hhi.
  pose proof (b64_positive (last_edge - first_edge) ltac:(lra)) as HD.
  destruct (b64_near_nonneg (last_edge - first_edge) ltac:(lra)) as [HD1 HD2].
  pose proof (b64_nonneg (x - first_edge) ltac:(lra)) as Hd0.
  pose proof (b64_mono (x - first_edge) (last_edge - first_edge) ltac:(lra)) as Hd1.
  destruct (b64_near_nonneg (x - first_edge) ltac:(lra)) as [Hd2 Hd3].
  set (D := b64 (last_edge - first_edge)) in *.
  set (d := b64 (x - first_edge)) in *. clearbody D d.
  assert (Hr0 : (0 <= d / D)%Q) by (apply Qle_shift_div_l; lra).
  assert (Hr1 : (d / D <= 1)%Q) by (apply Qle_shift_div_r; lra).
  assert (HrD : (d / D * D == d)%Q) by (field; lra).
  pose proof (b64_nonneg _ Hr0) as Hq0.
  pose proof (b64_mono _ _ Hr1) as Hq1. change (b64 1) with 1%Q in Hq1.
  destruct (b64_near_nonneg _ Hr0) as [Hq2 Hq3].
  set (r := (d / D)%Q) in *. set (q := b64 r) in *. clearbody r q.
  assert (Hg0 : (0 <= q * inject_Z 20)%Q)
    by (change (inject_Z 20) with 20%Q; lra).
  assert (Hg1 : (q * inject_Z 20 <= inject_Z 20)%Q)
    by (change (inject_Z 20) with 20%Q; lra).
  pose proof (b64_nonneg _ Hg0) as Hf0.
  pose proof (b64_mono _ _ Hg1) as Hf1.
  change (b64 (inject_Z 20)) with (inject_Z 20) in Hf1.
  destruct (b64_near_nonneg _ Hg0) as [Hf2 Hf3].
  set (f := b64 (q * inject_Z 20)) in *. clearbody f.
  change (inject_Z 20) with 20%Q in Hf2, Hf3, Hf1.
  pose proof (astype_intp_bounds f 20 Hf0 Hf1) as Hi.
  destruct (astype_intp_floor f Hf0) as [Hi1 Hi2].
  set (i := astype_intp f) in *. clearbody i. cbn zeta.
  split; [exact Hi|].
  assert (Hi0 : (0 <= inject_Z i)%Q)
    by (change 0%Q with (inject_Z 0); rewrite <- Zle_Qle; lia).
  assert (Hi20 : (inject_Z i <= 20)%Q)
    by (change 20%Q with (inject_Z 20); rewrite <- Zle_Qle; lia).
  set (W := (last_edge - first_edge)%Q) in *.
  assert (HW : (0 < W)%Q) by lra.
  (* products with the width of the range *)
  assert (Hz0 : (0 <= r * W)%Q) by (apply Qmult_le_0_compat; lra).
  assert (Hz1 : (r * (W - W * (1 # 9007199254740992)) <= r * D)%Q)
    by (apply Qmult_le_l_weak; lra).
  assert (Hz2 : (r * D <= r * (W + W * (1 # 9007199254740992)))%Q)
    by (apply Qmult_le_l_weak; lra).
  assert (Hy1 : ((r - r * (1 # 9007199254740992)) * W <= q * W)%Q)
    by (apply Qmult_le_compat_r; lra).
  assert (Hy2 : (q * W <= (r + r * (1 # 9007199254740992)) * W)%Q)
    by (apply Qmult_le_compat_r; lra).
  assert (Hv1 : ((q * 20 - q * 20 * (1 # 9007199254740992)) * W <= f * W)%Q)
    by (apply Qmult_le_compat_r; lra).
  assert (Hv2 : (f * W <= (q * 20 + q * 20 * (1 # 9007199254740992)) * W)%Q)
    by (apply Qmult_le_compat_r; lra).
  assert (Hw1 : (inject_Z i * W <= f * W)%Q)
    by (apply Qmult_le_compat_r; lra).
  assert (Hw2 : (f * W <= (inject_Z i + 1) * W)%Q)
    by (apply Qmult_le_compat_r; lra).
  assert (Hw3 : (f * W < (inject_Z i + 1) * W)%Q)
    by (apply Qmult_lt_compat_r; lra).
  assert (Hw4 : (inject_Z i * W <= 20 * W)%Q)
    by (apply Qmult_le_compat_r; lra).
  set (z := (r * W)%Q) in *. set (y := (q * W)%Q) in *.
  set (v := (f * W)%Q) in *. set (k := (inject_Z i * W)%Q) in *.
  assert (Ez1 : (r * (W - W * (1 # 9007199254740992)) ==
                 z - z * (1 # 9007199254740992))%Q) by (unfold z; ring).
  assert (Ez2 : (r * (W + W * (1 # 9007199254740992)) ==
                 z + z * (1 # 9007199254740992))%Q) by (unfold z; ring).
  assert (Ey1 : ((r - r * (1 # 9007199254740992)) * W ==
                 z - z * (1 # 9007199254740992))%Q) by (unfold z; ring).
  assert (Ey2 : ((r + r * (1 # 9007199254740992)) * W ==
                 z + z * (1 # 9007199254740992))%Q) by (unfold z; ring).
  assert (Ev1 : ((q * 20 - q * 20 * (1 # 9007199254740992)) * W ==
                 20 * (y - y * (1 # 9007199254740992)))%Q) by (unfold y; ring).
  assert (Ev2 : ((q * 20 + q * 20 * (1 # 9007199254740992)) * W ==
                 20 * (y + y * (1 # 9007199254740992)))%Q) by (unfold y; ring).
  assert (Ek : ((inject_Z i + 1) * W == k + W)%Q) by (unfold k; ring).
  assert (Ee : (inject_Z i * (W * (1 # 20)) == k * (1 # 20))%Q) by (unfold k; ring).
  rewrite Ez1 in Hz1. rewrite Ez2 in Hz2. rewrite Ey1 in Hy1. rewrite Ey2 in Hy2.
  rewrite Ev1 in Hv1. rewrite Ev2 in Hv2. rewrite Ek in Hw2, Hw3.
  rewrite HrD in Hz1, Hz2. rewrite Ee.
  clearbody z y v k. clear Ez1 Ez2 Ey1 Ey2 Ev1 Ev2 Ek Ee.
  split; lra.
Qed.

Lemma exact_shift i c :
  (inject_Z (i + c) * width == inject_Z i * width + inject_Z c * width)%Q.
Proof. rewrite inject_Z_plus. ring. Qed.

(** The two corrections of the first guess settle on the bin whose edges
    enclose the value. *)
Lemma bin_index_encloses x :
  (first_edge <= x)%Q -> (x <= last_edge)%Q ->
  0 <= bin_index bin_edges first_edge last_edge 20 x <= 19 /\
  in_bin bin_edges 20 (bin_index bin_edges first_edge last_edge 20 x) x = true.
Proof.
  intros Hlo Hhi. destruct (guess_near x Hlo Hhi) as (Hi0 & Hg1 & Hg2).
  unfold bin_index. cbv zeta in *.
  set (i0 := astype_intp _) in *. clearbody i0.
  set (i1 := if i0 =? 20 then i0 - 1 else i0).
  assert (Hi1 : 0 <= i1 <= 19)
    by (unfold i1; destruct (Z.eqb_spec i0 20); lia).
  assert (Hg1' : (exact i1 - (last_edge - first_edge) * (6 # 9007199254740992)
                  <= x)%Q).
  { unfold i1. destruct (Z.eqb_spec i0 20) as [-> | _]; [|exact Hg1].
    change (20 - 1) with (20 + -1). rewrite exact_shift.
    change (inject_Z (-1)) with (-1)%Q.
    set (e := (inject_Z 20 * width)%Q) in *. clearbody e. lra. }
  assert (Hg2' : i1 <= 18 ->
    (x < exact i1 + width + (last_edge - first_edge) * (6 # 9007199254740992))%Q).
  { unfold i1. destruct (Z.eqb_spec i0 20) as [-> | _]; [lia|]. intros _. exact Hg2. }
  clearbody i1. clear Hg1 Hg2 Hi0 i0.
  pose proof edge_first as H0.
  pose proof (edge_step i1 Hi1) as Hstep.
  destruct (edge_near i1 ltac:(lia)) as [Hn1 Hn2].
  unfold in_bin.
  destruct (Qlt_bool x (edge bin_edges i1)) eqn:Hdec.
  - apply Qlt_bool_iff in Hdec.
    assert (Hpos : 1 <= i1).
    { destruct (Z.eq_dec i1 0) as [-> | Hne]; [|lia]. exfalso.
      rewrite H0 in Hdec. lra. }
    assert (Hprev : (edge bin_edges (i1 - 1) <= x)%Q).
    { destruct (edge_near (i1 - 1) ltac:(lia)) as [_ Hp].
      change (i1 - 1) with (i1 + -1) in Hp at 2. rewrite exact_shift in Hp.
      change (inject_Z (-1)) with (-1)%Q in Hp.
      set (e := (inject_Z i1 * width)%Q) in *. clearbody e. lra. }
    replace (i1 - 1 + 1) with i1 by lia.
    assert (Hno : Qle_bool (edge bin_edges i1) x = false).
    { destruct (Qle_bool (edge bin_edges i1) x) eqn:Hb; [|reflexivity].
      apply Qle_bool_iff in Hb. exfalso. lra. }
    rewrite Hno. cbn [andb]. split; [lia|].
    replace (i1 - 1 + 1) with i1 by lia.
    apply Qle_bool_iff in Hprev. rewrite Hprev. cbn [andb].
    destruct (Z.eqb_spec (i1 - 1) (20 - 1)) as [Heq | _]; [lia|].
    now apply Qlt_bool_iff.
  - assert (Hge : (edge bin_edges i1 <= x)%Q).
    { apply Qnot_lt_le. intros Hlt. apply Qlt_bool_iff in Hlt. congruence. }
    destruct (Qle_bool (edge bin_edges (i1 + 1)) x) eqn:Hinc;
      destruct (Z.eqb_spec i1 (20 - 1)) as [H19 | H19]; cbn [andb negb].
    + split; [lia|]. apply Qle_bool_iff in Hge. rewrite Hge. cbn [andb].
      destruct (Z.eqb_spec i1 (20 - 1)) as [_ | Hc]; [|lia].
      rewrite edge_last. now apply Qle_bool_iff.
    + apply Qle_bool_iff in Hinc. split; [lia|].
      apply Qle_bool_iff in Hinc. rewrite Hinc. cbn [andb].
      destruct (Z.eqb_spec (i1 + 1) (20 - 1)) as [Heq | Hne].
      * rewrite edge_last. now apply Qle_bool_iff.
      * apply Qlt_bool_iff.
        destruct (edge_near (i1 + 1 + 1) ltac:(lia)) as [Hp _].
        rewrite !exact_shift in Hp. change (inject_Z 1) with 1%Q in Hp.
        specialize (Hg2' ltac:(lia)).
        set (e := (inject_Z i1 * width)%Q) in *. clearbody e. lra.
    + split; [lia|]. apply Qle_bool_iff in Hge. rewrite Hge. cbn [andb].
      destruct (Z.eqb_spec i1 (20 - 1)) as [_ | Hc]; [|lia].
      rewrite edge_last. now apply Qle_bool_iff.
    + split; [lia|]. apply Qle_bool_iff in Hge. rewrite Hge. cbn [andb].
      destruct (Z.eqb_spec i1 (20 - 1)) as [Hc | _]; [lia|].
      apply Qlt_bool_iff. apply Qnot_le_lt. intros Hle.
      apply Qle_bool_iff in Hle. congruence.
Qed.

Lemma edge_mono i j : 0 <= i -> i <= j -> j <= 20 ->
  (edge bin_edges i <= edge bin_edges j)%Q.
Proof.
  intros Hi Hij Hj.
  replace j with (i + Z.of_nat (Z.to_nat (j - i))) by lia.
  assert (Hn : i + Z.of_nat (Z.to_nat (j - i)) <= 20) by lia.
  induction (Z.to_nat (j - i)) as [|n IH].
  - rewrite Z.add_0_r. apply Qle_refl.
  - eapply Qle_trans; [apply IH; lia|].
    replace (i + Z.of_nat (Datatypes.S n)) with (i + Z.of_nat n + 1) by lia.
    apply Qlt_le_weak, edge_step. lia.
Qed.

Lemma in_bin_unique b b' x :
  0 <= b <= 19 -> 0 <= b' <= 19 ->
  in_bin bin_edges 20 b x = true -> in_bin bin_edges 20 b' x = true -> b = b'.
Proof.
  assert (Hlt : forall c c', 0 <= c <= 19 -> 0 <= c' <= 19 -> c < c' ->
    in_bin bin_edges 20 c x = true -> in_bin bin_edges 20 c' x = true -> False).
  { intros c c' Hc Hc' Hcc H1 H2. unfold in_bin in H1, H2.
    apply andb_true_iff in H1, H2. destruct H1 as [_ H1]. destruct H2 as [H2 _].
    destruct (Z.eqb_spec c (20 - 1)) as [Heq | _]; [lia|].
    apply Qlt_bool_iff in H1. apply Qle_bool_iff in H2.
    pose proof (edge_mono (c + 1) c' ltac:(lia) ltac:(lia) ltac:(lia)). lra. }
  intros Hb Hb' H1 H2.
  destruct (Z.lt_trichotomy b b') as [H | [H | H]]; [exfalso | exact H | exfalso].
  - exact (Hlt b b' Hb Hb' H H1 H2).
  - exact (Hlt b' b Hb' Hb H H2 H1).
Qed.

Lemma bin_index_in_bin b x :
  0 <= b <= 19 -> (first_edge <= x)%Q -> (x <= last_edge)%Q ->
  (bin_index bin_edges first_edge last_edge 20 x =? b) = in_bin bin_edges 20 b x.
Proof.
  intros Hb Hlo Hhi. destruct (bin_index_encloses x Hlo Hhi) as [Hr Hin].
  destruct (Z.eqb_spec (bin_index bin_edges first_edge last_edge 20 x) b)
    as [<- | Hne]; [now symmetry|].
  destruct (in_bin bin_edges 20 b x) eqn:Hb'; [|reflexivity].
  exfalso. apply Hne. eapply in_bin_unique; eassumption.
Qed.

Lemma edge_accurate i :
  0 <= i <= 20 ->
  (Qabs (edge bin_edges i - exact i) <=
   (Qabs first_edge + Qabs last_edge) * (1 # 1125899906842624))%Q.
Proof.
  intros Hi. destruct (Z.eq_dec i 20) as [-> | Hne].
  - rewrite edge_last.
    assert (Hz : (last_edge - exact 20 == 0)%Q)
      by (change (inject_Z 20) with 20%Q; ring).
    rewrite Hz. change (Qabs 0) with 0%Q.
    pose proof (Qabs_nonneg first_edge). pose proof (Qabs_nonneg last_edge). lra.
  - rewrite edge_computed by lia. apply computed_near; [assumption | lia].
Qed.

Lemma linspace_length : length bin_edges = 21%nat.
Proof.
  rewrite linspace_computed by assumption.
  now rewrite length_app, length_map, length_range.
Qed.

End Enclosure.

(** ** The histogram *)

Lemma list_sum_cons x l : list_sum (x :: l) = (x + list_sum l)%nat.
Proof. reflexivity. Qed.

Lemma list_sum_map_add {A} (f g : A -> nat) l :
  list_sum (map (fun b => (f b + g b)%nat) l) =
  (list_sum (map f l) + list_sum (map g l))%nat.
Proof.
  induction l as [|b l IH]; [reflexivity|].
  cbn [map]. rewrite !list_sum_cons, IH. lia.
Qed.

Lemma sum_indicator (k : Z) l :
  List.NoDup l ->
  list_sum (map (fun b => if k =? b then 1%nat else 0%nat) l) =
  if existsb (Z.eqb k) l then 1%nat else 0%nat.
Proof.
  induction 1 as [|b l Hb Hl IH]; [reflexivity|].
  cbn [map existsb]. rewrite list_sum_cons, IH.
  destruct (Z.eqb_spec k b) as [->|]; cbn [orb]; [|reflexivity].
  destruct (existsb (Z.eqb b) l) eqn:Hex; [|reflexivity].
  apply existsb_exists in Hex. destruct Hex as (z & Hz & Heq).
  apply Z.eqb_eq in Heq. subst z. contradiction.
Qed.

(** Counting each value in the bin of its index counts each value once. *)
Lemma sum_counts {A} (idx : A -> Z) n (a : list A) :
  Forall (fun x => 0 <= idx x < n) a ->
  list_sum (map (fun b => length (List.filter (fun x => idx x =? b) a)) (range n))
  = length a.
Proof.
  induction 1 as [|x a Hx Ha IH].
  - cbn [List.filter length]. induction (range n) as [|b l IHl]; [reflexivity|].
    cbn [map]. now rewrite list_sum_cons, IHl.
  - cbn [length]. rewrite <- IH.
    transitivity
      (list_sum (map (fun b : Z => if (idx x =? b)%Z then 1%nat else 0%nat) (range n))
       + list_sum (map (fun b : Z => length (List.filter (fun x : A => (idx x =? b)%Z) a))
                       (range n)))%nat.
    + rewrite <- list_sum_map_add. f_equal. apply map_ext. intros b.
      cbn [List.filter]. destruct (idx x =? b); reflexivity.
    + rewrite sum_indicator by apply NoDup_range.
      replace (existsb (Z.eqb (idx x)) (range n)) with true; [reflexivity|].
      symmetry. apply existsb_exists. exists (idx x). split; [|apply Z.eqb_refl].
      now apply in_range.
Qed.


Lemma filter_all {A} (p : A -> bool) l :
  Forall (fun x => p x = true) l -> List.filter p l = l.
Proof.
  induction 1 as [|x l Hx Hl IH]; [reflexivity|].
  cbn [List.filter]. now rewrite Hx, IH.
Qed.

(** *** The data *)

Lemma tenths_as_product k : (k # 10 == inject_Z k * (1 # 10))%Q.
Proof. unfold Qeq, Qmult, inject_Z. cbn [Qnum Qden]. lia. Qed.

Lemma f_value_moderate t :
  moderate t -> - 1000000000000 < f_value t < 1000000000000.
Proof.
  unfold moderate, f_value. intros Hm. destruct (f_neg t); lia.
Qed.

(** The double of a moderate temperature: a fixed point of the rounding,
    below 1e11 + 1 in magnitude and within 1/80000 of the decimal. *)
Lemma f_double_moderate t :
  moderate t ->
  (b64 (f_double t) == f_double t)%Q /\
  (- (100000000001 # 1) <= f_double t)%Q /\
  (f_double t <= 100000000001 # 1)%Q /\
  (f_Q t - (1 # 80000) <= f_double t)%Q /\
  (f_double t <= f_Q t + (1 # 80000))%Q.
Proof.
  intros Hm. apply f_value_moderate in Hm. unfold f_double, f_Q.
  split; [apply b64_idem|].
  set (k := f_value t) in *. clearbody k.
  assert (H1 : (- (1000000000000 # 1) <= inject_Z k)%Q).
  { change (- (1000000000000 # 1))%Q with (inject_Z (- 1000000000000)).
    rewrite <- Zle_Qle. lia. }
  assert (H2 : (inject_Z k <= 1000000000000 # 1)%Q).
  { change (1000000000000 # 1)%Q with (inject_Z 1000000000000).
    rewrite <- Zle_Qle. lia. }
  pose proof (tenths_as_product k) as Hk.
  destruct (b64_near (k # 10) (100000000000 # 1)) as [H3 H4];
    [rewrite Hk; lra | rewrite Hk; lra |].
  set (d := b64 (k # 10)) in *. clearbody d.
  rewrite Hk in *. repeat split; lra.
Qed.

Lemma f_double_order t1 t2 :
  (f_double t1 < f_double t2)%Q -> f_value t1 < f_value t2.
Proof.
  intros Hlt. destruct (Z.lt_ge_cases (f_value t1) (f_value t2)) as [|Hge];
    [assumption|exfalso].
  assert (Hle : (f_value t2 # 10 <= f_value t1 # 10)%Q)
    by (unfold Qle; cbn [Qnum Qden]; lia).
  apply b64_mono in Hle. unfold f_double in Hlt. lra.
Qed.

Lemma fold_minimum_spec x l :
  In (fold_right np_minimum x l) (x :: l) /\
  Forall (fun y => (fold_right np_minimum x l <= y)%Q) (x :: l).
Proof.
  induction l as [|y l [IH1 IH2]]; cbn [fold_right].
  - split; [now left|]. constructor; [apply Qle_refl | constructor].
  - set (m := fold_right np_minimum x l) in *. clearbody m.
    unfold np_minimum. destruct (Qle_bool y m) eqn:Hb.
    + apply Qle_bool_iff in Hb. split; [right; now left|].
      inversion IH2 as [|? ? Hx Hl]; subst.
      constructor; [lra|]. constructor; [apply Qle_refl|].
      eapply List.Forall_impl; [|exact Hl]. cbn beta. intros z Hz. lra.
    + assert (Hlt : (m < y)%Q).
      { apply Qnot_le_lt. intros Hle. apply Qle_bool_iff in Hle. congruence. }
      split; [destruct IH1 as [<- | Hin]; [now left | right; now right]|].
      inversion IH2 as [|? ? Hx Hl]; subst.
      constructor; [assumption|]. constructor; [lra | assumption].
Qed.

Lemma fold_maximum_spec x l :
  In (fold_right np_maximum x l) (x :: l) /\
  Forall (fun y => (y <= fold_right np_maximum x l)%Q) (x :: l).
Proof.
  induction l as [|y l [IH1 IH2]]; cbn [fold_right].
  - split; [now left|]. constructor; [apply Qle_refl | constructor].
  - set (m := fold_right np_maximum x l) in *. clearbody m.
    unfold np_maximum. destruct (Qle_bool y m) eqn:Hb.
    + apply Qle_bool_iff in Hb.
      split; [destruct IH1 as [<- | Hin]; [now left | right; now right]|].
      inversion IH2 as [|? ? Hx Hl]; subst.
      constructor; [assumption|]. constructor; assumption.
    + assert (Hlt : (m < y)%Q).
      { apply Qnot_le_lt. intros Hle. apply Qle_bool_iff in Hle. congruence. }
      split; [right; now left|].
      inversion IH2 as [|? ? Hx Hl]; subst.
      constructor; [lra|]. constructor; [apply Qle_refl|].
      eapply List.Forall_impl; [|exact Hl]. cbn beta. intros z Hz. lra.
Qed.

(** The least and the greatest value are among the data and bound it. *)
Lemma observed_spec (a : list Q) :
  a <> [] ->
  In (observed_min a) a /\ In (observed_max a) a /\
  Forall (fun x => (observed_min a <= x)%Q /\ (x <= observed_max a)%Q) a.
Proof.
  destruct a as [|x l]; [contradiction|]. intros _.
  destruct (fold_minimum_spec x l) as [Hm1 Hm2].
  destruct (fold_maximum_spec x l) as [HM1 HM2].
  cbn [observed_min observed_max].
  split; [exact Hm1|]. split; [exact HM1|].
  rewrite List.Forall_forall in Hm2, HM2 |- *. intros y Hy.
  split; [now apply Hm2 | now apply HM2].
Qed.

(** The range numpy takes for moderate temperatures: its ends are doubles
    below 2^37 in magnitude, at least 0.09 apart, and hold all the data. *)
Lemma outer_edges_moderate temps :
  Forall moderate temps ->
  let a := map f_double temps in
  let first_edge := fst (outer_edges a) in
  let last_edge := snd (outer_edges a) in
  (b64 first_edge == first_edge)%Q /\ (b64 last_edge == last_edge)%Q /\
  (- (137438953472 # 1) <= first_edge)%Q /\ (last_edge <= 137438953472 # 1)%Q /\
  (9 # 100 <= last_edge - first_edge)%Q /\
  Forall (fun x => (first_edge <= x)%Q /\ (x <= last_edge)%Q) a.
Proof.
  intros Hm a. destruct temps as [|t ts].
  { cbn. repeat split; try reflexivity; try discriminate. constructor. }
  assert (Ha : a <> []) by discriminate.
  destruct (observed_spec a Ha) as (Hin1 & Hin2 & Hall).
  assert (Ho : outer_edges a =
    if Qeq_bool (observed_min a) (observed_max a)
    then (b64 (observed_min a - (1 # 2)), b64 (observed_max a + (1 # 2)))
    else (observed_min a, observed_max a)) by reflexivity.
  cbv zeta. rewrite Ho. clear Ho.
  set (lowest := observed_min a) in *. set (highest := observed_max a) in *.
  apply in_map_iff in Hin1, Hin2.
  destruct Hin1 as (t1 & Ht1 & Hi1). destruct Hin2 as (t2 & Ht2 & Hi2).
  rewrite List.Forall_forall in Hm.
  destruct (f_double_moderate t1 (Hm _ Hi1)) as (Hd1 & Hlo1 & Hhi1 & Hn1 & Hn1').
  destruct (f_double_moderate t2 (Hm _ Hi2)) as (Hd2 & Hlo2 & Hhi2 & Hn2 & Hn2').
  rewrite Ht1 in Hd1, Hlo1, Hhi1, Hn1, Hn1'.
  rewrite Ht2 in Hd2, Hlo2, Hhi2, Hn2, Hn2'.
  assert (Hle : (lowest <= highest)%Q).
  { rewrite List.Forall_forall in Hall.
    assert (Hin : In highest a) by (apply in_map_iff; now exists t2).
    apply (Hall _ Hin). }
  destruct (Qeq_bool lowest highest) eqn:Heq; cbn [fst snd].
  - apply Qeq_bool_iff in Heq.
    destruct (b64_near (lowest - (1 # 2)) (100000000002 # 1)
                ltac:(lra) ltac:(lra)) as [H1 H2].
    destruct (b64_near (highest + (1 # 2)) (100000000002 # 1)
                ltac:(lra) ltac:(lra)) as [H3 H4].
    split; [apply b64_idem|]. split; [apply b64_idem|].
    set (lo := b64 (lowest - (1 # 2))) in *.
    set (hi := b64 (highest + (1 # 2))) in *. clearbody lo hi.
    split; [lra|]. split; [lra|]. split; [lra|].
    eapply List.Forall_impl; [|exact Hall]. cbn beta. intros x [Hx1 Hx2].
    split; lra.
  - assert (Hlt : (lowest < highest)%Q).
    { apply Qle_lteq in Hle. destruct Hle as [|Hc]; [assumption|].
      apply Qeq_bool_iff in Hc. congruence. }
    split; [exact Hd1|]. split; [exact Hd2|].
    split; [lra|]. split; [lra|]. split; [|exact Hall].
    assert (Hk : f_value t1 < f_value t2).
    { apply f_double_order. now rewrite Ht1, Ht2. }
    assert (Hq : (f_Q t1 + (1 # 10) <= f_Q t2)%Q).
    { unfold f_Q, Qle, Qplus. cbn [Qnum Qden]. lia. }
    lra.
Qed.

(** For moderate temperatures numpy.histogram returns, with the edges of
    [np.linspace], the number of values in each bin. *)
Lemma np_histogram_moderate temps :
  Forall moderate temps ->
  let a := map f_double temps in
  let bin_edges := np_linspace (fst (outer_edges a)) (snd (outer_edges a)) 21 in
  let counts :=
    map (fun b => length (List.filter (in_bin bin_edges 20 b) a)) (range 20) in
  np_histogram a 20 = inr (counts, bin_edges) /\
  list_sum counts = length temps /\
  Forall (fun x =>
            exists b, 0 <= b < 20 /\ in_bin bin_edges 20 b x = true /\
              forall b', 0 <= b' < 20 -> in_bin bin_edges 20 b' x = true -> b' = b)
         a.
Proof.
  intros Hm a.
  destruct (outer_edges_moderate temps Hm) as (Hd1 & Hd2 & Hb1 & Hb2 & Hw & Hall).
  fold a in Hd1, Hd2, Hb1, Hb2, Hw, Hall.
  unfold np_histogram.
  destruct (outer_edges a) as [first_edge last_edge]. cbn [fst snd] in *.
  cbv zeta. change (20 + 1) with 21.
  rewrite linspace_increasing by assumption.
  rewrite filter_all
    by (eapply List.Forall_impl; [|exact Hall]; cbn beta; intros x [Hx1 Hx2];
        unfold keep; apply andb_true_iff; split; now apply Qle_bool_iff).
  set (bin_edges := np_linspace first_edge last_edge 21).
  assert (Hcounts :
    map (fun b => length (List.filter
                            (fun x => bin_index bin_edges first_edge last_edge 20 x =? b)
                            a)) (range 20) =
    map (fun b => length (List.filter (in_bin bin_edges 20 b) a)) (range 20)).
  { apply map_ext_in. intros b Hb. apply in_range in Hb. f_equal.
    apply filter_ext_in. intros x Hx.
    rewrite List.Forall_forall in Hall. destruct (Hall x Hx) as [Hx1 Hx2].
    apply bin_index_in_bin; try assumption. lia. }
  split; [now rewrite Hcounts|]. split.
  - rewrite <- Hcounts.
    rewrite (sum_counts (bin_index bin_edges first_edge last_edge 20) 20 a).
    + unfold a. apply length_map.
    + eapply List.Forall_impl; [|exact Hall]. cbn beta. intros x [Hx1 Hx2].
      destruct (bin_index_encloses first_edge last_edge Hd1 Hd2 Hb1 Hb2 Hw x Hx1 Hx2)
        as [Hr _]. fold bin_edges in Hr. lia.
  - eapply List.Forall_impl; [|exact Hall]. cbn beta. intros x [Hx1 Hx2].
    destruct (bin_index_encloses first_edge last_edge Hd1 Hd2 Hb1 Hb2 Hw x Hx1 Hx2)
      as [Hr Hin]. fold bin_edges in Hr, Hin.
    exists (bin_index bin_edges first_edge last_edge 20 x).
    split; [lia|]. split; [exact Hin|]. intros b' Hb' Hin'.
    apply (in_bin_unique first_edge last_edge) with (x := x);
      try assumption; lia.
Qed.

Section Histogram.

Context {S E : Type} `{RandomSource S} `{Shell E}.

(** What [plot_temperature_distribution] leaves in the image file. *)
Lemma plot_temperature_distribution_run df frame counts edges (w : World S E) :
  w_heap w !! df = Some frame ->
  np_histogram (map f_double (map r_temperature frame)) 20 = inr (counts, edges) ->
  w_fs w !! "temperature_distribution.png" <> Some Dir ->
  exists fig,
    fst (plot_temperature_distribution df w) = inr tt /\
    w_fs (snd (plot_temperature_distribution df w)) !!
      "temperature_distribution.png" = Some (File (Image fig)) /\
    fig_artists fig = [BarContainer edges counts "black"].
Proof.
  intros Hdf Hh Hfs.
  unfold plot_temperature_distribution, plt_hist.
  unfold mbind, M_bind, plt_figure, get_frame, lift, on_gcf, plt_savefig,
    plt_close, print, write_file.
  cbn [set_figs w_heap w_figs w_fs]. rewrite Hdf, Hh. cbn [w_figs set_figs w_fs].
  destruct (w_fs w !! "temperature_distribution.png") as [[|c]|] eqn:Hp;
    [contradiction | |];
    (eexists; cbn [fst snd set_fs set_figs set_stdout w_fs];
     split; [reflexivity|]; split; [apply lookup_insert_eq | reflexivity]).
Qed.

(** C5, amended. For every non-empty dataset of moderate temperatures the
    histogram has 20 bins over a range taken from the observed temperatures,
    not from the synthesis range: the range is [min, max] when the
    temperatures differ, and [min - 0.5, max + 0.5] (rounded to doubles) when
    they are all equal. numpy computes the 21 edges in double precision: they
    run from the first end of the range to the last in strictly increasing
    order, each within rounding error of its equal-width position. Every
    value lies in exactly one bin (closed on the left and open on the right,
    the last one closed on both sides), each count is the number of values
    in its bin, and the counts add up to the size of the dataset. *)
Theorem histogram_bins_and_counts df frame (w : World S E) :
  w_heap w !! df = Some frame ->
  frame <> [] ->
  Forall (fun r => moderate (r_temperature r)) frame ->
  w_fs w !! "temperature_distribution.png" <> Some Dir ->
  let a := map f_double (map r_temperature frame) in
  let lowest := observed_min a in
  let highest := observed_max a in
  exists fig counts edges first_edge last_edge,
    fst (plot_temperature_distribution df w) = inr tt /\
    w_fs (snd (plot_temperature_distribution df w)) !!
      "temperature_distribution.png" = Some (File (Image fig)) /\
    fig_artists fig = [BarContainer edges counts "black"] /\
    In lowest a /\ In highest a /\
    Forall (fun x => (lowest <= x)%Q /\ (x <= highest)%Q) a /\
    ((lowest < highest)%Q -> first_edge = lowest /\ last_edge = highest) /\
    ((lowest == highest)%Q ->
     first_edge = b64 (lowest - (1 # 2)) /\
     last_edge = b64 (highest + (1 # 2))) /\
    length edges = 21%nat /\
    (edge edges 0 == first_edge)%Q /\
    edge edges 20 = last_edge /\
    (forall i, 0 <= i < 20 -> (edge edges i < edge edges (i + 1))%Q) /\
    (forall i, 0 <= i <= 20 ->
       (Qabs (edge edges i -
              (first_edge + inject_Z i * ((last_edge - first_edge) * (1 # 20)))) <=
        (Qabs first_edge + Qabs last_edge) * (1 # 1125899906842624))%Q) /\
    length counts = 20%nat /\
    counts =
      map (fun b => length (List.filter (in_bin edges 20 b) a)) (range 20) /\
    Forall (fun x =>
              exists b, 0 <= b < 20 /\ in_bin edges 20 b x = true /\
                forall b', 0 <= b' < 20 -> in_bin edges 20 b' x = true -> b' = b)
           a /\
    list_sum counts = length frame.
Proof.
  intros Hdf Hne Hm Hfs a lowest highest.
  assert (Hm' : Forall moderate (map r_temperature frame))
    by now apply List.Forall_map.
  destruct (np_histogram_moderate _ Hm') as (Hh & Hsum & Hone).
  destruct (outer_edges_moderate _ Hm') as (Hd1 & Hd2 & Hb1 & Hb2 & Hw & Hall).
  fold a in Hh, Hsum, Hone, Hd1, Hd2, Hb1, Hb2, Hw, Hall.
  cbv zeta in Hh, Hsum, Hone, Hd1, Hd2, Hb1, Hb2, Hw, Hall.
  destruct (plot_temperature_distribution_run df frame _ _ w Hdf Hh Hfs)
    as (fig & Hret & Hfile & Hart).
  assert (Ha : a <> []) by (unfold a; destruct frame; [contradiction | discriminate]).
  destruct (observed_spec a Ha) as (Hin1 & Hin2 & Hobs).
  fold lowest highest in Hin1, Hin2, Hobs.
  assert (Hrange :
    ((lowest < highest)%Q -> outer_edges a = (lowest, highest)) /\
    ((lowest == highest)%Q ->
     outer_edges a = (b64 (lowest - (1 # 2)), b64 (highest + (1 # 2))))).
  { unfold outer_edges. destruct a as [|x l]; [contradiction|].
    fold lowest highest. split; intros Hc.
    - rewrite Qeq_bool_false; [reflexivity|]. intros Heq. lra.
    - apply Qeq_bool_iff in Hc. now rewrite Hc. }
  destruct Hrange as [Hdiff Hsame].
  destruct (outer_edges a) as [first_edge last_edge]. cbn [fst snd] in *.
  eexists fig, _, _, first_edge, last_edge.
  split; [exact Hret|]. split; [exact Hfile|]. split; [exact Hart|].
  split; [exact Hin1|]. split; [exact Hin2|]. split; [exact Hobs|].
  split; [intros Hc; specialize (Hdiff Hc); now inversion Hdiff|].
  split; [intros Hc; specialize (Hsame Hc); now inversion Hsame|].
  split; [now apply linspace_length|].
  split; [now apply edge_first|].
  split; [now apply edge_last|].
  split; [intros i Hi; apply edge_step; try assumption; lia|].
  split; [intros i Hi; now apply edge_accurate|].
  split; [now rewrite length_map, length_range|].
  split; [reflexivity|]. split; [exact Hone|].
  rewrite Hsum. apply length_map.
Qed.

End Histogram.

(** ** Strings: membership, splitting, digits *)

Lemma append_cons a s t : (String a s ++ t)%string = String a (s ++ t)%string.
Proof. reflexivity. Qed.

Lemma append_nil t : (EmptyString ++ t)%string = t.
Proof. reflexivity. Qed.

Lemma contains_app c s1 s2 :
  contains c (s1 ++ s2)%string = contains c s1 || contains c s2.
Proof.
  induction s1 as [|a s1 IH]; [reflexivity|].
  rewrite append_cons. cbn [contains]. rewrite IH. apply orb_assoc.
Qed.

Lemma split_on_never_nil sep s : split_on sep s <> [].
Proof.
  destruct s as [|a s]; cbn [split_on]; [discriminate|].
  destruct (Ascii.eqb a sep); [discriminate|].
  destruct (split_on sep s); discriminate.
Qed.

Lemma split_on_app sep s1 s2 :
  contains sep s1 = false ->
  split_on sep (s1 ++ String sep s2)%string = s1 :: split_on sep s2.
Proof.
  induction s1 as [|a s1 IH]; intros Hc.
  - rewrite append_nil. cbn [split_on]. now rewrite Ascii.eqb_refl.
  - cbn [contains] in Hc. apply orb_false_iff in Hc. destruct Hc as [Ha Hc].
    rewrite append_cons. cbn [split_on]. rewrite Ha, (IH Hc). reflexivity.
Qed.

Lemma split_on_none sep s :
  contains sep s = false -> split_on sep s = [s].
Proof.
  induction s as [|a s IH]; intros Hc; [reflexivity|].
  cbn [contains] in Hc. apply orb_false_iff in Hc. destruct Hc as [Ha Hc].
  cbn [split_on]. now rewrite Ha, (IH Hc).
Qed.

Lemma eqb_digit_other a c :
  is_digit a = true -> is_digit c = false -> Ascii.eqb a c = false.
Proof.
  intros Ha Hc. destruct (Ascii.eqb_spec a c) as [->|]; [congruence | reflexivity].
Qed.

Lemma contains_digits c s :
  all_digits s = true -> is_digit c = false -> contains c s = false.
Proof.
  intros Hs Hc. induction s as [|a s IH]; [reflexivity|].
  cbn [all_digits] in Hs. apply andb_true_iff in Hs. destruct Hs as [Ha Hs].
  cbn [contains]. now rewrite (eqb_digit_other a c Ha Hc), (IH Hs).
Qed.

Lemma all_digits_uint u : all_digits (NilEmpty.string_of_uint u) = true.
Proof. induction u; cbn [NilEmpty.string_of_uint all_digits]; auto. Qed.

Lemma all_digits_N n : all_digits (NilZero.string_of_uint (N.to_uint n)) = true.
Proof.
  unfold NilZero.string_of_uint.
  destruct (N.to_uint n) eqn:Hu; try (rewrite <- Hu; apply all_digits_uint).
  reflexivity.
Qed.

Lemma N_to_uint_nonnil n : N.to_uint n <> Decimal.Nil.
Proof.
  destruct n as [|p]; cbn [N.to_uint]; [discriminate|].
  apply DecimalPos.Unsigned.to_uint_nonnil.
Qed.

Lemma string_of_N_nonempty n : NilZero.string_of_uint (N.to_uint n) <> EmptyString.
Proof.
  unfold NilZero.string_of_uint.
  destruct (N.to_uint n); discriminate.
Qed.

Lemma contains_isoformat c d :
  is_digit c = false -> c <> "-"%char -> contains c (isoformat d) = false.
Proof.
  intros Hc Hh. unfold isoformat, pad4, pad2.
  cbv [String.append contains].
  rewrite !(eqb_digit_other _ c (is_digit_digit _) Hc).
  destruct (Ascii.eqb_spec "-"%char c) as [Heq|]; [congruence | reflexivity].
Qed.

Lemma contains_float_repr c t :
  is_digit c = false -> c <> "-"%char -> c <> "."%char ->
  contains c (float_repr t) = false.
Proof.
  intros Hc Hh Hp. unfold float_repr. rewrite !contains_app.
  rewrite (contains_digits c _ (all_digits_N _) Hc).
  assert (Hs : contains c (if f_neg t then "-" else EmptyString) = false).
  { destruct (f_neg t); cbn [contains]; [|reflexivity].
    destruct (Ascii.eqb_spec "-"%char c); [congruence | reflexivity]. }
  rewrite Hs. cbn [contains].
  rewrite (eqb_digit_other _ c (is_digit_digit _) Hc).
  destruct (Ascii.eqb_spec "."%char c); [congruence | reflexivity].
Qed.

Lemma is_decimal1_cons a x y z t :
  is_decimal1 (String a (String x (String y (String z t)))) =
  is_digit a && is_decimal1 (String x (String y (String z t))).
Proof. reflexivity. Qed.

Lemma is_decimal1_digits_cons s : forall a d,
  is_digit a = true -> all_digits s = true -> is_digit d = true ->
  is_decimal1 (String a (s ++ "." ++ String d EmptyString))%string = true.
Proof.
  induction s as [|b s IH]; intros a d Ha Hs Hd.
  - cbv [String.append is_decimal1]. now rewrite Ha, Hd.
  - cbn [all_digits] in Hs. apply andb_true_iff in Hs. destruct Hs as [Hb Hs].
    specialize (IH b d Hb Hs Hd). rewrite append_cons.
    destruct s as [|c s].
    + rewrite append_nil in *. rewrite append_cons, append_nil in *.
      rewrite is_decimal1_cons. now rewrite Ha, IH.
    + rewrite append_cons in *.
      destruct s as [|e s].
      * rewrite append_nil in *. rewrite append_cons, append_nil in *.
        rewrite is_decimal1_cons. now rewrite Ha, IH.
      * rewrite append_cons in *. rewrite is_decimal1_cons. now rewrite Ha, IH.
Qed.

Lemma is_decimal1_digits s d :
  all_digits s = true -> s <> EmptyString -> is_digit d = true ->
  is_decimal1 (s ++ "." ++ String d EmptyString)%string = true.
Proof.
  intros Hs Hne Hd. destruct s as [|a s]; [contradiction|].
  cbn [all_digits] in Hs. apply andb_true_iff in Hs. destruct Hs as [Ha Hs].
  rewrite append_cons. now apply is_decimal1_digits_cons.
Qed.

(** The temperature field always has exactly one digit after the point. *)
Lemma has_one_fraction_digit_repr t : has_one_fraction_digit (float_repr t) = true.
Proof.
  unfold float_repr.
  pose proof (is_decimal1_digits _ (digit (Z.of_N (f_tenths t)))
                (all_digits_N (f_tenths t / 10)) (string_of_N_nonempty _)
                (is_digit_digit _)) as Hd.
  destruct (f_neg t).
  - rewrite append_cons, append_nil. exact Hd.
  - rewrite append_nil. unfold has_one_fraction_digit.
    destruct (NilZero.string_of_uint (N.to_uint (f_tenths t / 10))) as [|a s] eqn:Hs.
    + exact Hd.
    + rewrite append_cons in *.
      destruct (Ascii.eqb_spec a "-") as [->|Ha].
      * pose proof (all_digits_N (f_tenths t / 10)) as Hall. rewrite Hs in Hall.
        cbn in Hall. discriminate.
      * destruct a as [[] [] [] [] [] [] [] []]; try exact Hd. contradiction.
Qed.

(** ** The CSV text *)

Lemma needs_quote_false c :
  needs_quote c = false ->
  contains comma c = false /\ contains newline c = false.
Proof.
  unfold needs_quote. intros Hq.
  repeat (apply orb_false_iff in Hq; destruct Hq as [Hq ?]). tauto.
Qed.

Lemma csv_row_plain r :
  plain_row r ->
  csv_row r = (isoformat (cell_date (r_date r)) ++ String comma
                 (r_city r ++ String comma (float_repr (r_temperature r))))%string.
Proof.
  intros [_ Hq]. unfold csv_row, csv_field, date_str. rewrite Hq. reflexivity.
Qed.

Lemma csv_row_fields r :
  plain_row r ->
  split_on comma (csv_row r) =
  [isoformat (cell_date (r_date r)); r_city r; float_repr (r_temperature r)].
Proof.
  intros Hp. rewrite (csv_row_plain r Hp). destruct Hp as [_ Hq].
  apply needs_quote_false in Hq. destruct Hq as [Hc _].
  rewrite split_on_app by (apply contains_isoformat; [reflexivity | discriminate]).
  rewrite split_on_app by assumption.
  rewrite split_on_none
    by (apply contains_float_repr; [reflexivity | discriminate | discriminate]).
  reflexivity.
Qed.

Lemma csv_row_one_line r :
  plain_row r -> contains newline (csv_row r) = false.
Proof.
  intros Hp. rewrite (csv_row_plain r Hp). destruct Hp as [_ Hq].
  apply needs_quote_false in Hq. destruct Hq as [_ Hn].
  rewrite contains_app. cbn [contains]. rewrite contains_app. cbn [contains].
  rewrite Hn.
  rewrite contains_isoformat by (reflexivity || discriminate).
  rewrite contains_float_repr by (reflexivity || discriminate).
  reflexivity.
Qed.

Lemma split_join_lines ls :
  Forall (fun l => contains newline l = false) ls ->
  split_on newline (join_lines ls) = ls ++ [EmptyString].
Proof.
  induction 1 as [|l ls Hl Hls IH]; [reflexivity|].
  cbn [join_lines app]. unfold nl. rewrite append_cons, append_nil.
  now rewrite split_on_app, IH.
Qed.

Lemma csv_text_lines frame :
  Forall plain_row frame ->
  split_on newline (csv_text frame) = csv_header :: map csv_row frame ++ [EmptyString].
Proof.
  intros Hp. unfold csv_text. rewrite split_join_lines; [reflexivity|].
  constructor; [reflexivity|]. apply List.Forall_map.
  eapply List.Forall_impl; [|exact Hp]. apply csv_row_one_line.
Qed.

(** ** Reading the CSV text back *)

Lemma days_in_month_le_31 y m : 1 <= m <= 12 -> _days_in_month y m <= 31.
Proof.
  intros Hm. unfold _days_in_month.
  assert (Hc : m = 1 \/ m = 2 \/ m = 3 \/ m = 4 \/ m = 5 \/ m = 6 \/ m = 7 \/
               m = 8 \/ m = 9 \/ m = 10 \/ m = 11 \/ m = 12) by lia.
  destruct (_is_leap y);
    repeat (destruct Hc as [-> | Hc]); try subst m; vm_compute; discriminate.
Qed.

Lemma parse_date_isoformat d : valid_date d -> parse_date (isoformat d) = Some d.
Proof.
  intros (Hy & Hm & Hd). pose proof (days_in_month_le_31 (year d) (month d) Hm) as H31.
  pose proof (is_iso_date_isoformat d) as Hiso.
  destruct d as [y m dd]. cbn [year month day] in *.
  unfold MINYEAR, MAXYEAR in Hy.
  unfold isoformat, pad4, pad2 in *. cbn [year month day] in *.
  cbv [String.append] in *. unfold parse_date. rewrite Hiso.
  rewrite !digit_val_digit. f_equal. f_equal; Z.div_mod_to_equations; lia.
Qed.

Lemma parse_unsigned1_repr neg k :
  parse_unsigned1 neg
    (NilZero.string_of_uint (N.to_uint (k / 10)) ++ "." ++
     String (digit (Z.of_N k)) EmptyString)%string = Some (mk_float1 neg k).
Proof.
  unfold parse_unsigned1.
  change ("." ++ String (digit (Z.of_N k)) EmptyString)%string
    with (String "."%char (String (digit (Z.of_N k)) EmptyString)).
  rewrite split_on_app
    by (apply contains_digits; [apply all_digits_N | reflexivity]).
  rewrite split_on_none.
  2:{ cbn [contains]. rewrite (eqb_digit_other _ "."%char (is_digit_digit _) eq_refl).
      reflexivity. }
  rewrite is_digit_digit.
  rewrite NilZero.usu by apply N_to_uint_nonnil.
  rewrite DecimalN.Unsigned.of_to, digit_val_digit. do 2 f_equal.
  change 10 with (Z.of_N 10). rewrite <- N2Z.inj_mod, N2Z.id.
  symmetry. apply N.div_mod. discriminate.
Qed.

Lemma parse_float1_repr t : parse_float1 (float_repr t) = Some t.
Proof.
  destruct t as [neg k]. unfold float_repr. cbn [f_neg f_tenths].
  destruct neg.
  - rewrite append_cons, append_nil. cbn [parse_float1]. apply parse_unsigned1_repr.
  - rewrite append_nil. pose proof (parse_unsigned1_repr false k) as Hp.
    pose proof (all_digits_N (k / 10)) as Hall.
    destruct (NilZero.string_of_uint (N.to_uint (k / 10))) as [|a s]; [exact Hp|].
    rewrite append_cons in *. unfold parse_float1.
    cbn [all_digits] in Hall. apply andb_true_iff in Hall. destruct Hall as [Ha _].
    destruct a as [[] [] [] [] [] [] [] []]; try exact Hp.
    vm_compute in Ha. discriminate.
Qed.

Lemma parse_row_csv_row r :
  plain_row r -> parse_row (csv_row r) = Some (tuple_of_row r).
Proof.
  intros Hp. unfold parse_row. rewrite (csv_row_fields r Hp).
  rewrite parse_date_isoformat by apply Hp.
  now rewrite parse_float1_repr.
Qed.

Lemma parse_rows_lines frame :
  Forall plain_row frame ->
  parse_rows (map csv_row frame ++ [EmptyString]) = Some (map tuple_of_row frame).
Proof.
  induction 1 as [|r frame Hr Hf IH]; [reflexivity|].
  cbn [map app]. cbn [parse_rows].
  destruct (map csv_row frame ++ [EmptyString]) as [|l ls] eqn:Hl.
  - destruct (map csv_row frame); discriminate.
  - rewrite (parse_row_csv_row r Hr), IH. reflexivity.
Qed.

(** Parsing what to_csv writes gives back the tuples of the frame, in
    order. *)
Lemma parse_csv_text frame :
  Forall plain_row frame ->
  parse_csv (csv_text frame) = Some (map tuple_of_row frame).
Proof.
  intros Hp. unfold parse_csv. rewrite (csv_text_lines frame Hp).
  rewrite String.eqb_refl. now apply parse_rows_lines.
Qed.

(** ** Persisting the generated data *)

Lemma csv_row_holds r : plain_row r -> line_holds (csv_row r) r.
Proof.
  intros Hr. exists (isoformat (cell_date (r_date r))),
    (float_repr (r_temperature r)).
  split; [now apply csv_row_fields|].
  split; [apply is_iso_date_isoformat|].
  split; [apply parse_date_isoformat, Hr|].
  split; [apply has_one_fraction_digit_repr | apply parse_float1_repr].
Qed.

Lemma csv_text_layout frame :
  Forall plain_row frame -> csv_layout frame (csv_text frame).
Proof.
  intros Hp. exists (map csv_row frame).
  split; [now apply csv_text_lines|].
  induction Hp as [|r frame Hr Hp IH]; cbn [map]; constructor;
    [now apply csv_row_holds | exact IH].
Qed.

Lemma lines_name_keys lines frame :
  Forall2 line_holds lines frame ->
  Forall2 line_names lines (map row_key frame).
Proof.
  induction 1 as [|line r lines frame (fd & ft & Hs & Hiso & Hd & _) _ IH];
    cbn [map]; constructor; [|exact IH].
  exists fd, ft. cbn [row_key fst snd]. repeat split; assumption.
Qed.

Section Persistence.

Context {S E : Type} `{RandomSource S} `{Shell E}.

Lemma generated_rows_plain today window (s : S) cs : forall off,
  window_in_range today window ->
  Forall (fun c => needs_quote c = false) cs ->
  Forall plain_row (map row_of_reading (readings_from today window s off cs)).
Proof.
  intros off Hr Hcs. revert off.
  induction Hcs as [|c cs Hc Hcs IH]; intros off; [constructor|].
  cbn [readings_from]. rewrite map_app. apply Forall_app. split; [|apply IH].
  unfold city_readings. rewrite map_map. apply List.Forall_forall.
  intros r Hin. apply in_map_iff in Hin. destruct Hin as (i & <- & Hi).
  apply in_seq in Hi. split; [|exact Hc].
  cbn [row_of_reading r_date cell_date]. apply fromordinal_valid.
  specialize (Hr (Z.of_nat i) ltac:(lia)). lia.
Qed.

Lemma cities_unquoted : Forall (fun c => needs_quote c = false) cities.
Proof. unfold cities. repeat constructor. Qed.

Lemma generated_temperatures_moderate today (s : S) cs : forall off,
  Forall (fun r => moderate (r_temperature r))
    (map row_of_reading (readings_from today 30 s off cs)).
Proof.
  intros off. revert off. induction cs as [|c cs IH]; intros off; [constructor|].
  cbn [readings_from]. rewrite map_app. apply Forall_app. split; [|apply IH].
  unfold city_readings. rewrite map_map. apply List.Forall_forall.
  intros r Hin. apply in_map_iff in Hin. destruct Hin as (i & <- & _).
  cbn [row_of_reading r_temperature]. unfold moderate.
  destruct (draw_range (-5 # 1) (35 # 1) s (off + i) ltac:(discriminate))
    as [Hlo Hhi].
  pose proof (round1_range _ Hlo Hhi) as Hrange.
  unfold f_value in Hrange.
  destruct (f_neg (round1 (draw (-5 # 1) (35 # 1) s (off + i)))); lia.
Qed.

Lemma to_csv_run df frame path (w : World S E) :
  w_heap w !! df = Some frame ->
  w_fs w !! path <> Some Dir ->
  to_csv df path w =
  (inr tt, set_fs (<[path := File (Text (csv_text frame))]> (w_fs w)) w).
Proof.
  intros Hdf Hp. unfold to_csv, mbind, M_bind, get_frame, write_file.
  rewrite Hdf. destruct (w_fs w !! path) as [[|c]|]; [contradiction | |]; reflexivity.
Qed.

(** Step 1 of main: the frame it returns and the file it leaves. *)
Lemma main_collect_run (w : World S E) :
  window_in_range (w_today w) 30 ->
  w_fs w !! csv_file <> Some Dir ->
  returned_frame (main_collect w) = returned_frame (generate_weather_data w) /\
  w_fs (snd (main_collect w)) !! csv_file =
    option_map (fun frame => File (Text (csv_text frame)))
      (returned_frame (generate_weather_data w)).
Proof.
  intros Hr Hp. unfold generate_weather_data.
  rewrite generate_frame by assumption.
  remember (main_collect w) as out eqn:Hout.
  unfold main_collect, generate_weather_data in Hout.
  unfold mbind at 1, M_bind at 1 in Hout. rewrite generate_run in Hout by assumption.
  unfold mbind at 1, M_bind at 1, print at 1 in Hout.
  unfold mbind at 1, M_bind at 1 in Hout.
  erewrite to_csv_run in Hout;
    [| cbn [set_stdout set_heap set_rng w_heap]; apply lookup_insert_eq
     | exact Hp].
  unfold mbind, M_bind, print, mret, M_ret in Hout. subst out.
  unfold returned_frame.
  cbn [fst snd set_fs set_stdout set_heap set_rng w_heap w_fs option_map].
  split; apply lookup_insert_eq.
Qed.

(** C7. to_csv writes the header line [date,city,temperature] followed by
    one line per row in the order of the frame. Each line holds the date, the
    city and the temperature of its row between commas: the date in the shape
    YYYY-MM-DD with the digits of its year, month and day, and the
    temperature as a decimal with exactly one digit after the point whose
    sign and digits are those of the value. This holds for every frame of
    valid dates, cities that need no quoting and temperatures below 1e11 in
    magnitude written to a file name in the working directory, and so for
    the file weather_data.csv that main writes from the generated data. *)
Theorem persist_writes_header_and_rows :
  (forall df frame path (w : World S E),
     w_heap w !! df = Some frame ->
     Forall plain_row frame ->
     Forall (fun r => moderate (r_temperature r)) frame ->
     contains "/"%char path = false ->
     w_fs w !! path <> Some Dir ->
     fst (to_csv df path w) = inr tt /\
     exists text,
       w_fs (snd (to_csv df path w)) !! path = Some (File (Text text)) /\
       csv_layout frame text) /\
  (forall w : World S E,
     valid_date (w_today w) ->
     30 < toordinal (w_today w) ->
     w_fs w !! csv_file <> Some Dir ->
     exists frame text,
       returned_frame (main_collect w) = Some frame /\
       length frame = 180%nat /\
       Forall (fun r => exists d, r_date r = DateObj d) frame /\
       Forall (fun r => moderate (r_temperature r)) frame /\
       w_fs (snd (main_collect w)) !! csv_file = Some (File (Text text)) /\
       csv_layout frame text).
Proof.
  split.
  - intros df frame path w Hdf Hplain _ _ Hp.
    rewrite (to_csv_run df frame path w Hdf Hp). cbn [fst snd set_fs w_fs].
    split; [reflexivity|]. exists (csv_text frame).
    split; [apply lookup_insert_eq | now apply csv_text_layout].
  - intros w Hv H30 Hp.
    assert (Hr : window_in_range (w_today w) 30)
      by (apply window_in_range_pos; [assumption | lia]).
    destruct (main_collect_run w Hr Hp) as [Hframe Hfile].
    unfold generate_weather_data in *.
    rewrite generate_frame in Hframe, Hfile by assumption.
    assert (Hplain : Forall plain_row
              (map row_of_reading
                 (readings_from (w_today w) 30 (w_rng w) 0 cities)))
      by (apply generated_rows_plain; [assumption | apply cities_unquoted]).
    eexists. eexists. split; [exact Hframe|].
    split; [now rewrite length_map, length_readings_from|].
    split; [|split; [|split; [exact Hfile | now apply csv_text_layout]]].
    + apply List.Forall_map. apply List.Forall_forall. intros [[d c] t] _.
      now exists d.
    + apply generated_temperatures_moderate.
Qed.

(** C8. Parsing the CSV text written for a frame gives back its (date,
    city, temperature) tuples; in particular the file main writes from the
    data generated from any state of the random source parses to a list of
    tuples that is a permutation of, and has the same members as, the tuples
    of the generated frame. *)
Theorem csv_round_trip :
  (forall frame,
     Forall plain_row frame ->
     parse_csv (csv_text frame) = Some (map tuple_of_row frame)) /\
  (forall w : World S E,
     valid_date (w_today w) ->
     30 < toordinal (w_today w) ->
     w_fs w !! csv_file <> Some Dir ->
     exists frame text tuples,
       returned_frame (main_collect w) = Some frame /\
       w_fs (snd (main_collect w)) !! csv_file = Some (File (Text text)) /\
       parse_csv text = Some tuples /\
       Permutation tuples (map tuple_of_row frame) /\
       (forall t, In t tuples <-> In t (map tuple_of_row frame))).
Proof.
  split; [exact parse_csv_text|].
  intros w Hv H30 Hp.
  assert (Hr : window_in_range (w_today w) 30)
    by (apply window_in_range_pos; [assumption | lia]).
  destruct (main_collect_run w Hr Hp) as [Hframe Hfile].
  unfold generate_weather_data in *.
  rewrite generate_frame in Hframe, Hfile by assumption.
  eexists. eexists. eexists. split; [exact Hframe|]. split; [exact Hfile|].
  split; [|split; [apply Permutation_refl | reflexivity]].
  apply parse_csv_text, generated_rows_plain; [assumption | apply cities_unquoted].
Qed.

(** C10. The frame generate_weather_data returns lists the cities in the
    order London, New York, Tokyo, Berlin, Moscow, Sydney and, within each
    city, the days today - 30, ..., today - 1 in ascending order. The CSV
    file main writes has one data line per row in the same order: the line
    at each position names the city and the day of the pair at that
    position, and holds the whole row at that position of the frame. *)
Theorem generated_rows_city_major_ascending (w : World S E) :
  valid_date (w_today w) ->
  30 < toordinal (w_today w) ->
  w_fs w !! csv_file <> Some Dir ->
  exists frame text lines,
    returned_frame (generate_weather_data w) = Some frame /\
    map row_key frame =
      list_prod ["London"; "New York"; "Tokyo"; "Berlin"; "Moscow"; "Sydney"]
                (window_dates (w_today w) 30) /\
    map toordinal (window_dates (w_today w) 30) =
      map (fun i => toordinal (w_today w) - 30 + i) (range 30) /\
    returned_frame (main_collect w) = Some frame /\
    w_fs (snd (main_collect w)) !! csv_file = Some (File (Text text)) /\
    split_on newline text = "date,city,temperature" :: lines ++ [EmptyString] /\
    Forall2 line_names lines
      (list_prod ["London"; "New York"; "Tokyo"; "Berlin"; "Moscow"; "Sydney"]
                 (window_dates (w_today w) 30)) /\
    Forall2 line_holds lines frame.
Proof.
  intros Hv H30 Hp.
  assert (Hr : window_in_range (w_today w) 30)
    by (apply window_in_range_pos; [assumption | lia]).
  destruct (main_collect_run w Hr Hp) as [Hframe Hfile].
  unfold generate_weather_data in *.
  rewrite generate_frame in Hframe, Hfile |- * by assumption.
  destruct (csv_text_layout
              (map row_of_reading (readings_from (w_today w) 30 (w_rng w) 0 cities)))
    as (lines & Hlines & Hhold).
  { apply generated_rows_plain; [assumption | apply cities_unquoted]. }
  eexists. eexists. exists lines. split; [reflexivity|].
  split; [apply readings_keys|].
  split; [now apply window_dates_ordinals|].
  split; [exact Hframe|]. split; [exact Hfile|].
  split; [exact Hlines|]. split; [|exact Hhold].
  apply lines_name_keys in Hhold. now rewrite readings_keys in Hhold.
Qed.

End Persistence.

(** * The program on concrete worlds *)

Ltac by_computation :=
  vm_compute;
  repeat match goal with
         | |- _ /\ _ => split
         | |- _ = _ => reflexivity
         | |- _ <> _ => discriminate
         | |- _ -> False => discriminate
         end.

Lemma generate_one_reading_per_city_and_day_witness :
  (exists frame,
     returned_frame (generate ["A"; "B"] 3 world0) = Some frame /\
     length frame = 6%nat /\
     map row_key frame =
       list_prod ["A"; "B"] (window_dates (w_today world0) 3) /\
     List.NoDup (map row_key frame)) /\
  (exists frame,
     returned_frame (generate_weather_data world0) = Some frame /\
     length frame = 180%nat /\
     List.NoDup (map row_key frame)).
Proof.
  destruct (generate_one_reading_per_city_and_day world0 ltac:(by_computation))
    as [Hgen Hprog].
  split.
  - apply (Hgen ["A"; "B"] 3); [by_computation|].
    repeat constructor; cbn [In]; intuition discriminate.
  - apply Hprog. by_computation.
Defined.

Lemma generate_window_ends_before_today_witness :
  exists frame,
    returned_frame (generate ["A"; "B"] 3 world0) = Some frame /\
    In (mk_date 2026 10 31) (frame_dates (generate ["A"; "B"] 3 world0)) /\
    ~ In (mk_date 2026 11 3) (frame_dates (generate ["A"; "B"] 3 world0)) /\
    map (fun r => toordinal (cell_date (r_date r))) (select_city "B" frame) =
      [739920; 739921; 739922].
Proof.
  destruct (generate_window_ends_before_today ["A"; "B"] 3 world0
              ltac:(by_computation) ltac:(by_computation) ltac:(discriminate))
    as (frame & Hf & _ & Hin & Hnot & Hcity).
  exists frame. split; [exact Hf|]. split; [exact Hin|]. split; [exact Hnot|].
  apply Hcity.
  - repeat constructor; cbn [In]; intuition discriminate.
  - right. now left.
Defined.

(** C2 as stated fails: on 2026-11-03 the generated dates do not contain
    today, and they contain the day 30 days before it. *)
Lemma generated_dates_exclude_today :
  w_today world0 = mk_date 2026 11 3 /\
  ~ In (mk_date 2026 11 3) (frame_dates (generate_weather_data world0)) /\
  In (mk_date 2026 10 4) (frame_dates (generate_weather_data world0)) /\
  date_sub_days (mk_date 2026 11 3) 30 = inr (mk_date 2026 10 4).
Proof.
  split; [reflexivity|].
  remember (frame_dates (generate_weather_data world0)) as dates eqn:Hdates.
  vm_compute in Hdates. rewrite !(In_date_existsb _ dates). subst dates.
  by_computation.
Qed.

Lemma generate_temperatures_rounded_in_range_witness :
  exists frame,
    returned_frame (generate cities 30 world0) = Some frame /\
    Forall (fun r : Row =>
              -50 <= f_value (r_temperature r) <= 350 /\
              exists x : Q,
                (-5 # 1 <= x)%Q /\ (x <= 35 # 1)%Q /\
                r_temperature r = round1 x /\
                f_value (r_temperature r) = round_half_even (x * (10 # 1)) /\
                (Qabs (f_Q (r_temperature r) - x) <= 1 # 20)%Q) frame.
Proof.
  apply (generate_temperatures_rounded_in_range cities 30 world0);
    by_computation.
Defined.

(** C4 as stated fails: put of a local path that does not exist makes the
    client exit with a non-zero status, and the operation still returns
    None. *)
Lemma put_of_missing_file_returns_normally :
  let cmd := "hadoop fs -put -f missing.csv /user/your_hdfs_user/missing.csv" in
  w_fs world0 !! "missing.csv" = None /\
  fst (fst (os_system_run cmd (w_ext world0) (w_fs world0))) = 256 /\
  fst (save_results_to_hdfs "missing.csv" "/user/your_hdfs_user/missing.csv"
         world0) = inr tt /\
  fst (fst (os_system_run "hdfs-client-that-is-not-installed"
              (w_ext world0) (w_fs world0))) = 32512 /\
  fst (get_results_from_hdfs "/user/your_hdfs_user/missing.csv" "missing.csv"
         world0) = inr tt.
Proof. by_computation. Qed.

Lemma histogram_bins_and_counts_witness :
  exists fig counts edges,
    w_fs (snd (plot_temperature_distribution 0%nat (world_with sample_frame))) !!
      "temperature_distribution.png" = Some (File (Image fig)) /\
    fig_artists fig = [BarContainer edges counts "black"] /\
    length edges = 21%nat /\
    (edge edges 0 == observed_min (map f_double (map r_temperature sample_frame)))%Q /\
    edge edges 20 = observed_max (map f_double (map r_temperature sample_frame)) /\
    length counts = 20%nat /\
    list_sum counts = 3%nat.
Proof.
  destruct (histogram_bins_and_counts 0%nat sample_frame (world_with sample_frame))
    as (fig & counts & edges & first_edge & last_edge & _ & Hfile & Hart & _ & _ &
        _ & Hdiff & _ & Hlen & Hfirst & Hlast & _ & _ & Hcounts & _ & _ & Hsum).
  - reflexivity.
  - discriminate.
  - unfold sample_frame, moderate. repeat constructor.
  - by_computation.
  - destruct Hdiff as [-> ->]; [reflexivity|].
    exists fig, counts, edges. repeat split; assumption.
Defined.

(** C5 as stated fails: for temperatures that are all 21.5 the bins do not
    span [21.5, 21.5] but [21.0, 22.0]. *)
Lemma histogram_of_equal_temperatures :
  let a := map f_double (map r_temperature constant_frame) in
  (observed_min a == 215 # 10)%Q /\ (observed_max a == 215 # 10)%Q /\
  exists fig counts edges,
    w_fs (snd (plot_temperature_distribution 0%nat (world_with constant_frame))) !!
      "temperature_distribution.png" = Some (File (Image fig)) /\
    fig_artists fig = [BarContainer edges counts "black"] /\
    (hd 0 edges == 210 # 10)%Q /\ (List.last edges 0 == 220 # 10)%Q /\
    ~ (hd 0 edges == 215 # 10)%Q /\ ~ (List.last edges 0 == 215 # 10)%Q /\
    nth 10 counts 0%nat = 3%nat.
Proof.
  split; [reflexivity|]. split; [reflexivity|].
  match eval vm_compute in
    (w_fs (snd (plot_temperature_distribution 0%nat (world_with constant_frame))) !!
       "temperature_distribution.png") with
  | Some (File (Image ?fig)) =>
      match eval vm_compute in (fig_artists fig) with
      | [BarContainer ?edges ?counts _] => exists fig, counts, edges
      end
  end.
  by_computation.
Qed.

Lemma renderers_effect_on_the_frame_witness :
  w_heap (snd (plot_temperature_distribution 0%nat (world_with sample_frame))) !!
    0%nat = Some sample_frame /\
  w_heap (snd (plot_temperature_changes 0%nat (world_with sample_frame))) !!
    0%nat = Some (map as_timestamp sample_frame) /\
  w_heap (snd (plot_temperature_changes 0%nat
                 (set_fs {[ "temperature_changes.png" := Dir ]}
                    (world_with sample_frame)))) !!
    0%nat = Some (map as_timestamp sample_frame).
Proof.
  destruct (renderers_effect_on_the_frame 0%nat sample_frame
              (world_with sample_frame) ltac:(by_computation))
    as (Hhist & Hconv & _).
  destruct (renderers_effect_on_the_frame 0%nat sample_frame
              (set_fs {[ "temperature_changes.png" := Dir ]}
                 (world_with sample_frame)) ltac:(by_computation))
    as (_ & Hlate & _).
  split; [exact Hhist|]. split.
  - destruct (Hconv _ ltac:(by_computation)) as [Hheap Heq].
    rewrite <- Heq. exact Hheap.
  - destruct (Hlate _ ltac:(by_computation)) as [Hheap Heq].
    rewrite <- Heq. exact Hheap.
Defined.

(** C6 as stated fails: after the line-chart renderer has returned, the
    caller's frame holds Timestamps where it held date objects. *)
Lemma line_chart_changes_the_date_column :
  w_heap (world_with sample_frame) !! 0%nat = Some sample_frame /\
  fst (plot_temperature_changes 0%nat (world_with sample_frame)) = inr tt /\
  w_heap (snd (plot_temperature_changes 0%nat (world_with sample_frame))) !! 0%nat
    = Some (map as_timestamp sample_frame) /\
  map as_timestamp sample_frame <> sample_frame /\
  map r_date sample_frame =
    [DateObj (mk_date 2026 11 2); DateObj (mk_date 2026 11 1);
     DateObj (mk_date 2026 11 2)] /\
  map r_date (map as_timestamp sample_frame) =
    [Timestamp (mk_date 2026 11 2); Timestamp (mk_date 2026 11 1);
     Timestamp (mk_date 2026 11 2)].
Proof. by_computation. Qed.

Lemma persist_writes_header_and_rows_witness :
  (fst (to_csv 0%nat "out.csv" (world_with sample_frame)) = inr tt /\
   exists text,
     w_fs (snd (to_csv 0%nat "out.csv" (world_with sample_frame))) !! "out.csv" =
       Some (File (Text text)) /\
     csv_layout sample_frame text) /\
  (exists frame text,
     returned_frame (main_collect world0) = Some frame /\
     length frame = 180%nat /\
     Forall (fun r => exists d, r_date r = DateObj d) frame /\
     Forall (fun r => moderate (r_temperature r)) frame /\
     w_fs (snd (main_collect world0)) !! csv_file = Some (File (Text text)) /\
     csv_layout frame text).
Proof.
  destruct (persist_writes_header_and_rows (S:=Z) (E:=gmap string content))
    as [Hany Hmain].
  split.
  - apply Hany; [by_computation | | | reflexivity | by_computation].
    + unfold sample_frame, plain_row. repeat constructor; by_computation.
    + unfold sample_frame, moderate. repeat constructor.
  - apply Hmain; by_computation.
Defined.

Lemma csv_round_trip_witness :
  parse_csv (csv_text sample_frame) = Some (map tuple_of_row sample_frame) /\
  (exists frame text tuples,
     returned_frame (main_collect world0) = Some frame /\
     w_fs (snd (main_collect world0)) !! csv_file = Some (File (Text text)) /\
     parse_csv text = Some tuples /\
     Permutation tuples (map tuple_of_row frame) /\
     (forall t, In t tuples <-> In t (map tuple_of_row frame))).
Proof.
  destruct (csv_round_trip (S:=Z) (E:=gmap string content)) as [Hany Hmain].
  split.
  - apply Hany. unfold sample_frame, plain_row. repeat constructor; by_computation.
  - apply Hmain; by_computation.
Defined.

Lemma generated_rows_city_major_ascending_witness :
  exists frame text lines,
    returned_frame (generate_weather_data world0) = Some frame /\
    map row_key frame =
      list_prod ["London"; "New York"; "Tokyo"; "Berlin"; "Moscow"; "Sydney"]
                (window_dates (w_today world0) 30) /\
    map toordinal (window_dates (w_today world0) 30) =
      map (fun i => toordinal (w_today world0) - 30 + i) (range 30) /\
    returned_frame (main_collect world0) = Some frame /\
    w_fs (snd (main_collect world0)) !! csv_file = Some (File (Text text)) /\
    split_on newline text = "date,city,temperature" :: lines ++ [EmptyString] /\
    Forall2 line_names lines
      (list_prod ["London"; "New York"; "Tokyo"; "Berlin"; "Moscow"; "Sydney"]
                 (window_dates (w_today world0) 30)) /\
    Forall2 line_holds lines frame.
Proof.
  apply (generated_rows_city_major_ascending world0); by_computation.
Defined.

(** * Further properties of the program *)

(** ** The generator, row by row *)

Section GeneratorRows.

Context {S E : Type} `{RandomSource S} `{Shell E}.

Lemma nth_error_city_readings today window (s : S) off c i :
  (i < Z.to_nat window)%nat ->
  nth_error (city_readings today window s off c) i =
  Some (fromordinal (toordinal today - (window - Z.of_nat i)), c,
        round1 (draw (-5 # 1) (35 # 1) s (off + i))).
Proof.
  intros Hi. unfold city_readings.
  rewrite nth_error_map, nth_error_seq.
  destruct (Nat.ltb_spec i (Z.to_nat window)); [reflexivity | lia].
Qed.

Lemma nth_error_readings_from today window (s : S) cs : forall off k,
  (k < length cs * Z.to_nat window)%nat ->
  nth_error (readings_from today window s off cs) k =
  Some (fromordinal
          (toordinal today - (window - Z.of_nat (k mod Z.to_nat window))),
        nth (k / Z.to_nat window) cs EmptyString,
        round1 (draw (-5 # 1) (35 # 1) s (off + k))).
Proof.
  set (n := Z.to_nat window).
  induction cs as [|c cs IH]; intros off k Hk; [cbn in Hk; lia|].
  assert (Hn : (0 < n)%nat) by (cbn [length] in Hk; nia).
  cbn [readings_from]. fold n.
  destruct (Nat.lt_ge_cases k n) as [Hlt | Hge].
  - rewrite nth_error_app1 by (rewrite length_city_readings; exact Hlt).
    rewrite nth_error_city_readings by exact Hlt.
    rewrite Nat.mod_small, Nat.div_small by exact Hlt. reflexivity.
  - rewrite nth_error_app2 by (rewrite length_city_readings; exact Hge).
    rewrite length_city_readings. fold n.
    assert (Hrest : (k - n < length cs * n)%nat)
      by (cbn [length] in Hk; rewrite Nat.mul_succ_l in Hk; lia).
    rewrite IH by exact Hrest.
    assert (Hk' : k = ((k - n) + 1 * n)%nat) by lia.
    assert (Hmod : (k mod n = (k - n) mod n)%nat).
    { rewrite Hk' at 1. apply Nat.Div0.mod_add. }
    assert (Hdiv : (k / n = Datatypes.S ((k - n) / n))%nat).
    { rewrite Hk' at 1. rewrite Nat.div_add by lia. lia. }
    rewrite Hmod, Hdiv. cbn [nth].
    replace (off + n + (k - n))%nat with (off + k)%nat by lia. reflexivity.
Qed.

(** X1. Row number k of the generated frame belongs to city number k / N,
    is dated today - N + (k mod N), and holds the k-th draw of the random
    source rounded to one decimal. *)
Theorem generate_row_by_index cs window (w : World S E) k :
  valid_date (w_today w) ->
  0 < window < toordinal (w_today w) ->
  (k < length cs * Z.to_nat window)%nat ->
  exists frame,
    returned_frame (generate cs window w) = Some frame /\
    nth_error frame k =
    Some (mk_row
            (DateObj (fromordinal
               (toordinal (w_today w) - window + Z.of_nat (k mod Z.to_nat window))))
            (nth (k / Z.to_nat window) cs EmptyString)
            (round1 (draw (-5 # 1) (35 # 1) (w_rng w) k))).
Proof.
  intros Hv Hw Hk.
  assert (Hr : window_in_range (w_today w) window)
    by (apply window_in_range_pos; [assumption | lia]).
  eexists. split; [apply generate_frame; assumption|].
  rewrite nth_error_map, nth_error_readings_from by assumption.
  cbn [option_map row_of_reading Nat.add]. do 4 f_equal. lia.
Qed.

(** X2. A successful generate touches only the random source, which it
    advances by exactly one draw per reading, and the heap, where the frame
    it returns is a new object and every older object is left as it was;
    files, figures, output and the remote store are unchanged. When generate
    fails (a city to generate and a window reaching date.min or before) it
    has changed nothing at all. *)
Theorem generate_footprint cs window (w : World S E) :
  valid_date (w_today w) ->
  (window < toordinal (w_today w) ->
   exists df,
     fst (generate cs window w) = inr df /\
     w_heap w !! df = None /\
     (forall l, l <> df ->
        w_heap (snd (generate cs window w)) !! l = w_heap w !! l) /\
     w_rng (snd (generate cs window w)) =
       rng_after (-5 # 1) (35 # 1) (w_rng w) (length cs * Z.to_nat window) /\
     w_fs (snd (generate cs window w)) = w_fs w /\
     w_figs (snd (generate cs window w)) = w_figs w /\
     w_stdout (snd (generate cs window w)) = w_stdout w /\
     w_ext (snd (generate cs window w)) = w_ext w /\
     w_today (snd (generate cs window w)) = w_today w) /\
  (cs <> [] -> toordinal (w_today w) <= window ->
   generate cs window w = (inl OverflowError, w)).
Proof.
  intros Hv. split.
  - intros Hw.
    assert (Hr : window_in_range (w_today w) window).
    { destruct (Z.le_gt_cases window 0).
      - now apply window_in_range_nonpos.
      - now apply window_in_range_pos. }
    rewrite generate_run by assumption.
    exists (fresh (dom (w_heap w))). cbn [fst snd set_heap set_rng w_heap w_rng
      w_fs w_figs w_stdout w_ext w_today].
    split; [reflexivity|]. split.
    { apply not_elem_of_dom. apply is_fresh. }
    split; [|repeat split].
    intros l Hl. now rewrite lookup_insert_ne.
  - intros Hcs Hw. destruct cs as [|c cs']; [contradiction|].
    now apply generate_overflow.
Qed.

End GeneratorRows.

(** ** Sorting by city and date *)

Lemma ascii_compare_lt_trans a b c :
  Ascii.compare a b = Lt -> Ascii.compare b c = Lt -> Ascii.compare a c = Lt.
Proof.
  unfold Ascii.compare. rewrite !N.compare_lt_iff. lia.
Qed.

Lemma ascii_compare_refl a : Ascii.compare a a = Eq.
Proof. unfold Ascii.compare. apply N.compare_refl. Qed.

Lemma string_compare_refl s : String.compare s s = Eq.
Proof.
  induction s as [|a s IH]; [reflexivity|].
  cbn [String.compare]. now rewrite ascii_compare_refl.
Qed.

Lemma string_compare_lt_trans s : forall t u,
  String.compare s t = Lt -> String.compare t u = Lt -> String.compare s u = Lt.
Proof.
  induction s as [|a s IH]; intros [|b t] [|c u]; cbn [String.compare];
    try discriminate; try reflexivity.
  destruct (Ascii.compare a b) eqn:Hab; try discriminate;
    destruct (Ascii.compare b c) eqn:Hbc; try discriminate; intros Hst Htu.
  - apply Ascii.compare_eq_iff in Hab, Hbc. subst.
    rewrite ascii_compare_refl. now apply (IH t u).
  - apply Ascii.compare_eq_iff in Hab. subst. now rewrite Hbc.
  - apply Ascii.compare_eq_iff in Hbc. subst. now rewrite Hab.
  - now rewrite (ascii_compare_lt_trans a b c Hab Hbc).
Qed.

(** The order of [sort_values(by=["city", "date"])] is total and
    transitive. *)
Lemma row_leb_total a b : row_leb a b = false -> row_leb b a = true.
Proof.
  unfold row_leb. rewrite (String.compare_antisym (r_city a) (r_city b)).
  destruct (String.compare (r_city b) (r_city a)); cbn [CompOpp];
    try discriminate; [|reflexivity].
  intros Hle. apply Z.leb_gt in Hle. apply Z.leb_le. lia.
Qed.

Lemma row_leb_trans a b c :
  row_leb a b = true -> row_leb b c = true -> row_leb a c = true.
Proof.
  unfold row_leb.
  destruct (String.compare (r_city a) (r_city b)) eqn:Hab; try discriminate;
    destruct (String.compare (r_city b) (r_city c)) eqn:Hbc; try discriminate;
    intros H1 H2.
  - apply String.compare_eq_iff in Hab, Hbc. rewrite Hab, Hbc.
    rewrite string_compare_refl. apply Z.leb_le. apply Z.leb_le in H1, H2. lia.
  - apply String.compare_eq_iff in Hab. now rewrite Hab, Hbc.
  - apply String.compare_eq_iff in Hbc. now rewrite <- Hbc, Hab.
  - now rewrite (string_compare_lt_trans _ _ _ Hab Hbc).
Qed.

Lemma insert_sorted_perm r l : Permutation (insert_sorted r l) (r :: l).
Proof.
  induction l as [|x l IH]; cbn [insert_sorted]; [apply Permutation_refl|].
  destruct (row_leb r x); [apply Permutation_refl|].
  eapply perm_trans; [apply perm_skip, IH | apply perm_swap].
Qed.

Lemma sorted_by_city_date_perm l : Permutation (sorted_by_city_date l) l.
Proof.
  induction l as [|r l IH]; [apply Permutation_refl|].
  unfold sorted_by_city_date in *. cbn [fold_right].
  eapply perm_trans; [apply insert_sorted_perm | now apply perm_skip].
Qed.

Lemma insert_sorted_sorted r l :
  StronglySorted (fun a b => row_leb a b = true) l ->
  StronglySorted (fun a b => row_leb a b = true) (insert_sorted r l).
Proof.
  induction 1 as [|x l Hl IH Hx]; cbn [insert_sorted].
  - constructor; constructor.
  - destruct (row_leb r x) eqn:Hrx.
    + constructor; [now constructor|]. constructor; [exact Hrx|].
      eapply List.Forall_impl; [|exact Hx]. cbn beta. intros y Hy.
      now apply (row_leb_trans r x y).
    + constructor; [exact IH|].
      apply List.Forall_forall. intros y Hy.
      apply (Permutation_in _ (insert_sorted_perm r l)) in Hy.
      destruct Hy as [<- | Hy]; [now apply row_leb_total|].
      rewrite List.Forall_forall in Hx. now apply Hx.
Qed.

Lemma sorted_by_city_date_sorted l :
  StronglySorted (fun a b => row_leb a b = true) (sorted_by_city_date l).
Proof.
  induction l as [|r l IH]; [constructor|].
  unfold sorted_by_city_date in *. cbn [fold_right].
  now apply insert_sorted_sorted.
Qed.

Lemma filter_perm {A} (p : A -> bool) l l' :
  Permutation l l' -> Permutation (List.filter p l) (List.filter p l').
Proof.
  induction 1; cbn [List.filter].
  - apply Permutation_refl.
  - destruct (p x); [now apply perm_skip | assumption].
  - destruct (p x), (p y); try apply Permutation_refl. apply perm_swap.
  - eapply perm_trans; eassumption.
Qed.

Lemma filter_strongly_sorted {A} (R : A -> A -> Prop) (p : A -> bool) l :
  StronglySorted R l -> StronglySorted R (List.filter p l).
Proof.
  induction 1 as [|x l Hl IH Hx]; cbn [List.filter]; [constructor|].
  destruct (p x); [|exact IH]. constructor; [exact IH|].
  apply List.Forall_forall. intros y Hy. apply filter_In in Hy.
  rewrite List.Forall_forall in Hx. now apply Hx.
Qed.

Lemma strongly_sorted_impl_in {A} (R R' : A -> A -> Prop) l :
  (forall a b, In a l -> In b l -> R a b -> R' a b) ->
  StronglySorted R l -> StronglySorted R' l.
Proof.
  intros Himp Hs. induction Hs as [|x l Hl IH Hx]; [constructor|].
  constructor.
  - apply IH. intros a b Ha Hb. apply Himp; now right.
  - apply List.Forall_forall. intros y Hy. rewrite List.Forall_forall in Hx.
    apply Himp; [now left | now right | now apply Hx].
Qed.

(** The rows of one city, taken from the sorted frame, are the caller's rows
    of that city in ascending order of date. *)
Lemma select_city_sorted c l :
  Permutation (select_city c (sorted_by_city_date l)) (select_city c l) /\
  StronglySorted
    (fun a b => toordinal (cell_date (r_date a)) <= toordinal (cell_date (r_date b)))
    (select_city c (sorted_by_city_date l)).
Proof.
  split.
  - apply filter_perm, sorted_by_city_date_perm.
  - apply (strongly_sorted_impl_in (fun a b => row_leb a b = true)).
    + intros a b Ha Hb. apply filter_In in Ha, Hb.
      destruct Ha as [_ Ha], Hb as [_ Hb]. apply String.eqb_eq in Ha, Hb.
      unfold row_leb. rewrite Ha, Hb, string_compare_refl. apply Z.leb_le.
    + apply filter_strongly_sorted, sorted_by_city_date_sorted.
Qed.

(** ** Distinct cities in order of appearance *)

Lemma in_unique x l : In x (unique l) <-> In x l.
Proof.
  induction l as [|y l IH]; [reflexivity|].
  cbn [unique In]. rewrite filter_In, IH.
  destruct (String.eqb_spec y x) as [->|Hne]; cbn [negb]; [tauto|].
  split; [tauto|]. intros [Hy | Hx]; [now left | right; now split].
Qed.

Lemma NoDup_unique l : List.NoDup (unique l).
Proof.
  induction l as [|y l IH]; cbn [unique]; constructor.
  - rewrite filter_In. intros [_ Hne]. now rewrite String.eqb_refl in Hne.
  - now apply List.NoDup_filter.
Qed.

Lemma unique_strictly_sorted l :
  StronglySorted (fun a b => String.compare a b <> Gt) l ->
  StronglySorted (fun a b => String.compare a b = Lt) (unique l).
Proof.
  induction 1 as [|x l Hl IH Hx]; cbn [unique]; [constructor|].
  constructor; [now apply filter_strongly_sorted|].
  apply List.Forall_forall. intros y Hy. apply filter_In in Hy.
  destruct Hy as [Hy Hne]. apply (proj1 (in_unique y l)) in Hy.
  rewrite List.Forall_forall in Hx. specialize (Hx y Hy).
  destruct (String.compare x y) eqn:Hc; [|reflexivity|contradiction].
  apply String.compare_eq_iff in Hc. subst y.
  now rewrite String.eqb_refl in Hne.
Qed.

Lemma sorted_cities_ascending l :
  StronglySorted (fun a b => String.compare a b <> Gt)
    (map r_city (sorted_by_city_date l)).
Proof.
  pose proof (sorted_by_city_date_sorted l) as Hs.
  induction Hs as [|x rows Hrows IH Hx]; cbn [map]; constructor; [exact IH|].
  apply List.Forall_map. eapply List.Forall_impl; [|exact Hx].
  cbn beta. intros y. unfold row_leb.
  destruct (String.compare (r_city x) (r_city y)); discriminate.
Qed.

(** ** Running the line chart *)

Section LineChart.

Context {S E : Type} `{RandomSource S} `{Shell E}.

Lemma heap_after_lines_kept frame cs : forall (h : gmap loc (list Row)) l fr,
  h !! l = Some fr -> heap_after_lines frame cs h !! l = Some fr.
Proof.
  induction cs as [|c cs IH]; intros h l fr Hl; [exact Hl|].
  cbn [heap_after_lines]. apply IH. rewrite lookup_insert_ne; [exact Hl|].
  intros <-. apply (is_fresh (dom h)). apply elem_of_dom. now exists fr.
Qed.

Lemma fold_add_artists (a : string -> Artist) cs : forall g,
  fold_left (fun g c => add_artist (a c) g) cs g =
  mk_figure (fig_size g) (fig_artists g ++ map a cs) (fig_title g)
    (fig_xlabel g) (fig_ylabel g) (fig_legend g) (fig_grid g) (fig_tight g).
Proof.
  induction cs as [|c cs IH]; intros g; cbn [fold_left map].
  - rewrite app_nil_r. now destruct g.
  - rewrite IH. unfold add_artist. cbn [fig_size fig_artists fig_title
      fig_xlabel fig_ylabel fig_legend fig_grid fig_tight].
    now rewrite <- app_assoc.
Qed.

(** The loop over the cities: one frame and one line per city. *)
Lemma plot_lines_run frame cs : forall (w : World S E) g gs,
  w_figs w = g :: gs ->
  for_each cs
    (fun city _ =>
       city_data ← new_frame (select_city city frame);
       rows ← get_frame city_data;
       plt_plot (map r_date rows) (map r_temperature rows) city) tt w
  = (inr tt,
     set_figs (fold_left (fun g c => add_artist (city_line frame c) g) cs g :: gs)
       (set_heap (heap_after_lines frame cs (w_heap w)) w)).
Proof.
  induction cs as [|c cs IH]; intros w g gs Hg.
  - cbn [for_each fold_left heap_after_lines]. unfold mret, M_ret.
    destruct w. cbn in *. now subst.
  - cbn [for_each fold_left heap_after_lines].
    unfold mbind at 1, M_bind at 1. unfold mbind at 1, M_bind at 1, new_frame at 1.
    unfold mbind at 1, M_bind at 1, get_frame at 1.
    cbn [set_heap w_heap]. rewrite lookup_insert_eq.
    unfold plt_plot, on_gcf. cbn [w_figs set_heap]. rewrite Hg.
    erewrite IH by reflexivity. reflexivity.
Qed.

(** One step of a computation that returns normally. *)
Lemma bind_inr {A B} (m : M S E A) (f : A -> M S E B) w x w' :
  m w = (inr x, w') -> (m ≫= f) w = f x w'.
Proof. intros Hm. unfold mbind, M_bind. now rewrite Hm. Qed.

Lemma on_gcf_run f (w : World S E) g gs :
  w_figs w = g :: gs -> on_gcf f w = (inr tt, set_figs (f g :: gs) w).
Proof. intros Hg. unfold on_gcf. now rewrite Hg. Qed.

Lemma plt_savefig_run path (w : World S E) g gs :
  w_figs w = g :: gs ->
  w_fs w !! path <> Some Dir ->
  plt_savefig path w =
  (inr tt, set_fs (<[path := File (Image g)]> (w_fs w)) w).
Proof.
  intros Hg Hp. unfold plt_savefig, write_file. rewrite Hg.
  destruct (w_fs w !! path) as [[|c]|]; [contradiction | |]; reflexivity.
Qed.

Lemma plot_temperature_changes_run df frame (w : World S E) :
  w_heap w !! df = Some frame ->
  Forall (fun r => in_timestamp_range (cell_date (r_date r))) frame ->
  w_fs w !! "temperature_changes.png" <> Some Dir ->
  let sorted := sorted_by_city_date (map as_timestamp frame) in
  let h1 := <[df := map as_timestamp frame]> (w_heap w) in
  let h2 := <[fresh (dom h1) := sorted]> h1 in
  let cs := unique (map r_city sorted) in
  let fig :=
    mk_figure (10 # 1, 6 # 1)%Q (map (city_line sorted) cs)
      "Изменение температуры по датам (последние 30 дней)"
      "Дата" "Температура (°C)" true true true in
  plot_temperature_changes df w =
  (inr tt,
   set_stdout
     (w_stdout w ++
      ["[INFO] График изменений температуры сохранён в 'temperature_changes.png'."])
     (set_fs (<["temperature_changes.png" := File (Image fig)]> (w_fs w))
        (set_heap (heap_after_lines sorted cs h2) w))).
Proof.
  intros Hdf Hrange Hp sorted h1 h2 cs fig.
  unfold plot_temperature_changes.
  erewrite bind_inr by (unfold get_frame; rewrite Hdf; reflexivity).
  erewrite bind_inr
    by (unfold lift; rewrite to_datetime_in_range by (now apply List.Forall_map);
        reflexivity).
  rewrite assign_date_timestamps.
  erewrite bind_inr by reflexivity.
  erewrite bind_inr
    by (unfold get_frame; cbn [set_heap w_heap]; rewrite lookup_insert_eq;
        reflexivity).
  erewrite bind_inr by reflexivity.
  erewrite bind_inr
    by (unfold get_frame, new_frame; cbn [snd set_heap w_heap];
        rewrite lookup_insert_eq; reflexivity).
  erewrite bind_inr by reflexivity.
  erewrite bind_inr by (eapply plot_lines_run; reflexivity).
  rewrite fold_add_artists.
  do 6 (erewrite bind_inr by (eapply on_gcf_run; reflexivity)).
  erewrite bind_inr by (eapply plt_savefig_run; [reflexivity | exact Hp]).
  erewrite bind_inr by reflexivity.
  unfold print. destruct w. reflexivity.
Qed.

End LineChart.

(** ** What the renderers draw and leave behind *)

Section RendererEffects.

Context {S E : Type} `{RandomSource S} `{Shell E}.

Lemma select_city_as_timestamp c frame :
  select_city c (map as_timestamp frame) = map as_timestamp (select_city c frame).
Proof.
  unfold select_city. induction frame as [|r frame IH]; [reflexivity|].
  cbn [map List.filter as_timestamp r_city].
  destruct (String.eqb (r_city r) c); cbn [map]; now rewrite IH.
Qed.

Lemma csv_text_as_timestamp frame :
  csv_text (map as_timestamp frame) = csv_text frame.
Proof. unfold csv_text. now rewrite map_map. Qed.

(** X3. When every date of the frame can be converted and the image path
    is not a directory, the line chart is saved with one line per distinct
    city of the frame, the lines in ascending order of city name and
    labelled by their city; the points of a line are exactly the caller's
    rows of that city (as Timestamps), ordered by ascending date. The figure
    opened for the chart is closed again. *)
Theorem line_chart_one_sorted_line_per_city df frame (w : World S E) :
  w_heap w !! df = Some frame ->
  Forall (fun r => in_timestamp_range (cell_date (r_date r))) frame ->
  w_fs w !! "temperature_changes.png" <> Some Dir ->
  exists fig (lines : list (string * list Row)),
    fst (plot_temperature_changes df w) = inr tt /\
    w_fs (snd (plot_temperature_changes df w)) !! "temperature_changes.png" =
      Some (File (Image fig)) /\
    fig_artists fig =
      map (fun cl => Line2D (map r_date (snd cl)) (map r_temperature (snd cl))
                       (fst cl)) lines /\
    fig_legend fig = true /\
    List.NoDup (map fst lines) /\
    (forall c, In c (map fst lines) <-> In c (map r_city frame)) /\
    StronglySorted (fun a b => String.compare a b = Lt) (map fst lines) /\
    Forall (fun cl =>
              Permutation (snd cl) (map as_timestamp (select_city (fst cl) frame)) /\
              StronglySorted
                (fun a b => toordinal (cell_date (r_date a)) <=
                            toordinal (cell_date (r_date b))) (snd cl)) lines /\
    w_figs (snd (plot_temperature_changes df w)) = w_figs w.
Proof.
  intros Hdf Hrange Hp.
  rewrite (plot_temperature_changes_run df frame w Hdf Hrange Hp).
  set (sorted := sorted_by_city_date (map as_timestamp frame)).
  set (cs := unique (map r_city sorted)).
  eexists. exists (map (fun c => (c, select_city c sorted)) cs).
  cbn [fst snd set_stdout set_fs set_heap w_fs w_figs].
  split; [reflexivity|]. split; [apply lookup_insert_eq|].
  cbn [fig_artists fig_legend]. rewrite !map_map. cbn [fst snd].
  rewrite map_id.
  split; [reflexivity|]. split; [reflexivity|].
  split; [apply NoDup_unique|]. split; [|split; [|split; [|reflexivity]]].
  - intros c. unfold cs. rewrite in_unique.
    assert (Hperm : Permutation (map r_city sorted) (map r_city frame)).
    { unfold sorted. eapply perm_trans.
      - apply Permutation_map, sorted_by_city_date_perm.
      - rewrite map_map. apply Permutation_refl. }
    split; intros Hin.
    + eapply Permutation_in; [exact Hperm | exact Hin].
    + eapply Permutation_in; [apply Permutation_sym, Hperm | exact Hin].
  - apply unique_strictly_sorted, sorted_cities_ascending.
  - apply List.Forall_map. apply List.Forall_forall. intros c _. cbn [fst snd].
    destruct (select_city_sorted c (map as_timestamp frame)) as [Hperm Hsorted].
    split; [|exact Hsorted]. now rewrite <- select_city_as_timestamp.
Qed.

(** The histogram renderer up to the point where it saves the figure. *)
Lemma histogram_figure_built df frame counts edges (w : World S E)
    (k : unit -> M S E unit) :
  w_heap w !! df = Some frame ->
  np_histogram (map f_double (map r_temperature frame)) 20 = inr (counts, edges) ->
  (plt_figure (8 # 1, 5 # 1)%Q ≫= fun _ =>
   get_frame df ≫= fun frame =>
   plt_hist (map r_temperature frame) 20 "black" ≫= fun _ =>
   on_gcf (set_title "Распределение температуры (за 30 дней, все города)") ≫= fun _ =>
   on_gcf (set_xlabel "Температура (°C)") ≫= fun _ =>
   on_gcf (set_ylabel "Частота") ≫= fun _ =>
   on_gcf (set_grid true) ≫= fun _ =>
   on_gcf set_tight ≫= k) w =
  k tt (set_figs
          (mk_figure (8 # 1, 5 # 1)%Q [BarContainer edges counts "black"]
             "Распределение температуры (за 30 дней, все города)"
             "Температура (°C)" "Частота" false true true :: w_figs w) w).
Proof.
  intros Hdf Hh.
  erewrite bind_inr by reflexivity.
  erewrite bind_inr
    by (unfold get_frame; cbn [set_figs w_heap]; rewrite Hdf; reflexivity).
  erewrite bind_inr.
  2:{ unfold plt_hist. erewrite bind_inr by (unfold lift; rewrite Hh; reflexivity).
      eapply on_gcf_run. reflexivity. }
  do 5 (erewrite bind_inr by (eapply on_gcf_run; reflexivity)).
  destruct w. reflexivity.
Qed.

(** The histogram renderer when the image can be written. *)
Lemma plot_temperature_distribution_world df frame (w : World S E) :
  w_heap w !! df = Some frame ->
  Forall (fun r => moderate (r_temperature r)) frame ->
  w_fs w !! "temperature_distribution.png" <> Some Dir ->
  exists fig,
    plot_temperature_distribution df w =
    (inr tt,
     set_stdout
       (w_stdout w ++
        ["[INFO] Гистограмма распределения температур сохранена в 'temperature_distribution.png'."])
       (set_fs (<["temperature_distribution.png" := File (Image fig)]> (w_fs w)) w)).
Proof.
  intros Hdf Hm Hp.
  destruct (np_histogram_moderate (map r_temperature frame))
    as (Hh & _); [now apply List.Forall_map|].
  eexists. unfold plot_temperature_distribution.
  rewrite (histogram_figure_built df frame _ _ w _ Hdf Hh).
  erewrite bind_inr by (eapply plt_savefig_run; [reflexivity | exact Hp]).
  erewrite bind_inr by reflexivity.
  unfold print. destruct w. reflexivity.
Qed.

(** X4. The histogram renderer, given a frame of moderate temperatures:
    when the image path is not a directory it returns normally having
    changed one file and printed one line; heap, open figures, random source
    and remote store are as before. The image holds one figure whose only
    artist is the bar container of the 21 edges numpy spaces over the range
    of the data and of the number of values in each of the 20 bins. When the
    path is a directory it raises IsADirectoryError, has printed and written
    nothing, and the figure it opened stays open. *)
Theorem histogram_renderer_effect df frame (w : World S E) :
  w_heap w !! df = Some frame ->
  Forall (fun r => moderate (r_temperature r)) frame ->
  let a := map f_double (map r_temperature frame) in
  let edges := np_linspace (fst (outer_edges a)) (snd (outer_edges a)) 21 in
  let counts :=
    map (fun b => length (List.filter (in_bin edges 20 b) a)) (range 20) in
  let fig :=
    mk_figure (8 # 1, 5 # 1)%Q [BarContainer edges counts "black"]
      "Распределение температуры (за 30 дней, все города)"
      "Температура (°C)" "Частота" false true true in
  (w_fs w !! "temperature_distribution.png" <> Some Dir ->
   plot_temperature_distribution df w =
   (inr tt,
    set_stdout
      (w_stdout w ++
       ["[INFO] Гистограмма распределения температур сохранена в 'temperature_distribution.png'."])
      (set_fs (<["temperature_distribution.png" := File (Image fig)]> (w_fs w)) w))) /\
  (w_fs w !! "temperature_distribution.png" = Some Dir ->
   plot_temperature_distribution df w =
   (inl IsADirectoryError, set_figs (fig :: w_figs w) w)).
Proof.
  intros Hdf Hm a edges counts fig.
  destruct (np_histogram_moderate (map r_temperature frame))
    as (Hh & _); [now apply List.Forall_map|].
  fold a in Hh. cbv zeta in Hh. fold edges in Hh. fold counts in Hh.
  unfold plot_temperature_distribution. split; intros Hp.
  - rewrite (histogram_figure_built df frame _ _ w _ Hdf Hh).
    erewrite bind_inr by (eapply plt_savefig_run; [reflexivity | exact Hp]).
    erewrite bind_inr by reflexivity.
    unfold print. destruct w. reflexivity.
  - rewrite (histogram_figure_built df frame _ _ w _ Hdf Hh).
    unfold mbind, M_bind, plt_savefig, write_file.
    cbn [set_figs w_figs w_fs]. rewrite Hp. reflexivity.
Qed.

(** X5. to_csv only reads the frame and writes the one file: it returns the
    world with the file at its path replaced and nothing else changed. The
    text depends on the calendar days only, so persisting after the line
    chart has converted the date column writes the same text as persisting
    before it. *)
Theorem persisting_before_or_after_the_line_chart df frame path (w : World S E) :
  w_heap w !! df = Some frame ->
  Forall (fun r => in_timestamp_range (cell_date (r_date r))) frame ->
  w_fs w !! "temperature_changes.png" <> Some Dir ->
  w_fs w !! path <> Some Dir ->
  to_csv df path w =
    (inr tt, set_fs (<[path := File (Text (csv_text frame))]> (w_fs w)) w) /\
  fst (to_csv df path (snd (plot_temperature_changes df w))) = inr tt /\
  w_fs (snd (to_csv df path (snd (plot_temperature_changes df w)))) !! path =
    Some (File (Text (csv_text frame))).
Proof.
  intros Hdf Hrange Hpng Hp.
  split; [now apply to_csv_run|].
  rewrite (plot_temperature_changes_run df frame w Hdf Hrange Hpng).
  cbn [snd].
  erewrite to_csv_run.
  - cbn [fst snd set_fs w_fs]. split; [reflexivity|].
    rewrite lookup_insert_eq. now rewrite csv_text_as_timestamp.
  - cbn [set_stdout set_fs set_heap w_heap].
    apply heap_after_lines_kept. rewrite lookup_insert_ne.
    + apply lookup_insert_eq.
    + intros Heq.
      apply (is_fresh (dom (<[df := map as_timestamp frame]> (w_heap w)))).
      rewrite Heq. apply elem_of_dom. rewrite lookup_insert_eq. eauto.
  - cbn [set_stdout set_fs set_heap w_fs].
    destruct (decide ("temperature_changes.png" = path)) as [<- | Hne].
    + rewrite lookup_insert_eq. discriminate.
    + now rewrite lookup_insert_ne.
Qed.

End RendererEffects.

(** ** Command lines *)

Lemma append_assoc3 (s t u : string) :
  ((s ++ t) ++ u)%string = (s ++ (t ++ u))%string.
Proof.
  induction s as [|x s IH]; [reflexivity|].
  rewrite !append_cons. now rewrite IH.
Qed.

Lemma command_words (verb a b : string) :
  contains " "%char verb = false ->
  contains " "%char a = false -> contains " "%char b = false ->
  split_on " "%char ("hadoop fs " ++ verb ++ " -f " ++ a ++ " " ++ b)%string =
  ["hadoop"; "fs"; verb; "-f"; a; b].
Proof.
  intros Hv Ha Hb.
  change ("hadoop fs " ++ verb ++ " -f " ++ a ++ " " ++ b)%string
    with ("hadoop" ++ String " " ("fs" ++ String " "
            (verb ++ String " " ("-f" ++ String " " (a ++ String " " b)))))%string.
  rewrite !split_on_app by (assumption || reflexivity).
  now rewrite split_on_none.
Qed.

Section CommandLines.

Context {S E : Type} `{RandomSource S} `{Shell E}.

Lemma save_results_run a b (w : World S E) :
  save_results_to_hdfs a b w =
  (inr tt,
   set_fs
     (snd (os_system_run ("hadoop fs -put -f " ++ a ++ " " ++ b)%string
             (w_ext w) (w_fs w)))
     (set_ext
        (snd (fst (os_system_run ("hadoop fs -put -f " ++ a ++ " " ++ b)%string
                     (w_ext w) (w_fs w))))
        (set_stdout
           (w_stdout w ++
            [("[INFO] Выполняется: " ++ "hadoop fs -put -f " ++ a ++ " " ++ b)%string])
           w))).
Proof.
  unfold save_results_to_hdfs, mbind, M_bind, print, os_system, mret, M_ret.
  cbn [set_stdout w_ext w_fs].
  destruct (os_system_run ("hadoop fs -put -f " ++ a ++ " " ++ b)%string
              (w_ext w) (w_fs w)) as [[st e] fs].
  reflexivity.
Qed.

Lemma get_results_run a b (w : World S E) :
  get_results_from_hdfs a b w =
  (inr tt,
   set_fs
     (snd (os_system_run ("hadoop fs -get -f " ++ a ++ " " ++ b)%string
             (w_ext w) (w_fs w)))
     (set_ext
        (snd (fst (os_system_run ("hadoop fs -get -f " ++ a ++ " " ++ b)%string
                     (w_ext w) (w_fs w))))
        (set_stdout
           (w_stdout w ++
            [("[INFO] Выполняется: " ++ "hadoop fs -get -f " ++ a ++ " " ++ b)%string])
           w))).
Proof.
  unfold get_results_from_hdfs, mbind, M_bind, print, os_system, mret, M_ret.
  cbn [set_stdout w_ext w_fs].
  destruct (os_system_run ("hadoop fs -get -f " ++ a ++ " " ++ b)%string
              (w_ext w) (w_fs w)) as [[st e] fs].
  reflexivity.
Qed.

(** X6. Each remote-storage call hands exactly one command line to the
    shell, the line it has logged, in which the two paths stand unquoted
    between single spaces; the world after the call is the one this command
    leaves. When neither path holds a space the shell sees the six words
    hadoop, fs, -put (-get), -f and the two paths. A space inside a path is
    not told apart from the space between the paths: putting the file a b
    to c is the same call as putting a to b c, and likewise for get. *)
Theorem paths_reach_the_shell_unquoted (a b c : string) (w : World S E) :
  (exists cmd,
     save_results_to_hdfs a b w =
       (inr tt,
        set_fs (snd (os_system_run cmd (w_ext w) (w_fs w)))
          (set_ext (snd (fst (os_system_run cmd (w_ext w) (w_fs w))))
             (set_stdout
                (w_stdout w ++ [("[INFO] Выполняется: " ++ cmd)%string]) w))) /\
     (contains " "%char a = false -> contains " "%char b = false ->
      split_on " "%char cmd = ["hadoop"; "fs"; "-put"; "-f"; a; b])) /\
  (exists cmd,
     get_results_from_hdfs a b w =
       (inr tt,
        set_fs (snd (os_system_run cmd (w_ext w) (w_fs w)))
          (set_ext (snd (fst (os_system_run cmd (w_ext w) (w_fs w))))
             (set_stdout
                (w_stdout w ++ [("[INFO] Выполняется: " ++ cmd)%string]) w))) /\
     (contains " "%char a = false -> contains " "%char b = false ->
      split_on " "%char cmd = ["hadoop"; "fs"; "-get"; "-f"; a; b])) /\
  save_results_to_hdfs (a ++ " " ++ b) c w =
    save_results_to_hdfs a (b ++ " " ++ c) w /\
  get_results_from_hdfs (a ++ " " ++ b) c w =
    get_results_from_hdfs a (b ++ " " ++ c) w.
Proof.
  assert (Hcmd : forall verb : string,
    (verb ++ (a ++ " " ++ b) ++ " " ++ c)%string =
    (verb ++ a ++ " " ++ (b ++ " " ++ c))%string).
  { intros verb. now rewrite !append_assoc3. }
  split; [|split; [|split]].
  - eexists. split; [apply save_results_run|].
    intros Ha Hb.
    apply (command_words "-put" a b); [reflexivity | assumption | assumption].
  - eexists. split; [apply get_results_run|].
    intros Ha Hb.
    apply (command_words "-get" a b); [reflexivity | assumption | assumption].
  - unfold save_results_to_hdfs. now rewrite Hcmd.
  - unfold get_results_from_hdfs. now rewrite Hcmd.
Qed.

End CommandLines.

(** ** The whole run *)

Section WholeRun.

Context {S E : Type} `{RandomSource S}.

Lemma bind_ext {A B} (m1 m2 : M S E A) (f1 f2 : A -> M S E B) :
  (forall w, m1 w = m2 w) -> (forall x w, f1 x w = f2 x w) ->
  forall w, (m1 ≫= f1) w = (m2 ≫= f2) w.
Proof.
  intros Hm Hf w. unfold mbind, M_bind. rewrite Hm.
  destruct (m2 w) as [[e|x] w']; [reflexivity | apply Hf].
Qed.

Lemma os_system_dropped (sh1 sh2 : Shell E) cmd :
  same_effects sh1 sh2 ->
  forall w : World S E,
    (os_system (H0 := sh1) cmd ≫= fun _ => mret tt) w =
    (os_system (H0 := sh2) cmd ≫= fun _ => mret tt) w.
Proof.
  intros Hsame w. unfold mbind, M_bind, os_system, mret, M_ret.
  destruct (Hsame cmd (w_ext w) (w_fs w)) as [He Hfs].
  destruct (@os_system_run E sh1 cmd (w_ext w) (w_fs w)) as [[st1 e1] fs1].
  destruct (@os_system_run E sh2 cmd (w_ext w) (w_fs w)) as [[st2 e2] fs2].
  cbn [fst snd] in He, Hfs. now subst.
Qed.

Lemma save_results_status_free (sh1 sh2 : Shell E) a b :
  same_effects sh1 sh2 ->
  forall w : World S E,
    save_results_to_hdfs (H0 := sh1) a b w = save_results_to_hdfs (H0 := sh2) a b w.
Proof.
  intros Hsame. unfold save_results_to_hdfs.
  apply bind_ext; [reflexivity|]. intros _. now apply os_system_dropped.
Qed.

Lemma get_results_status_free (sh1 sh2 : Shell E) a b :
  same_effects sh1 sh2 ->
  forall w : World S E,
    get_results_from_hdfs (H0 := sh1) a b w = get_results_from_hdfs (H0 := sh2) a b w.
Proof.
  intros Hsame. unfold get_results_from_hdfs.
  apply bind_ext; [reflexivity|]. intros _. now apply os_system_dropped.
Qed.

(** X7. The run never looks at an exit status: with two storage clients
    that act alike on the remote store and on the local files, main ends
    with the same result and in the same world, whatever statuses the two
    report. *)
Theorem main_does_not_depend_on_exit_statuses (sh1 sh2 : Shell E) (w : World S E) :
  same_effects sh1 sh2 ->
  main (H0 := sh1) w = main (H0 := sh2) w.
Proof.
  intros Hsame. unfold main.
  apply bind_ext; [reflexivity|]. intros df.
  apply bind_ext; [reflexivity|]. intros _.
  apply bind_ext; [reflexivity|]. intros _.
  do 3 (apply bind_ext; [now apply save_results_status_free|]; intros _).
  apply bind_ext; [reflexivity|]. intros _.
  do 3 (apply bind_ext; [now apply get_results_status_free|]; intros _).
  reflexivity.
Qed.

End WholeRun.

Section MainRun.

Context {S E : Type} `{RandomSource S} `{Shell E}.

Lemma generated_rows_in_timestamp_range today (s : S) cs : forall off,
  ts_min_ordinal + 30 <= toordinal today <= ts_max_ordinal + 1 ->
  Forall (fun r => in_timestamp_range (cell_date (r_date r)))
    (map row_of_reading (readings_from today 30 s off cs)).
Proof.
  intros off Ht. revert off. induction cs as [|c cs IH]; intros off; [constructor|].
  cbn [readings_from]. rewrite map_app. apply Forall_app. split; [|apply IH].
  unfold city_readings. rewrite map_map. apply List.Forall_forall.
  intros r Hin. apply in_map_iff in Hin. destruct Hin as (i & <- & Hi).
  apply in_seq in Hi. cbn [row_of_reading r_date cell_date].
  unfold in_timestamp_range, ts_min_ordinal, ts_max_ordinal, _MAXORDINAL in *.
  rewrite toordinal_fromordinal; unfold _MAXORDINAL; lia.
Qed.

(** Step 1 of main, with the world it leaves. *)
Lemma main_collect_world (w : World S E) :
  window_in_range (w_today w) 30 ->
  w_fs w !! csv_file <> Some Dir ->
  let frame :=
    map row_of_reading (readings_from (w_today w) 30 (w_rng w) 0 cities) in
  let df := fresh (dom (w_heap w)) in
  main_collect w =
  (inr df,
   set_stdout
     ((w_stdout w ++ ["[INFO] Данные по погоде (имитация) собраны."]) ++
      ["[INFO] Исходные данные сохранены в 'weather_data.csv'."])
     (set_fs (<[csv_file := File (Text (csv_text frame))]> (w_fs w))
        (set_heap (<[df := frame]> (w_heap w))
           (set_rng
              (rng_after (-5 # 1) (35 # 1) (w_rng w)
                 (length cities * Z.to_nat 30)) w)))).
Proof.
  intros Hr Hp frame df. unfold main_collect, generate_weather_data.
  erewrite bind_inr by (apply generate_run; exact Hr).
  erewrite bind_inr by reflexivity.
  erewrite bind_inr.
  2:{ apply to_csv_run.
      - cbn [set_stdout set_heap set_rng w_heap]. apply lookup_insert_eq.
      - exact Hp. }
  erewrite bind_inr by reflexivity.
  unfold mret, M_ret. destruct w. reflexivity.
Qed.

Lemma mkdir_exist_ok_run path (w : World S E) :
  (forall c, w_fs w !! path <> Some (File c)) ->
  exists fs, mkdir_exist_ok path w = (inr tt, set_fs fs w).
Proof.
  intros Hp. unfold mkdir_exist_ok.
  destruct (w_fs w !! path) as [[|c]|] eqn:Hl.
  - exists (w_fs w). destruct w. reflexivity.
  - now specialize (Hp c).
  - eexists. reflexivity.
Qed.

(** The steps of main, each with what the next steps need to know about
    the world it leaves. *)
Lemma main_collect_step (w : World S E) :
  window_in_range (w_today w) 30 ->
  w_fs w !! csv_file <> Some Dir ->
  exists df frame wA,
    main_collect w = (inr df, wA) /\
    w_heap wA !! df = Some frame /\
    w_fs wA = <[csv_file := File (Text (csv_text frame))]> (w_fs w) /\
    w_stdout wA =
      w_stdout w ++ ["[INFO] Данные по погоде (имитация) собраны.";
                     "[INFO] Исходные данные сохранены в 'weather_data.csv'."] /\
    frame = map row_of_reading (readings_from (w_today w) 30 (w_rng w) 0 cities).
Proof.
  intros Hr Hp. eexists. eexists. eexists.
  split; [apply main_collect_world; assumption|].
  cbn [set_stdout set_fs set_heap w_heap w_fs w_stdout].
  split; [apply lookup_insert_eq|]. split; [reflexivity|].
  split; [now rewrite <- app_assoc | reflexivity].
Qed.

Lemma chart_step df frame (w : World S E) :
  w_heap w !! df = Some frame ->
  Forall (fun r => in_timestamp_range (cell_date (r_date r))) frame ->
  w_fs w !! "temperature_changes.png" <> Some Dir ->
  exists w',
    plot_temperature_changes df w = (inr tt, w') /\
    w_heap w' !! df = Some (map as_timestamp frame) /\
    (exists img, w_fs w' = <["temperature_changes.png" := img]> (w_fs w)) /\
    w_stdout w' =
      w_stdout w ++
      ["[INFO] График изменений температуры сохранён в 'temperature_changes.png'."].
Proof.
  intros Hdf Hrange Hp. eexists.
  split; [apply plot_temperature_changes_run; eassumption|].
  cbn [set_stdout set_fs set_heap w_heap w_fs w_stdout].
  split; [|split; [eexists; reflexivity | reflexivity]].
  apply heap_after_lines_kept. rewrite lookup_insert_ne.
  - apply lookup_insert_eq.
  - intros Heq.
    apply (is_fresh (dom (<[df := map as_timestamp frame]> (w_heap w)))).
    rewrite Heq. apply elem_of_dom. rewrite lookup_insert_eq. eauto.
Qed.

Lemma histogram_step df frame (w : World S E) :
  w_heap w !! df = Some frame ->
  Forall (fun r => moderate (r_temperature r)) frame ->
  w_fs w !! "temperature_distribution.png" <> Some Dir ->
  exists w',
    plot_temperature_distribution df w = (inr tt, w') /\
    (exists img, w_fs w' = <["temperature_distribution.png" := img]> (w_fs w)) /\
    w_stdout w' =
      w_stdout w ++
      ["[INFO] Гистограмма распределения температур сохранена в 'temperature_distribution.png'."].
Proof.
  intros Hdf Hm Hp.
  destruct (plot_temperature_distribution_world df frame w Hdf Hm Hp) as (fig & Hrun).
  eexists. split; [exact Hrun|].
  cbn [set_stdout set_fs w_fs w_stdout].
  split; [eexists; reflexivity | reflexivity].
Qed.

Lemma remote_step (put : bool) a b (w : World S E) :
  exists w',
    remote_call put a b w = (inr tt, w') /\
    w_stdout w' = w_stdout w ++ [("[INFO] Выполняется: " ++ remote_cmd put a b)%string] /\
    w_fs w' = snd (os_system_run (remote_cmd put a b) (w_ext w) (w_fs w)).
Proof.
  destruct put; eexists.
  - split; [apply save_results_run|]. split; reflexivity.
  - split; [apply get_results_run|]. split; reflexivity.
Qed.

(** X8. main runs to its end whatever the storage client reports: when the
    30 days before today can be held as Timestamps, the three files it
    writes are not directories, no regular file is in the way of the
    directory results_from_hdfs and none of the three put commands of main
    leaves one there (a put writes to the remote store), main returns
    normally having printed its eleven lines, the six command lines among
    them, in order. Nothing is asked of what the get commands do. *)
Theorem main_runs_to_completion (w : World S E) :
  ts_min_ordinal + 30 <= toordinal (w_today w) <= ts_max_ordinal + 1 ->
  w_fs w !! csv_file <> Some Dir ->
  w_fs w !! "temperature_changes.png" <> Some Dir ->
  w_fs w !! "temperature_distribution.png" <> Some Dir ->
  (forall c, w_fs w !! "results_from_hdfs" <> Some (File c)) ->
  (forall cmd e fs,
     In cmd
       [ "hadoop fs -put -f weather_data.csv /user/your_hdfs_user/weather_data.csv";
         "hadoop fs -put -f temperature_changes.png /user/your_hdfs_user/temperature_changes.png";
         "hadoop fs -put -f temperature_distribution.png /user/your_hdfs_user/temperature_distribution.png" ] ->
     (forall c, fs !! "results_from_hdfs" <> Some (File c)) ->
     forall c, snd (os_system_run cmd e fs) !! "results_from_hdfs" <> Some (File c)) ->
  fst (main w) = inr tt /\
  w_stdout (snd (main w)) =
    w_stdout w ++
    [ "[INFO] Данные по погоде (имитация) собраны.";
      "[INFO] Исходные данные сохранены в 'weather_data.csv'.";
      "[INFO] График изменений температуры сохранён в 'temperature_changes.png'.";
      "[INFO] Гистограмма распределения температур сохранена в 'temperature_distribution.png'.";
      "[INFO] Выполняется: hadoop fs -put -f weather_data.csv /user/your_hdfs_user/weather_data.csv";
      "[INFO] Выполняется: hadoop fs -put -f temperature_changes.png /user/your_hdfs_user/temperature_changes.png";
      "[INFO] Выполняется: hadoop fs -put -f temperature_distribution.png /user/your_hdfs_user/temperature_distribution.png";
      "[INFO] Выполняется: hadoop fs -get -f /user/your_hdfs_user/weather_data.csv results_from_hdfs/weather_data.csv";
      "[INFO] Выполняется: hadoop fs -get -f /user/your_hdfs_user/temperature_changes.png results_from_hdfs/temperature_changes.png";
      "[INFO] Выполняется: hadoop fs -get -f /user/your_hdfs_user/temperature_distribution.png results_from_hdfs/temperature_distribution.png";
      "[INFO] Процесс завершён." ].
Proof.
  intros Ht Hcsv Hpng1 Hpng2 Hdir Hclient.
  assert (Hr : window_in_range (w_today w) 30).
  { intros i Hi. unfold ts_min_ordinal, ts_max_ordinal, _MAXORDINAL in *. lia. }
  remember (main w) as out eqn:Hout. unfold main in Hout.
  (* step 1 *)
  destruct (main_collect_step w Hr Hcsv)
    as (df & frame & wA & HA & HhA & HfA & HoA & Hframe).
  erewrite bind_inr in Hout by exact HA. clear HA.
  (* the line chart *)
  destruct (chart_step df frame wA HhA) as (wB & HB & HhB & (img1 & HfB) & HoB).
  { rewrite Hframe. apply generated_rows_in_timestamp_range. exact Ht. }
  { rewrite HfA. now rewrite lookup_insert_ne. }
  erewrite bind_inr in Hout by exact HB. clear HB.
  (* the histogram *)
  destruct (histogram_step df _ wB HhB) as (wC & HC & (img2 & HfC) & HoC).
  { apply List.Forall_map. rewrite Hframe.
    eapply List.Forall_impl; [|apply generated_temperatures_moderate].
    intros row Hrow. exact Hrow. }
  { rewrite HfB, HfA. now rewrite !lookup_insert_ne. }
  erewrite bind_inr in Hout by exact HC. clear HC.
  assert (HdC : forall c, w_fs wC !! "results_from_hdfs" <> Some (File c)).
  { intros c. rewrite HfC, HfB, HfA. rewrite !lookup_insert_ne by discriminate.
    apply Hdir. }
  (* the three uploads *)
  destruct (remote_step true csv_file hdfs_csv_path wC)
    as (w1 & H1 & Ho1 & Hf1). cbn [remote_call remote_cmd] in H1, Ho1, Hf1.
  erewrite bind_inr in Hout by exact H1. clear H1.
  destruct (remote_step true "temperature_changes.png" hdfs_temp_changes w1)
    as (w2 & H2 & Ho2 & Hf2). cbn [remote_call remote_cmd] in H2, Ho2, Hf2.
  erewrite bind_inr in Hout by exact H2. clear H2.
  destruct (remote_step true "temperature_distribution.png" hdfs_temp_distribution w2)
    as (w3 & H3 & Ho3 & Hf3). cbn [remote_call remote_cmd] in H3, Ho3, Hf3.
  erewrite bind_inr in Hout by exact H3. clear H3.
  (* the directory *)
  destruct (mkdir_exist_ok_run "results_from_hdfs" w3) as (fs' & Hmk).
  { rewrite Hf3. apply Hclient; [right; right; now left|].
    rewrite Hf2. apply Hclient; [right; now left|].
    rewrite Hf1. apply Hclient; [now left|]. exact HdC. }
  erewrite bind_inr in Hout by exact Hmk. clear Hmk.
  (* the three downloads and the last line *)
  destruct (remote_step false hdfs_csv_path "results_from_hdfs/weather_data.csv"
              (set_fs fs' w3))
    as (w4 & H4 & Ho4 & _). cbn [remote_call remote_cmd] in H4, Ho4.
  erewrite bind_inr in Hout by exact H4. clear H4.
  destruct (remote_step false hdfs_temp_changes
              "results_from_hdfs/temperature_changes.png" w4)
    as (w5 & H5 & Ho5 & _). cbn [remote_call remote_cmd] in H5, Ho5.
  erewrite bind_inr in Hout by exact H5. clear H5.
  destruct (remote_step false hdfs_temp_distribution
              "results_from_hdfs/temperature_distribution.png" w5)
    as (w6 & H6 & Ho6 & _). cbn [remote_call remote_cmd] in H6, Ho6.
  erewrite bind_inr in Hout by exact H6. clear H6.
  subst out. unfold print. cbn [fst snd set_stdout w_stdout].
  split; [reflexivity|].
  rewrite Ho6, Ho5, Ho4. cbn [set_fs w_stdout].
  rewrite Ho3, Ho2, Ho1, HoC, HoB, HoA.
  rewrite <- !app_assoc. reflexivity.
Qed.

End MainRun.

(** ** Calls that fail *)

Section FailingCalls.

Context {S E : Type} `{RandomSource S} `{Shell E}.

(** One step of a computation that raises. *)
Lemma bind_inl {A B} (m : M S E A) (f : A -> M S E B) w e w' :
  m w = (inl e, w') -> (m ≫= f) w = (inl e, w').
Proof. intros Hm. unfold mbind, M_bind. now rewrite Hm. Qed.

(** X9. A directory at the image path makes the line chart fail late: it
    raises IsADirectoryError only when it saves, so the caller's date column
    has been converted by then and the figure it opened is left open, while
    no file is written and nothing is printed. *)
Theorem line_chart_fails_late_on_a_directory df frame (w : World S E) :
  w_heap w !! df = Some frame ->
  Forall (fun r => in_timestamp_range (cell_date (r_date r))) frame ->
  w_fs w !! "temperature_changes.png" = Some Dir ->
  exists fig,
    fst (plot_temperature_changes df w) = inl IsADirectoryError /\
    w_heap (snd (plot_temperature_changes df w)) !! df =
      Some (map as_timestamp frame) /\
    w_figs (snd (plot_temperature_changes df w)) = fig :: w_figs w /\
    w_fs (snd (plot_temperature_changes df w)) = w_fs w /\
    w_stdout (snd (plot_temperature_changes df w)) = w_stdout w.
Proof.
  intros Hdf Hrange Hp.
  unfold plot_temperature_changes.
  erewrite bind_inr by (unfold get_frame; rewrite Hdf; reflexivity).
  erewrite bind_inr
    by (unfold lift; rewrite to_datetime_in_range by (now apply List.Forall_map);
        reflexivity).
  rewrite assign_date_timestamps.
  erewrite bind_inr by reflexivity.
  erewrite bind_inr
    by (unfold get_frame; cbn [set_heap w_heap]; rewrite lookup_insert_eq;
        reflexivity).
  erewrite bind_inr by reflexivity.
  erewrite bind_inr
    by (unfold get_frame, new_frame; cbn [snd set_heap w_heap];
        rewrite lookup_insert_eq; reflexivity).
  erewrite bind_inr by reflexivity.
  erewrite bind_inr by (eapply plot_lines_run; reflexivity).
  do 6 (erewrite bind_inr by (eapply on_gcf_run; reflexivity)).
  erewrite bind_inl.
  2:{ unfold plt_savefig, write_file. cbn [set_figs set_heap w_figs w_fs].
      rewrite Hp. reflexivity. }
  eexists. cbn [fst snd set_figs set_heap w_heap w_figs w_fs w_stdout].
  split; [reflexivity|]. split; [|repeat split].
  apply heap_after_lines_kept. rewrite lookup_insert_ne.
  - apply lookup_insert_eq.
  - intros Heq.
    apply (is_fresh (dom (<[df := map as_timestamp frame]> (w_heap w)))).
    rewrite Heq. apply elem_of_dom. rewrite lookup_insert_eq. eauto.
Qed.


End FailingCalls.

(** * The further properties on concrete worlds *)

Lemma generate_row_by_index_witness :
  exists frame,
    returned_frame (generate ["A"; "B"] 3 world0) = Some frame /\
    nth_error frame 4 =
    Some (mk_row
            (DateObj (fromordinal
               (toordinal (w_today world0) - 3 + Z.of_nat (4 mod Z.to_nat 3))))
            (nth (4 / Z.to_nat 3) ["A"; "B"] EmptyString)
            (round1 (draw (-5 # 1) (35 # 1) (w_rng world0) 4))).
Proof.
  apply (generate_row_by_index ["A"; "B"] 3 world0 4); by_computation.
  vm_compute. lia.
Defined.

Lemma generate_footprint_witness :
  (exists df,
     fst (generate ["A"; "B"] 3 world0) = inr df /\
     w_heap world0 !! df = None /\
     w_rng (snd (generate ["A"; "B"] 3 world0)) =
       rng_after (-5 # 1) (35 # 1) (w_rng world0) 6 /\
     w_fs (snd (generate ["A"; "B"] 3 world0)) = w_fs world0) /\
  generate ["A"; "B"] 739923 world0 = (inl OverflowError, world0).
Proof.
  destruct (generate_footprint ["A"; "B"] 3 world0 ltac:(by_computation))
    as [Hok _].
  destruct (generate_footprint ["A"; "B"] 739923 world0 ltac:(by_computation))
    as [_ Hfail].
  split.
  - destruct (Hok ltac:(by_computation)) as (df & Hdf & Hnew & _ & Hrng & Hfs & _).
    exists df. repeat split; assumption.
  - apply Hfail; [discriminate | by_computation].
Defined.

Lemma line_chart_one_sorted_line_per_city_witness :
  exists fig (lines : list (string * list Row)),
    fst (plot_temperature_changes 0%nat (world_with sample_frame)) = inr tt /\
    w_fs (snd (plot_temperature_changes 0%nat (world_with sample_frame))) !!
      "temperature_changes.png" = Some (File (Image fig)) /\
    fig_artists fig =
      map (fun cl => Line2D (map r_date (snd cl)) (map r_temperature (snd cl))
                       (fst cl)) lines /\
    (forall c, In c (map fst lines) <-> In c ["London"; "London"; "Berlin"]) /\
    StronglySorted (fun a b => String.compare a b = Lt) (map fst lines).
Proof.
  destruct (line_chart_one_sorted_line_per_city 0%nat sample_frame
              (world_with sample_frame))
    as (fig & lines & Hret & Hfile & Hart & _ & _ & Hin & Hsorted & _).
  - by_computation.
  - unfold sample_frame, in_timestamp_range. repeat constructor; by_computation.
  - by_computation.
  - exists fig, lines. repeat split; try assumption; apply Hin.
Defined.

Lemma histogram_renderer_effect_witness :
  exists fig,
    plot_temperature_distribution 0%nat (world_with sample_frame) =
    (inr tt,
     set_stdout
       ["[INFO] Гистограмма распределения температур сохранена в 'temperature_distribution.png'."]
       (set_fs {[ "temperature_distribution.png" := File (Image fig) ]}
          (world_with sample_frame))).
Proof.
  assert (Hdf : w_heap (world_with sample_frame) !! 0%nat = Some sample_frame)
    by reflexivity.
  assert (Hm : Forall (fun r => moderate (r_temperature r)) sample_frame)
    by (unfold sample_frame, moderate; repeat constructor).
  pose proof (histogram_renderer_effect 0%nat sample_frame
                (world_with sample_frame) Hdf Hm) as Hx.
  cbv zeta in Hx. destruct Hx as [Hok _].
  eexists. rewrite Hok by discriminate. reflexivity.
Defined.

Lemma persisting_before_or_after_the_line_chart_witness :
  fst (to_csv 0%nat "out.csv"
         (snd (plot_temperature_changes 0%nat (world_with sample_frame)))) = inr tt /\
  w_fs (snd (to_csv 0%nat "out.csv"
               (snd (plot_temperature_changes 0%nat (world_with sample_frame))))) !!
    "out.csv" = Some (File (Text (csv_text sample_frame))).
Proof.
  destruct (persisting_before_or_after_the_line_chart 0%nat sample_frame "out.csv"
              (world_with sample_frame)) as (_ & Hret & Hfile).
  - by_computation.
  - unfold sample_frame, in_timestamp_range. repeat constructor; by_computation.
  - by_computation.
  - by_computation.
  - split; assumption.
Defined.

Lemma main_does_not_depend_on_exit_statuses_witness :
  main (H0 := fake_shell) world0 = main (H0 := quiet_shell) world0.
Proof.
  apply main_does_not_depend_on_exit_statuses.
  intros cmd e fs. unfold fake_shell, quiet_shell. cbn [os_system_run].
  destruct (fake_hadoop cmd e fs) as [[st e'] fs']. split; reflexivity.
Defined.

Lemma main_runs_to_completion_witness :
  fst (main (H0 := fake_shell) world0) = inr tt /\
  length (w_stdout (snd (main (H0 := fake_shell) world0))) = 11%nat.
Proof.
  destruct (main_runs_to_completion (H0 := fake_shell) world0)
    as [Hret Hout].
  - by_computation.
  - by_computation.
  - by_computation.
  - by_computation.
  - intros c. by_computation.
  - intros cmd e fs Hin Hfs c. cbn [os_system_run fake_shell].
    unfold fake_hadoop.
    destruct Hin as [<- | [<- | [<- | []]]];
      lazymatch goal with
      | |- context [split_on ?c ?s] =>
          let v := eval vm_compute in (split_on c s) in
          change (split_on c s) with v
      end;
      cbv beta iota;
      lazymatch goal with
      | |- context [fs !! ?l] => destruct (fs !! l) as [[|?]|]
      end;
      cbn [snd]; apply Hfs.
  - split; [exact Hret|]. rewrite Hout. reflexivity.
Defined.

Lemma line_chart_fails_late_on_a_directory_witness :
  exists fig,
    fst (plot_temperature_changes 0%nat
           (set_fs {[ "temperature_changes.png" := Dir ]} (world_with sample_frame))) =
      inl IsADirectoryError /\
    w_figs (snd (plot_temperature_changes 0%nat
           (set_fs {[ "temperature_changes.png" := Dir ]} (world_with sample_frame)))) =
      [fig].
Proof.
  destruct (line_chart_fails_late_on_a_directory 0%nat sample_frame
              (set_fs {[ "temperature_changes.png" := Dir ]}
                 (world_with sample_frame)))
    as (fig & Hret & _ & Hfigs & _).
  - by_computation.
  - unfold sample_frame, in_timestamp_range. repeat constructor; by_computation.
  - by_computation.
  - exists fig. split; assumption.
Defined.



Lemma paths_reach_the_shell_unquoted_witness :
  save_results_to_hdfs "weather data.csv" "/user/me" world0 =
  save_results_to_hdfs "weather" "data.csv /user/me" world0.
Proof.
  exact (proj1 (proj2 (proj2
    (paths_reach_the_shell_unquoted "weather" "data.csv" "/user/me" world0)))).
Defined.
